(** * INSPIRE validator client scripts: a shallow embedding

    The repository holds three near-duplicate Python scripts that drive the
    INSPIRE validator web service: [New_Validatoe_Inspiah.py],
    [validatorInpire.py] and [my_validator.py].  Each script is embedded in
    a module of its own name, over a common module [Py] that models the part
    of the Python runtime the scripts use: JSON values as [json.loads]
    returns them, truthiness, [dict.get], subscripting, exceptions, the
    [requests] calls, the clock and the file system.

    Effects are explicit: a computation is a function from a [world] to an
    [outcome] and the next world.  Writes to standard output ([print]) are
    not part of the model.  The file system is that of Linux, with regular
    files and directories only: links, devices, quotas and failing disks
    are not part of the model. *)

From Stdlib Require Import ZArith QArith Qround Lqa Lia.
From Stdlib Require Import String Ascii List DecimalString.
From stdpp Require Import base gmap strings list.

Set Warnings "-register-all".
Local Open Scope Q_scope.
Local Open Scope string_scope.
Local Open Scope list_scope.

(* ================================================================== *)
(** * The Python runtime used by the scripts *)
(* ================================================================== *)

Module Py.

(** ** Values

    What [json.loads] returns: [None], [bool], [int], [str], [list] and
    [dict].  A [dict] is kept as the members of the JSON text in document
    order; [dict_get] gives the last member of a repeated name, as
    [json.loads] does.  A number written with a fraction or an exponent
    (a Python [float]) is outside the model.  Strings are byte strings of
    ASCII text. *)
Inductive json : Type :=
| JNull
| JBool (b : bool)
| JNum (n : Z)
| JStr (s : string)
| JArr (items : list json)
| JObj (members : list (string * json)).

(** [bool(v)]: the values Python counts as false are [None], [False],
    [0], the empty string, [[]] and [{}]. *)
Definition truthy (v : json) : bool :=
  match v with
  | JNull => false
  | JBool b => b
  | JNum n => negb (n =? 0)%Z
  | JStr s => match s with EmptyString => false | String _ _ => true end
  | JArr items => match items with [] => false | _ :: _ => true end
  | JObj members => match members with [] => false | _ :: _ => true end
  end.

Definition is_dict (v : json) : bool :=
  match v with JObj _ => true | _ => false end.

Fixpoint dict_get (k : string) (members : list (string * json)) : option json :=
  match members with
  | [] => None
  | (k', v) :: rest =>
      match dict_get k rest with
      | Some later => Some later
      | None => if String.eqb k k' then Some v else None
      end
  end.

(** ** Exceptions *)
Inductive exn : Type :=
| AttributeError
| TypeError
| KeyError (key : string)
| RuntimeError (msg : string) (shown : json)  (* msg followed by str(shown) *)
| TimeoutError (msg : string)
| ValueError (msg : string)
| SystemExit (msg : string)
| FileNotFoundError (detail : string)
| IsADirectoryError (path : string)
| NotADirectoryError (path : string)
| PermissionError (path : string)
| OSError (errno : Z) (path : string)   (* an [OSError] of no subclass *)
| RequestException                  (* requests: connection error, read timeout *)
| HTTPError (status : Z)            (* requests: raise_for_status *)
| JSONDecodeError.                  (* requests: Response.json *)

(** [Blocked]: the service script of the world has no further answer, so
    the request that was just sent never returns. *)
Inductive outcome (A : Type) : Type :=
| Return (a : A)
| Raise (e : exn)
| Blocked.
Arguments Return {A} a.
Arguments Raise {A} e.
Arguments Blocked {A}.

(** ** Operations on values that may raise *)

(** [x.get(k, default)]: only a [dict] has the method. *)
Definition get_or (x : json) (k : string) (default : json) : outcome json :=
  match x with
  | JObj members =>
      Return (match dict_get k members with Some v => v | None => default end)
  | _ => Raise AttributeError
  end.

(** [x.get(k)] *)
Definition get (x : json) (k : string) : outcome json := get_or x k JNull.

(** [x[k]] for a string [k]. *)
Definition subscript (x : json) (k : string) : outcome json :=
  match x with
  | JObj members =>
      match dict_get k members with
      | Some v => Return v
      | None => Raise (KeyError k)
      end
  | _ => Raise TypeError
  end.

Fixpoint is_prefix (p s : string) : bool :=
  match p, s with
  | EmptyString, _ => true
  | String a p', String b s' => if Ascii.eqb a b then is_prefix p' s' else false
  | String _ _, EmptyString => false
  end.

Fixpoint is_substring (p s : string) : bool :=
  if is_prefix p s then true
  else match s with
       | EmptyString => false
       | String _ s' => is_substring p s'
       end.

Definition is_str (k : string) (v : json) : bool :=
  match v with JStr s => String.eqb k s | _ => false end.

(** [k in x] for a string [k]: a key of a [dict], an element of a [list],
    a substring of a [str]; the other values are not containers. *)
Definition contains (x : json) (k : string) : outcome bool :=
  match x with
  | JObj members => Return (match dict_get k members with Some _ => true | None => false end)
  | JArr items => Return (existsb (is_str k) items)
  | JStr s => Return (is_substring k s)
  | _ => Raise TypeError
  end.

(** [s.upper()] on ASCII text. *)
Definition upper_ascii (c : ascii) : ascii :=
  let n := nat_of_ascii c in
  if (97 <=? n)%nat && (n <=? 122)%nat then ascii_of_nat (n - 32) else c.

Fixpoint upper (s : string) : string :=
  match s with
  | EmptyString => EmptyString
  | String c s' => String (upper_ascii c) (upper s')
  end.

(** [v.upper()]: only a [str] has the method. *)
Definition str_upper (v : json) : outcome string :=
  match v with
  | JStr s => Return (upper s)
  | _ => Raise AttributeError
  end.

(** [s.strip()] on ASCII text. *)
Definition is_space (c : ascii) : bool :=
  let n := nat_of_ascii c in
  ((9 <=? n)%nat && (n <=? 13)%nat) || (28 <=? n)%nat && (n <=? 32)%nat.

Fixpoint lstrip (s : string) : string :=
  match s with
  | EmptyString => EmptyString
  | String c s' => if is_space c then lstrip s' else s
  end.

Fixpoint rstrip (s : string) : string :=
  match s with
  | EmptyString => EmptyString
  | String c s' =>
      match rstrip s' with
      | EmptyString => if is_space c then EmptyString else String c EmptyString
      | t => String c t
      end
  end.

Definition strip (s : string) : string := rstrip (lstrip s).

(** ** [str(v)], as an f-string formats a value

    [repr] of a [str] picks the quote and escapes as CPython does for ASCII
    text; a [dict] shows each name once, at its first position and with its
    last value. *)
Definition dquote : ascii := ascii_of_nat 34.
Definition squote : ascii := ascii_of_nat 39.
Definition backslash : ascii := ascii_of_nat 92.

Fixpoint has_char (c : ascii) (s : string) : bool :=
  match s with
  | EmptyString => false
  | String a s' => Ascii.eqb a c || has_char c s'
  end.

Definition hex_digit (n : nat) : ascii :=
  if (n <? 10)%nat then ascii_of_nat (48 + n) else ascii_of_nat (87 + n).

Definition escape_char (quote c : ascii) : string :=
  let n := nat_of_ascii c in
  if Ascii.eqb c backslash then String backslash (String backslash EmptyString)
  else if Ascii.eqb c quote then String backslash (String quote EmptyString)
  else if (n =? 10)%nat then String backslash "n"
  else if (n =? 13)%nat then String backslash "r"
  else if (n =? 9)%nat then String backslash "t"
  else if (n <? 32)%nat || (n =? 127)%nat then
    String backslash (String "x" (String (hex_digit (n / 16)) (String (hex_digit (n mod 16)) EmptyString)))
  else String c EmptyString.

Fixpoint escape (quote : ascii) (s : string) : string :=
  match s with
  | EmptyString => EmptyString
  | String c s' => escape_char quote c +:+ escape quote s'
  end.

Definition repr_str (s : string) : string :=
  let quote := if has_char squote s && negb (has_char dquote s) then dquote else squote in
  String quote (escape quote s +:+ String quote EmptyString).

Fixpoint join (sep : string) (parts : list string) : string :=
  match parts with
  | [] => EmptyString
  | [p] => p
  | p :: rest => p +:+ sep +:+ join sep rest
  end.

Fixpoint dict_set {A} (k : string) (v : A) (items : list (string * A)) : list (string * A) :=
  match items with
  | [] => [(k, v)]
  | (k', v') :: rest =>
      if String.eqb k k' then (k', v) :: rest else (k', v') :: dict_set k v rest
  end.

(** The items of the [dict] that a member list stands for. *)
Definition dict_items {A} (members : list (string * A)) : list (string * A) :=
  fold_left (fun acc kv => dict_set (fst kv) (snd kv) acc) members [].

Definition decimal (n : Z) : string := NilZero.string_of_int (Z.to_int n).

Fixpoint py_repr (v : json) : string :=
  match v with
  | JNull => "None"
  | JBool true => "True"
  | JBool false => "False"
  | JNum n => decimal n
  | JStr s => repr_str s
  | JArr items => "[" +:+ join ", " (map py_repr items) +:+ "]"
  | JObj members =>
      "{" +:+ join ", "
        (map (fun kv : string * string => repr_str (fst kv) +:+ ": " +:+ snd kv)
           (dict_items (map (fun kv : string * json => (fst kv, py_repr (snd kv))) members)))
      +:+ "}"
  end.

Definition py_str (v : json) : string :=
  match v with
  | JStr s => s
  | _ => py_repr v
  end.

(** ** The world: clock, service, file system *)

Inductive method : Type := GET | POST.

(** What a request carries: nothing, [data=json.dumps(j)], or
    [files={field: fh}] with the bytes read from [fh]. *)
Inductive body : Type :=
| NoBody
| JsonBody (j : json)
| FileBody (field : string) (data : string).

Record request : Type := {
  req_method : method;
  req_url : string;
  req_headers : list (string * string);
  req_body : body;
  req_timeout : option Z
}.

(** A response: [r.status_code], [r.content], and what [r.json()] gives
    ([None] when the content is not JSON). *)
Record response : Type := {
  status_code : Z;
  content : string;
  decoded : option json
}.

Inductive answer : Type :=
| Answered (r : response)
| Broken.                      (* the transport failed *)

(** One round trip: how long the call lasted on the wall clock (with any
    oversleeping of the [time.sleep] before it), and how it ended. *)
Record exchange : Type := { took : Q; reply : answer }.

(** What [os.stat] finds at a path, with what the process may do to it:
    read and write a regular file; list a directory, add names to it, and
    go through it. *)
Inductive file_entry : Type :=
| Directory (readable writable searchable : bool)
| RegularFile (readable writable : bool) (data : string).

Record world : Type := {
  now : Q;                          (* what time.time() reads, in seconds *)
  service : list exchange;          (* the answers still to come, in order *)
  sent : list request;              (* the requests made so far, in order *)
  files : gmap string file_entry    (* what each path names; see below *)
}.

(** [files] holds what [os.stat] finds for the process, each file and
    directory under its path in normal form: the names from the working
    directory [.] or from the root [/], joined by slashes, after any
    [..] that lead out of the working directory ([a/b], [../c], [/tmp/x]).
    A path that is spelled otherwise ([./a/b], [a//b], [a/c/../b]) is
    walked name by name, as the kernel does.  An entry under the very
    spelling that is opened counts as found without a walk.  The working
    directory, the directories above it and the root are there even when
    the map does not list them, as directories that the process may
    list, write and search. *)

Definition M (A : Type) : Type := world -> outcome A * world.

Definition ret {A} (a : A) : M A := fun w => (Return a, w).
Definition raise {A} (e : exn) : M A := fun w => (Raise e, w).
Definition lift {A} (o : outcome A) : M A := fun w => (o, w).

Definition bind {A B} (m : M A) (k : A -> M B) : M B :=
  fun w =>
    match m w with
    | (Return a, w') => k a w'
    | (Raise e, w') => (Raise e, w')
    | (Blocked, w') => (Blocked, w')
    end.

(** The same for computations on values, which touch no world. *)
Definition and_then {A B} (o : outcome A) (k : A -> outcome B) : outcome B :=
  match o with
  | Return a => k a
  | Raise e => Raise e
  | Blocked => Blocked
  end.

(** [a or b]: [b] is evaluated only when [a] is false. *)
Definition or_ (a b : outcome json) : outcome json :=
  match a with
  | Return x => if truthy x then Return x else b
  | Raise e => Raise e
  | Blocked => Blocked
  end.

(** [for e in v]: the elements of a [list], the characters of a [str],
    the names of a [dict]; the other values are not iterable. *)
Fixpoint chars (s : string) : list json :=
  match s with
  | EmptyString => []
  | String c s' => JStr (String c EmptyString) :: chars s'
  end.

Definition iterate (v : json) : outcome (list json) :=
  match v with
  | JArr items => Return items
  | JStr s => Return (chars s)
  | JObj members => Return (map (fun kv : string * json => JStr (fst kv)) (dict_items members))
  | _ => Raise TypeError
  end.

(** A loop body run on each element in turn; the first exception ends it. *)
Fixpoint for_each {A B} (f : A -> outcome B) (l : list A) : outcome (list B) :=
  match l with
  | [] => Return []
  | x :: rest =>
      match f x with
      | Return y =>
          match for_each f rest with
          | Return ys => Return (y :: ys)
          | Raise e => Raise e
          | Blocked => Blocked
          end
      | Raise e => Raise e
      | Blocked => Blocked
      end
  end.

Declare Scope py_scope.
Delimit Scope py_scope with py.
Notation "x <- m ;; k" := (bind m (fun x => k))
  (at level 100, m at next level, right associativity) : py_scope.
Notation "m ;; k" := (bind m (fun _ => k))
  (at level 100, right associativity) : py_scope.
Notation "'let*' x := o 'in' k" := (and_then o (fun x => k))
  (at level 10, x name, o at level 100, k at level 200) : py_scope.

(** [time.time()] and [time.sleep(d)] *)
Definition time_time : M Q := fun w => (Return (now w), w).

Definition slept (w : world) (d : Q) : world :=
  {| now := now w + d; service := service w; sent := sent w; files := files w |}.

(** [time.sleep] refuses a negative length. *)
Definition time_sleep (d : Q) : M unit :=
  fun w =>
    if Qle_bool 0 d then (Return tt, slept w d)
    else (Raise (ValueError "sleep length must be non-negative"), w).

(** [requests.get] and [requests.post]: the request is recorded, the
    clock moves on, and the next exchange of the service decides. *)
Definition served (w : world) (rq : request) (ex : exchange) (rest : list exchange) : world :=
  {| now := now w + took ex; service := rest; sent := sent w ++ [rq]; files := files w |}.

Definition unanswered (w : world) (rq : request) : world :=
  {| now := now w; service := []; sent := sent w ++ [rq]; files := files w |}.

Definition send (rq : request) : M response :=
  fun w =>
    match service w with
    | [] => (Blocked, unanswered w rq)
    | ex :: rest =>
        match reply ex with
        | Answered r => (Return r, served w rq ex rest)
        | Broken => (Raise RequestException, served w rq ex rest)
        end
    end.

Definition requests_get (url : string) (headers : list (string * string))
    (timeout : option Z) : M response :=
  send {| req_method := GET; req_url := url; req_headers := headers;
          req_body := NoBody; req_timeout := timeout |}.

Definition requests_post (url : string) (headers : list (string * string))
    (b : body) (timeout : option Z) : M response :=
  send {| req_method := POST; req_url := url; req_headers := headers;
          req_body := b; req_timeout := timeout |}.

(** [r.raise_for_status()]: requests raises for 4xx and 5xx only. *)
Definition is_error_status (code : Z) : bool :=
  ((400 <=? code) && (code <? 600))%Z.

Definition raise_for_status (r : response) : M unit :=
  if is_error_status (status_code r) then raise (HTTPError (status_code r)) else ret tt.

(** [r.json()] *)
Definition json_of (r : response) : M json :=
  match decoded r with
  | Some j => ret j
  | None => raise JSONDecodeError
  end.

(** ** Walking a path *)

Definition NAME_MAX : nat := 255.
Definition PATH_MAX : nat := 4096.
Definition ENAMETOOLONG : Z := 36.

Definition nul : ascii := ascii_of_nat 0.
Definition slash : ascii := ascii_of_nat 47.

(** The names between the slashes of a path, empty ones left out. *)
Fixpoint split_path (name rest : string) : list string :=
  match rest with
  | EmptyString => [name]
  | String c rest' =>
      if Ascii.eqb c slash then name :: split_path EmptyString rest'
      else split_path (name +:+ String c EmptyString) rest'
  end.

Definition named (c : string) : bool := negb (String.eqb c EmptyString).

Definition components (path : string) : list string :=
  List.filter named (split_path EmptyString path).

Definition is_absolute (path : string) : bool :=
  match path with
  | String c _ => Ascii.eqb c slash
  | EmptyString => false
  end.

Fixpoint ends_with_slash (p : string) : bool :=
  match p with
  | EmptyString => false
  | String c EmptyString => Ascii.eqb c slash
  | String _ p' => ends_with_slash p'
  end.

(** Where a walk stands: the names gone through, the last one first;
    [key] is the path in normal form of that place. *)
Definition key (absolute : bool) (stack : list string) : string :=
  if absolute then "/" +:+ join "/" (rev stack)
  else match stack with
       | [] => "."
       | _ => join "/" (rev stack)
       end.

(** One step up: [..] at the root stays there, and [..] from the working
    directory or above it is kept as a name. *)
Definition up (absolute : bool) (stack : list string) : list string :=
  match stack with
  | c :: rest =>
      if String.eqb c ".." then (if absolute then stack else ".." :: stack) else rest
  | [] => if absolute then [] else [".."]
  end.

(** What is at a place of the walk: the working directory, the
    directories above it ([..], [../..]) and the root are always
    there. *)
Definition entry_at (fs : gmap string file_entry) (k : string) : option file_entry :=
  match fs !! k with
  | Some e => Some e
  | None =>
      if String.eqb k "." || String.eqb k "/" || forallb (String.eqb "..") (split_path EmptyString k)
      then Some (Directory true true true) else None
  end.

(** The walk through the components.  Each one is looked up in the
    directory where the walk stands, which must be a directory that the
    process may search.  The walk ends with the place reached, the
    directory that holds the last name (when the path ends in a name),
    and whether that name is too long; a name too long earlier on the
    way ends the walk. *)
Fixpoint walk (fs : gmap string file_entry) (path : string) (absolute : bool)
    (stack : list string) (holder : option string) (comps : list string)
  : exn + (list string * option string * bool) :=
  match comps with
  | [] => inr (stack, holder, false)
  | c :: rest =>
      let here := key absolute stack in
      match entry_at fs here with
      | None => inl (FileNotFoundError path)
      | Some (RegularFile _ _ _) => inl (NotADirectoryError path)
      | Some (Directory _ _ false) => inl (PermissionError path)
      | Some (Directory _ _ true) =>
          if String.eqb c "." then walk fs path absolute stack None rest
          else if String.eqb c ".." then walk fs path absolute (up absolute stack) None rest
          else if (NAME_MAX <? String.length c)%nat then
            match rest with
            | [] => inr (c :: stack, Some here, true)
            | _ => inl (OSError ENAMETOOLONG path)
            end
          else walk fs path absolute (c :: stack) (Some here) rest
      end
  end.

(** What a path leads to: a file or a directory; a regular file where
    the path, ending in a slash, asks for a directory; a name that the
    directory [holder] does not have; a name too long; or an error on the
    way. *)
Inductive place : Type :=
| Found (e : file_entry)
| NotDirectory
| Free (holder : option string) (trailing : bool)
| TooLong (trailing : bool)
| Fails (e : exn).

Definition stat (fs : gmap string file_entry) (path : string) : place :=
  match fs !! path with
  | Some e => Found e
  | None =>
      if has_char nul path then Fails (ValueError "embedded null byte")
      else if (PATH_MAX <=? String.length path)%nat then Fails (OSError ENAMETOOLONG path)
      else match path with
           | EmptyString => Fails (FileNotFoundError path)
           | _ =>
               let absolute := is_absolute path in
               match walk fs path absolute [] None (components path) with
               | inl e => Fails e
               | inr (stack, holder, long) =>
                   let trailing := ends_with_slash path in
                   if long then TooLong trailing
                   else match entry_at fs (key absolute stack) with
                        | None => Free holder trailing
                        | Some (RegularFile r w data) =>
                            if trailing then NotDirectory else Found (RegularFile r w data)
                        | Some e => Found e
                        end
               end
           end
  end.

(** [os.path.isfile(path)]: [os.stat] finds a regular file; a failing
    [os.stat] gives [False]. *)
Definition os_path_isfile (path : string) : M bool :=
  fun w =>
    (Return (match stat (files w) path with
             | Found (RegularFile _ _ _) => true
             | _ => false
             end), w).

(** [open(path, "rb")], giving the bytes that are read from the handle. *)
Definition open_rb (path : string) : M string :=
  fun w =>
    match stat (files w) path with
    | Found (Directory true _ _) => (Raise (IsADirectoryError path), w)
    | Found (Directory false _ _) => (Raise (PermissionError path), w)
    | Found (RegularFile false _ _) => (Raise (PermissionError path), w)
    | Found (RegularFile true _ data) => (Return data, w)
    | NotDirectory => (Raise (NotADirectoryError path), w)
    | Free _ _ => (Raise (FileNotFoundError path), w)
    | TooLong _ => (Raise (OSError ENAMETOOLONG path), w)
    | Fails e => (Raise e, w)
    end.

(** [with open(path, "wb") as f: f.write(data)]: the file is created or
    truncated when it is opened.  A name that ends in a slash cannot be
    created, and the directory that is to hold a new name must allow
    writing.  The content is stored under the spelling that was
    opened. *)
Definition write_wb (path : string) (data : string) : M unit :=
  fun w =>
    let store e := {| now := now w; service := service w; sent := sent w;
                      files := <[path := e]> (files w) |} in
    match stat (files w) path with
    | Found (Directory _ _ _) => (Raise (IsADirectoryError path), w)
    | Found (RegularFile _ false _) => (Raise (PermissionError path), w)
    | Found (RegularFile r true _) => (Return tt, store (RegularFile r true data))
    | NotDirectory => (Raise (IsADirectoryError path), w)
    | TooLong true | Free _ true => (Raise (IsADirectoryError path), w)
    | TooLong false => (Raise (OSError ENAMETOOLONG path), w)
    | Free None false => (Raise (FileNotFoundError path), w)
    | Free (Some holder) false =>
        match entry_at (files w) holder with
        | Some (Directory _ true _) => (Return tt, store (RegularFile true true data))
        | _ => (Raise (PermissionError path), w)
        end
    | Fails e => (Raise e, w)
    end.

End Py.

Import Py.
Local Open Scope py_scope.

(* ================================================================== *)
(** * New_Validatoe_Inspiah.py *)
(* ================================================================== *)

Module New_Validatoe_Inspiah.

(** The hard-coded settings of the script, read by its functions as
    module globals. *)
Record globals : Type := {
  BASE : string;
  MODE : string;
  LOCAL_XML_PATH : string;
  REMOTE_XML_URL : string;
  SERVICE_ENDPOINT : string;
  RUN_LABEL : string;
  POLL_EVERY : Q;
  POLL_TIMEOUT : Q
}.

Definition settings : globals := {|
  BASE := "https://inspire.ec.europa.eu";
  MODE := "local";
  LOCAL_XML_PATH := "./2b_HELEO-L1C-INSPIRE-THE-CORRECT - Version_3 - Copy.xml";
  REMOTE_XML_URL := "https://example.org/your.xml";
  SERVICE_ENDPOINT := "https://example.org/wms?service=WMS&request=GetCapabilities";
  RUN_LABEL := "My XML validation";
  POLL_EVERY := 5;
  POLL_TIMEOUT := 25 * 60
|}.

Definition API (g : globals) : string := BASE g +:+ "/validator/v2".

Definition json_headers : list (string * string) :=
  [("Content-Type", "application/json"); ("Accept", "application/json")].

Definition upload_local_xml (g : globals) (path : string) : M json :=
  let url := API g +:+ "/TestObjects?action=upload" in
  fh <- open_rb path ;;
  r <- requests_post url [] (FileBody "fileupload" fh) (Some 1800%Z) ;;
  raise_for_status r ;;
  payload <- json_of r ;;
  test_object_id <- lift (let* t := subscript payload "testObject" in subscript t "id") ;;
  ret test_object_id.

(** The [dict] that [start_test_run] hands to [json.dumps]. *)
Definition run_request (label : string) (executable_test_suite_ids : list string)
    (test_object : json) : json :=
  JObj [("label", JStr label);
        ("executableTestSuiteIds", JArr (map JStr executable_test_suite_ids));
        ("arguments", JObj [("files_to_test", JStr ".*"); ("tests_to_execute", JStr ".*")]);
        ("testObject", test_object)].

(** [resp.get("EtfItemCollection", {}).get("testRuns", {}).get("TestRun", {}).get("id")] *)
Definition nested_run_id (resp : json) : outcome json :=
  let* c := get_or resp "EtfItemCollection" (JObj []) in
  let* rs := get_or c "testRuns" (JObj []) in
  let* r := get_or rs "TestRun" (JObj []) in
  get r "id".

Definition find_run_id (resp : json) : outcome json :=
  or_ (nested_run_id resp) (or_ (get resp "id") (get resp "testRunId")).

Definition start_test_run (g : globals) (label : string)
    (executable_test_suite_ids : list string) (test_object : json) : M json :=
  let url := API g +:+ "/TestRuns" in
  let body := run_request label executable_test_suite_ids test_object in
  r <- requests_post url json_headers (JsonBody body) (Some 60%Z) ;;
  raise_for_status r ;;
  resp <- json_of r ;;
  run_id <- lift (find_run_id resp) ;;
  if negb (truthy run_id)
  then raise (RuntimeError "Could not find TestRun id in response: " resp)
  else ret run_id.

(** The status that [get_test_run_status] reads off the reply. *)
Definition status_of (js : json) : outcome json :=
  or_ (let* t := get_or js "TestRun" (JObj []) in get t "status")
    (or_ (get js "status")
       (or_ (let* t := get_or js "EtfItem" (JObj []) in get t "status")
          (Return (JStr "UNKNOWN")))).

Definition get_test_run_status (g : globals) (run_id : json) : M json :=
  let url := API g +:+ "/TestRuns/" +:+ py_str run_id +:+ ".json" in
  r <- requests_get url [("Accept", "application/json")] (Some 60%Z) ;;
  raise_for_status r ;;
  js <- json_of r ;;
  lift (status_of js).

Definition is_terminal (up : string) : bool :=
  String.eqb up "COMPLETED" || String.eqb up "FAILED".

(** The [while True] loop of [wait_until_finished].  Each turn sends one
    request, so [fuel] turns are enough for a service with fewer than
    [fuel] answers left: the loop is [Blocked] before the fuel is spent. *)
Fixpoint wait_loop (fuel : nat) (g : globals) (run_id : json) (start : Q) : M json :=
  match fuel with
  | O => lift Blocked
  | S fuel' =>
      status <- get_test_run_status g run_id ;;
      up <- lift (str_upper status) ;;
      if is_terminal up then ret status
      else
        t <- time_time ;;
        if negb (Qle_bool (t - start) (POLL_TIMEOUT g))
        then raise (TimeoutError "Timeout waiting for the test run to finish.")
        else time_sleep (POLL_EVERY g) ;; wait_loop fuel' g run_id start
  end.

Definition wait_until_finished (g : globals) (run_id : json) : M json :=
  fun w => (start <- time_time ;; wait_loop (S (length (service w))) g run_id start) w.

Definition download_report_html (g : globals) (run_id : json) (out_path : string) : M string :=
  let url := API g +:+ "/TestRuns/" +:+ py_str run_id +:+ ".html" in
  r <- requests_get url [] (Some 180%Z) ;;
  raise_for_status r ;;
  write_wb out_path (content r) ;;
  ret out_path.

(** The script body under [if __name__ == "__main__"]; [typed] is the line
    that [input] reads. *)
Definition main (g : globals) (typed : string) : M unit :=
  let suite_id := strip typed in
  if String.eqb suite_id EmptyString
  then raise (SystemExit "No Executable Test Suite ID provided.")
  else
    test_object <-
      (if String.eqb (MODE g) "local" then
         isfile <- os_path_isfile (LOCAL_XML_PATH g) ;;
         if negb isfile
         then raise (FileNotFoundError ("LOCAL_XML_PATH not found: " +:+ LOCAL_XML_PATH g))
         else
           test_object_id <- upload_local_xml g (LOCAL_XML_PATH g) ;;
           ret (JObj [("id", test_object_id)])
       else if String.eqb (MODE g) "remote" then
         ret (JObj [("resources", JObj [("data", JStr (REMOTE_XML_URL g))])])
       else if String.eqb (MODE g) "service" then
         ret (JObj [("resources", JObj [("serviceEndpoint", JStr (SERVICE_ENDPOINT g))])])
       else raise (ValueError "MODE must be 'local', 'remote', or 'service'.")) ;;
    run_id <- start_test_run g (RUN_LABEL g) [suite_id] test_object ;;
    final_status <- wait_until_finished g run_id ;;
    let out_file := "report_" +:+ py_str run_id +:+ ".html" in
    download_report_html g run_id out_file ;;
    ret tt.

End New_Validatoe_Inspiah.

(* ================================================================== *)
(** * validatorInpire.py *)
(* ================================================================== *)

Module validatorInpire.

(** [BASE] comes from the environment variable [INSPIRE_BASE], with the
    production host as default. *)
Record globals : Type := {
  BASE : string;
  POLL_EVERY : Q;
  POLL_TIMEOUT : Q
}.

Definition settings (INSPIRE_BASE : option string) : globals := {|
  BASE := match INSPIRE_BASE with Some b => b | None => "https://inspire.ec.europa.eu" end;
  POLL_EVERY := 5;
  POLL_TIMEOUT := 25 * 60
|}.

Definition API (g : globals) : string := BASE g +:+ "/validator/v2".

Definition json_headers : list (string * string) :=
  [("Content-Type", "application/json"); ("Accept", "application/json")].

(** The loop over the three names under which the suites may be filed:
    the block under the first name that is [in col], [None] without one. *)
Fixpoint find_block (col : json) (keys : list string) : outcome json :=
  match keys with
  | [] => Return JNull
  | key :: rest =>
      let* found := contains col key in
      if found then subscript col key else find_block col rest
  end.

(** The record appended for one entry. *)
Definition suite_record (e : json) : outcome json :=
  let* id := or_ (get e "id") (or_ (get e "@id") (get e "localId")) in
  let* label := or_ (get e "label") (or_ (get e "title") (Return (JStr EmptyString))) in
  let* description := get_or e "description" (JStr EmptyString) in
  Return (JObj [("id", id); ("label", label); ("description", description)]).

(** What [get_executable_test_suites] makes of the decoded payload. *)
Definition normalize_suites (data : json) : outcome (list json) :=
  let* col := get_or data "EtfItemCollection" data in
  let* ets_block := find_block col ["executableTestSuites"; "items"; "ExecutableTestSuites"] in
  if negb (truthy ets_block) then
    match data with
    | JArr items => Return items
    | _ => Return []
    end
  else
    let* entries := or_ (get ets_block "ExecutableTestSuite") (Return ets_block) in
    let* entries := (if is_dict entries then Return [entries] else iterate entries) in
    for_each suite_record entries.

Definition get_executable_test_suites (g : globals) : M (list json) :=
  let url := API g +:+ "/ExecutableTestSuites" in
  r <- requests_get url [("Accept", "application/json")] None ;;
  raise_for_status r ;;
  data <- json_of r ;;
  lift (normalize_suites data).

Definition upload_local_xml (g : globals) (path : string) : M json :=
  let url := API g +:+ "/TestObjects?action=upload" in
  fh <- open_rb path ;;
  r <- requests_post url [] (FileBody "fileupload" fh) None ;;
  raise_for_status r ;;
  payload <- json_of r ;;
  test_object_id <- lift (let* t := subscript payload "testObject" in subscript t "id") ;;
  ret test_object_id.

Definition make_test_object_from_url (resource_url : string) : json :=
  JObj [("resources", JObj [("data", JStr resource_url)])].

Definition run_request (label : string) (executable_test_suite_ids : list string)
    (test_object : json) : json :=
  JObj [("label", JStr label);
        ("executableTestSuiteIds", JArr (map JStr executable_test_suite_ids));
        ("arguments", JObj [("files_to_test", JStr ".*"); ("tests_to_execute", JStr ".*")]);
        ("testObject", test_object)].

Definition nested_run_id (resp : json) : outcome json :=
  let* c := get_or resp "EtfItemCollection" (JObj []) in
  let* rs := get_or c "testRuns" (JObj []) in
  let* r := get_or rs "TestRun" (JObj []) in
  get r "id".

Definition find_run_id (resp : json) : outcome json :=
  let* eid := nested_run_id resp in
  if negb (truthy eid) then or_ (get resp "id") (get resp "testRunId") else Return eid.

Definition start_test_run (g : globals) (label : string)
    (executable_test_suite_ids : list string) (test_object : json) : M json :=
  let url := API g +:+ "/TestRuns" in
  let body := run_request label executable_test_suite_ids test_object in
  r <- requests_post url json_headers (JsonBody body) None ;;
  raise_for_status r ;;
  resp <- json_of r ;;
  eid <- lift (find_run_id resp) ;;
  if negb (truthy eid)
  then raise (RuntimeError "Could not find test run id in response: " resp)
  else ret eid.

Definition get_test_run_status (g : globals) (test_run_id : json) : M json :=
  let url := API g +:+ "/TestRuns/" +:+ py_str test_run_id +:+ ".json" in
  r <- requests_get url [("Accept", "application/json")] None ;;
  raise_for_status r ;;
  json_of r.

(** The status that [wait_until_finished] reads off the reply. *)
Definition status_of (js : json) : outcome json :=
  or_ (let* t := get_or js "TestRun" (JObj []) in get t "status")
    (or_ (get js "status")
       (let* t := get_or js "EtfItem" (JObj []) in get t "status")).

Definition is_terminal (up : string) : bool :=
  String.eqb up "COMPLETED" || String.eqb up "FAILED".

(** [status and status.upper() in {"COMPLETED", "FAILED"}] *)
Definition finished (status : json) : outcome bool :=
  if truthy status then let* up := str_upper status in Return (is_terminal up)
  else Return false.

Fixpoint wait_loop (fuel : nat) (g : globals) (test_run_id : json) (start : Q) : M json :=
  match fuel with
  | O => lift Blocked
  | S fuel' =>
      js <- get_test_run_status g test_run_id ;;
      status <- lift (status_of js) ;;
      done <- lift (finished status) ;;
      if done : bool then ret status
      else
        t <- time_time ;;
        if negb (Qle_bool (t - start) (POLL_TIMEOUT g))
        then raise (TimeoutError "Gave up waiting for the test run.")
        else time_sleep (POLL_EVERY g) ;; wait_loop fuel' g test_run_id start
  end.

Definition wait_until_finished (g : globals) (test_run_id : json) : M json :=
  fun w => (start <- time_time ;; wait_loop (S (length (service w))) g test_run_id start) w.

Definition download_report_html (g : globals) (test_run_id : json) (out_path : string) : M string :=
  let url := API g +:+ "/TestRuns/" +:+ py_str test_run_id +:+ ".html" in
  r <- requests_get url [] None ;;
  raise_for_status r ;;
  write_wb out_path (content r) ;;
  ret out_path.

(** ** [print_suites]

    What the function prints, one string for each [print], and how it
    ends.  [suites[:n]] is the slice of Python: a negative [n] counts from
    the end. *)
Definition slice_to {A} (l : list A) (n : Z) : list A :=
  if (0 <=? n)%Z then firstn (Z.to_nat n) l
  else firstn (Z.to_nat (Z.of_nat (length l) + n)) l.

(** [f"{i:02d}"] *)
Definition two_digits (i : Z) : string :=
  let d := decimal i in
  if (String.length d <? 2)%nat then "0" +:+ d else d.

(** [f"[{i:02d}] {s['label']}  (id: {s['id']})"] *)
Definition suite_line (i : Z) (s : json) : outcome string :=
  let* label := subscript s "label" in
  let* id := subscript s "id" in
  Return ("[" +:+ two_digits i +:+ "] " +:+ py_str label +:+ "  (id: " +:+ py_str id +:+ ")").

Fixpoint print_lines (i : Z) (shown : list json) : list string * outcome unit :=
  match shown with
  | [] => ([], Return tt)
  | s :: rest =>
      match suite_line i s with
      | Return line =>
          let (lines, o) := print_lines (i + 1) rest in (line :: lines, o)
      | Raise e => ([], Raise e)
      | Blocked => ([], Blocked)
      end
  end.

Definition print_suites (suites : list json) (limit : option Z) : list string * outcome unit :=
  let header := String "010"%char "== Available Executable Test Suites ==" in
  let len := Z.of_nat (length suites) in
  let given := match limit with Some n => negb (n =? 0)%Z | None => false end in
  let n := match limit with Some n => if given then n else len | None => len end in
  let (lines, o) := print_lines 1 (slice_to suites n) in
  match o with
  | Return _ =>
      if given && (n <? len)%Z
      then (header :: lines ++ ["... " +:+ decimal (len - n) +:+ " more (increase limit to see all)"],
            Return tt)
      else (header :: lines, Return tt)
  | _ => (header :: lines, o)
  end.

End validatorInpire.

(* ================================================================== *)
(** * my_validator.py *)
(* ================================================================== *)

Module my_validator.

(** [try: ... except (KeyError, TypeError, AttributeError): return []] *)
Definition caught (e : exn) : bool :=
  match e with
  | KeyError _ | TypeError | AttributeError => true
  | _ => false
  end.

Definition id_if_any (suite : json) : outcome (list json) :=
  let* i := get suite "id" in
  if truthy i then (let* i' := get suite "id" in Return [i']) else Return [].

Definition get_test_suite_ids_safe (executables_suites_results : json) : outcome (list json) :=
  let attempt :=
    let* c := get_or executables_suites_results "EtfItemCollection" (JObj []) in
    let* b := get_or c "executableTestSuites" (JObj []) in
    let* suites := get_or b "ExecutableTestSuite" (JArr []) in
    match suites with
    | JArr items => let* found := for_each id_if_any items in Return (concat found)
    | JObj _ => id_if_any suites
    | _ => Return []
    end in
  match attempt with
  | Raise e => if caught e then Return [] else Raise e
  | other => other
  end.

(** The keys of a Python [dict]: [None], numbers and strings hash, and
    [True] and [False] are the keys [1] and [0]; a [list] or a [dict] is
    unhashable. *)
Inductive pykey : Type :=
| KNone
| KInt (n : Z)
| KStr (s : string).

Definition hashable (v : json) : outcome pykey :=
  match v with
  | JNull => Return KNone
  | JBool b => Return (KInt (if b then 1 else 0))
  | JNum n => Return (KInt n)
  | JStr s => Return (KStr s)
  | JArr _ | JObj _ => Raise TypeError
  end.

#[global] Instance pykey_eq_dec : EqDecision pykey.
Proof. solve_decision. Defined.

Definition pykey_code (k : pykey) : unit + (Z + string) :=
  match k with
  | KNone => inl tt
  | KInt n => inr (inl n)
  | KStr s => inr (inr s)
  end.

Definition pykey_decode (c : unit + (Z + string)) : pykey :=
  match c with
  | inl _ => KNone
  | inr (inl n) => KInt n
  | inr (inr s) => KStr s
  end.

#[global] Instance pykey_countable : Countable pykey.
Proof.
  apply (inj_countable' pykey_code pykey_decode).
  intros []; reflexivity.
Defined.

(** One turn of the dict comprehension: the key expression, the value
    expression, then the store. *)
Definition add_suite (acc : gmap pykey json) (suite : json) : outcome (gmap pykey json) :=
  let* label := subscript suite "label" in
  let* i := subscript suite "id" in
  let* k := hashable label in
  Return (<[k := i]> acc).

Fixpoint comprehend (acc : gmap pykey json) (suites : list json) : outcome (gmap pykey json) :=
  match suites with
  | [] => Return acc
  | suite :: rest =>
      let* acc' := add_suite acc suite in
      comprehend acc' rest
  end.

Definition create_test_suite_lookup (executables_suites_results : json)
  : outcome (gmap pykey json) :=
  let* c := subscript executables_suites_results "EtfItemCollection" in
  let* b := subscript c "executableTestSuites" in
  let* suites := subscript b "ExecutableTestSuite" in
  let* each := iterate suites in
  comprehend ∅ each.

(** [lookup.get(label)] and [lookup[label]] *)
Definition lookup_get (lookup : gmap pykey json) (label : string) : json :=
  match lookup !! KStr label with
  | Some i => i
  | None => JNull
  end.

Definition lookup_item (lookup : gmap pykey json) (label : string) : outcome json :=
  match lookup !! KStr label with
  | Some i => Return i
  | None => Raise (KeyError label)
  end.

(** The statements of the script that pick the suite: [IDs_info] is the
    lookup built from the fetched catalog, [suite_id] the entry under the
    label the script names. *)
Definition wanted_label : string :=
  "Conformance Class 2b: INSPIRE data sets and data set series metadata for Monitoring".

Definition suite_id (executables_suites_results : json) : outcome json :=
  let* IDs_info := create_test_suite_lookup executables_suites_results in
  lookup_item IDs_info wanted_label.

(** ** The statements of the script, in order

    The globals that the script reads: [BASE] from the environment
    variable [INSPIRE_BASE], and the path of the file to upload. *)
Record globals : Type := {
  BASE : string;
  LOCAL_XML_PATH : string
}.

Definition settings (INSPIRE_BASE : option string) : globals := {|
  BASE := match INSPIRE_BASE with Some b => b | None => "https://inspire.ec.europa.eu" end;
  LOCAL_XML_PATH := "2b_HELEO-L1C-INSPIRE-THE-CORRECT - Version_3 - Copy.xml"
|}.

Definition API (g : globals) : string := BASE g +:+ "/validator/v2".

(** The catalog is fetched and decoded, the ids and the lookup are built,
    the suite is picked by its label, the file is uploaded and the id of
    the test object read.  No response is checked for its status.  The
    script ends with [suite_id] and [test_object_id] bound. *)
Definition script (g : globals) : M (json * json) :=
  let url := API g +:+ "/ExecutableTestSuites" in
  response <- requests_get url [("Accept", "application/json")] None ;;
  executables_suites_results <- json_of response ;;
  lift (get_test_suite_ids_safe executables_suites_results) ;;
  IDs_info <- lift (create_test_suite_lookup executables_suites_results) ;;
  cc2b_id <- lift (lookup_item IDs_info wanted_label) ;;
  suite_id <- lift (lookup_item IDs_info wanted_label) ;;
  let upload_url := API g +:+ "/TestObjects?action=upload" in
  f <- open_rb (LOCAL_XML_PATH g) ;;
  upload_response <- requests_post upload_url [] (FileBody "fileupload" f) None ;;
  upload_json <- json_of upload_response ;;
  test_object_id <- lift (let* t := subscript upload_json "testObject" in subscript t "id") ;;
  ret (suite_id, test_object_id).

End my_validator.

(* ================================================================== *)
(** * Key paths, in the words of the specification *)
(* ================================================================== *)

Module Spec.

(** The value at a key path: absent when a name on the way is missing or
    when the value met there is not an object. *)
Fixpoint at_path (p : list string) (v : json) : option json :=
  match p with
  | [] => Some v
  | k :: rest =>
      match v with
      | JObj members =>
          match dict_get k members with
          | Some x => at_path rest x
          | None => None
          end
      | _ => None
      end
  end.

(** A path resolves when the value at it is non-empty, that is, true in
    Python's sense: not [None], [False], [0], an empty string, list or
    object. *)
Definition resolves (p : list string) (v : json) : option json :=
  match at_path p v with
  | Some x => if truthy x then Some x else None
  | None => None
  end.

(** The candidate paths in order, the first that resolves. *)
Fixpoint first_resolved (paths : list (list string)) (v : json) : option json :=
  match paths with
  | [] => None
  | p :: rest =>
      match resolves p v with
      | Some x => Some x
      | None => first_resolved rest v
      end
  end.

(** The payload is an object, and so is every value met on the way along
    the path, short of its end. *)
Fixpoint walkable (p : list string) (v : json) : bool :=
  match p with
  | [] => true
  | k :: rest =>
      match v with
      | JObj members =>
          match dict_get k members with
          | Some x => walkable rest x
          | None => true
          end
      | _ => false
      end
  end.

Definition run_id_paths : list (list string) :=
  [["EtfItemCollection"; "testRuns"; "TestRun"; "id"]; ["id"]; ["testRunId"]].

Definition status_paths : list (list string) :=
  [["TestRun"; "status"]; ["status"]; ["EtfItem"; "status"]].

(** Two strings that differ at most in the case of their ASCII letters:
    they have the same length and, place by place, the same character or
    a capital letter and its small letter, 32 codes further on. *)
Definition capital (n : N) : bool := ((65 <=? n) && (n <=? 90))%N.

Definition same_letter (a b : ascii) : bool :=
  let x := N_of_ascii a in
  let y := N_of_ascii b in
  ((x =? y) || capital x && (y =? x + 32) || capital y && (x =? y + 32))%N.

Fixpoint reads_as (s t : string) : bool :=
  match s, t with
  | EmptyString, EmptyString => true
  | String a s', String b t' => same_letter a b && reads_as s' t'
  | _, _ => false
  end.

(** Text of ASCII characters only. *)
Fixpoint ascii_text (s : string) : bool :=
  match s with
  | EmptyString => true
  | String c s' => (N_of_ascii c <? 128)%N && ascii_text s'
  end.

End Spec.

(* ================================================================== *)
(** * Properties *)
(* ================================================================== *)

Import Spec.

(** ** Chained [.get(k, {})] calls and key paths *)

Fixpoint get_chain (p : list string) (v : json) : outcome json :=
  match p with
  | [] => Return v
  | k :: rest =>
      match rest with
      | [] => get v k
      | _ :: _ => let* x := get_or v k (JObj []) in get_chain rest x
      end
  end.

Definition or_none (o : option json) : json :=
  match o with Some x => x | None => JNull end.

Lemma get_chain_empty_dict (p : list string) :
  p <> [] -> get_chain p (JObj []) = Return JNull.
Proof.
  induction p as [|k rest IH]; intros Hp; [congruence|].
  destruct rest as [|k' rest']; [reflexivity|].
  cbn [get_chain get_or dict_get and_then]. apply IH. discriminate.
Qed.

Lemma get_chain_walkable (p : list string) :
  forall v, p <> [] -> walkable p v = true ->
            get_chain p v = Return (or_none (at_path p v)).
Proof.
  induction p as [|k rest IH]; intros v Hp Hw; [congruence|].
  destruct v as [| | | | |members]; try discriminate Hw.
  cbn [walkable] in Hw. cbn [at_path].
  destruct rest as [|k' rest'].
  - cbn [get_chain]. unfold get, get_or.
    destruct (dict_get k members); reflexivity.
  - change (get_chain (k :: k' :: rest') (JObj members))
      with (let* x := get_or (JObj members) k (JObj []) in get_chain (k' :: rest') x).
    unfold get_or, and_then.
    destruct (dict_get k members) as [x|].
    + apply IH; [discriminate|exact Hw].
    + apply get_chain_empty_dict. discriminate.
Qed.

Lemma get_chain_not_walkable (p : list string) :
  forall v, walkable p v = false -> get_chain p v = Raise AttributeError.
Proof.
  induction p as [|k rest IH]; intros v Hw; [discriminate Hw|].
  destruct v as [| | | | |members];
    try (destruct rest; reflexivity).
  cbn [walkable] in Hw.
  destruct (dict_get k members) as [x|] eqn:Hk; [|discriminate Hw].
  destruct rest as [|k' rest']; [discriminate Hw|].
  change (get_chain (k :: k' :: rest') (JObj members))
    with (let* x := get_or (JObj members) k (JObj []) in get_chain (k' :: rest') x).
  unfold get_or, and_then. rewrite Hk. apply IH, Hw.
Qed.

Lemma walkable_is_dict (k : string) (rest : list string) (v : json) :
  walkable (k :: rest) v = true -> exists members, v = JObj members.
Proof. destruct v; try discriminate; eauto. Qed.

Lemma get_at_path (k : string) (members : list (string * json)) :
  get (JObj members) k = Return (or_none (at_path [k] (JObj members))).
Proof. unfold get, get_or. cbn [at_path]. destruct (dict_get k members); reflexivity. Qed.

Lemma resolves_truthy (p : list string) (v : json) :
  resolves p v = if truthy (or_none (at_path p v)) then Some (or_none (at_path p v)) else None.
Proof. unfold resolves. destruct (at_path p v); reflexivity. Qed.

(** ** Run-id extraction *)

Lemma New_nested_run_id_chain (resp : json) :
  New_Validatoe_Inspiah.nested_run_id resp
  = get_chain ["EtfItemCollection"; "testRuns"; "TestRun"; "id"] resp.
Proof. reflexivity. Qed.

Lemma Inpire_nested_run_id_chain (resp : json) :
  validatorInpire.nested_run_id resp
  = get_chain ["EtfItemCollection"; "testRuns"; "TestRun"; "id"] resp.
Proof. reflexivity. Qed.

(** What the [or] chain of [start_test_run] yields on a payload whose
    first path can be walked: a non-empty value exactly when a path
    resolves, and then the value of the first such path. *)
Lemma New_find_run_id_spec (resp : json) :
  walkable ["EtfItemCollection"; "testRuns"; "TestRun"; "id"] resp = true ->
  exists x, New_Validatoe_Inspiah.find_run_id resp = Return x /\
            first_resolved run_id_paths resp = (if truthy x then Some x else None).
Proof.
  intros Hw. destruct (walkable_is_dict _ _ _ Hw) as [members ->].
  unfold New_Validatoe_Inspiah.find_run_id.
  rewrite New_nested_run_id_chain, get_chain_walkable by (discriminate || exact Hw).
  rewrite !get_at_path. unfold run_id_paths. cbn [first_resolved].
  rewrite !resolves_truthy. unfold or_.
  repeat match goal with
         | |- context [truthy ?v] => destruct (truthy v) eqn:?
         end; eexists; split; try reflexivity; try congruence;
    repeat match goal with H : truthy _ = _ |- _ => rewrite H end; reflexivity.
Qed.

Lemma Inpire_find_run_id_spec (resp : json) :
  walkable ["EtfItemCollection"; "testRuns"; "TestRun"; "id"] resp = true ->
  exists x, validatorInpire.find_run_id resp = Return x /\
            first_resolved run_id_paths resp = (if truthy x then Some x else None).
Proof.
  intros Hw. destruct (walkable_is_dict _ _ _ Hw) as [members ->].
  unfold validatorInpire.find_run_id.
  rewrite Inpire_nested_run_id_chain, get_chain_walkable by (discriminate || exact Hw).
  rewrite !get_at_path. unfold run_id_paths. cbn [first_resolved and_then].
  rewrite !resolves_truthy. unfold or_.
  repeat match goal with
         | |- context [truthy ?v] => destruct (truthy v) eqn:?
         end; cbn [negb]; eexists; split; try reflexivity; try congruence;
    repeat match goal with H : truthy _ = _ |- _ => rewrite H end; reflexivity.
Qed.

(** ** One answered request *)

Lemma send_answered (rq : request) (w : world) (ex : exchange)
    (rest : list exchange) (r : response) :
  service w = ex :: rest -> reply ex = Answered r ->
  send rq w = (Return r, served w rq ex rest).
Proof. intros Hs Hr. unfold send. rewrite Hs, Hr. reflexivity. Qed.

(** A request, [raise_for_status] and [r.json()] in a row, when the
    service answers with a decodable body and no error status. *)
Lemma fetch_json {A} (rq : request) (k : json -> M A) (w : world) (ex : exchange)
    (rest : list exchange) (r : response) (j : json) :
  service w = ex :: rest -> reply ex = Answered r ->
  is_error_status (status_code r) = false -> decoded r = Some j ->
  (r' <- send rq ;; raise_for_status r' ;; j' <- json_of r' ;; k j') w
  = k j (served w rq ex rest).
Proof.
  intros Hs Hr Hc Hj. unfold bind at 1. rewrite (send_answered _ _ _ _ _ Hs Hr).
  unfold bind at 1, raise_for_status. rewrite Hc. unfold ret.
  unfold bind at 1, json_of. rewrite Hj. reflexivity.
Qed.

(** C1, as amended: when the service answers the run-creation request
    with a payload that is a JSON object whose [EtfItemCollection],
    [testRuns] and [TestRun] members, where present, are objects, then
    [start_test_run] returns the value of the first of the three paths
    that resolves to a non-empty value, and raises [RuntimeError]
    (MissingIdentifier, with the payload in its message) when none does.
    This holds for both scripts. *)
Theorem start_test_run_first_resolved_id :
  forall (label : string) (ids : list string) (test_object : json)
         (w : world) (ex : exchange) (rest : list exchange)
         (r : response) (resp : json),
    service w = ex :: rest ->
    reply ex = Answered r ->
    is_error_status (status_code r) = false ->
    decoded r = Some resp ->
    walkable ["EtfItemCollection"; "testRuns"; "TestRun"; "id"] resp = true ->
    (forall g,
        fst (New_Validatoe_Inspiah.start_test_run g label ids test_object w)
        = match first_resolved run_id_paths resp with
          | Some i => Return i
          | None => Raise (RuntimeError "Could not find TestRun id in response: " resp)
          end) /\
    (forall g,
        fst (validatorInpire.start_test_run g label ids test_object w)
        = match first_resolved run_id_paths resp with
          | Some i => Return i
          | None => Raise (RuntimeError "Could not find test run id in response: " resp)
          end).
Proof.
  intros label ids test_object w ex rest r resp Hs Hr Hc Hj Hw. split; intros g.
  - unfold New_Validatoe_Inspiah.start_test_run, requests_post.
    rewrite (fetch_json _ _ _ _ _ _ _ Hs Hr Hc Hj).
    destruct (New_find_run_id_spec resp Hw) as (x & Hx & Hfirst).
    unfold bind, lift. rewrite Hx, Hfirst.
    destruct (truthy x); reflexivity.
  - unfold validatorInpire.start_test_run, requests_post.
    rewrite (fetch_json _ _ _ _ _ _ _ Hs Hr Hc Hj).
    destruct (Inpire_find_run_id_spec resp Hw) as (x & Hx & Hfirst).
    unfold bind, lift. rewrite Hx, Hfirst.
    destruct (truthy x); reflexivity.
Qed.

(** Worlds for the examples: the clock at 0, no file, nothing sent. *)
Definition fresh (answers : list exchange) : world :=
  {| now := 0; service := answers; sent := []; files := ∅ |}.

Definition answers_with (code : Z) (j : json) : exchange :=
  {| took := 0;
     reply := Answered {| status_code := code; content := EmptyString; decoded := Some j |} |}.

Definition scenario_A_payload : json :=
  JObj [("EtfItemCollection",
         JObj [("testRuns", JObj [("TestRun", JObj [("id", JStr "RUN1")])])])].

Lemma start_test_run_first_resolved_id_witness :
  fst (New_Validatoe_Inspiah.start_test_run New_Validatoe_Inspiah.settings
         "Suite A run" ["EID1"] (JObj [("id", JStr "EIDupload")])
         (fresh [answers_with 200 scenario_A_payload]))
  = Return (JStr "RUN1") /\
  fst (validatorInpire.start_test_run (validatorInpire.settings None)
         "Suite A run" ["EID1"] (JObj [("id", JStr "EIDupload")])
         (fresh [answers_with 200 scenario_A_payload]))
  = Return (JStr "RUN1").
Proof.
  destruct (start_test_run_first_resolved_id
              "Suite A run" ["EID1"] (JObj [("id", JStr "EIDupload")])
              (fresh [answers_with 200 scenario_A_payload])
              (answers_with 200 scenario_A_payload) []
              {| status_code := 200; content := EmptyString; decoded := Some scenario_A_payload |}
              scenario_A_payload
              eq_refl eq_refl eq_refl eq_refl eq_refl) as [HNew HInpire].
  split; [exact (HNew New_Validatoe_Inspiah.settings)
         |exact (HInpire (validatorInpire.settings None))].
Defined.

(** C1, as stated, fails: the payload
    [{"EtfItemCollection": null, "id": "RUN1"}] has the run id at the
    second path, and both scripts raise [AttributeError] on it. *)
Lemma start_test_run_null_collection :
  let resp := JObj [("EtfItemCollection", JNull); ("id", JStr "RUN1")] in
  first_resolved run_id_paths resp = Some (JStr "RUN1") /\
  fst (New_Validatoe_Inspiah.start_test_run New_Validatoe_Inspiah.settings
         "Suite A run" ["EID1"] (JObj [("id", JStr "EIDupload")])
         (fresh [answers_with 200 resp]))
  = Raise AttributeError /\
  fst (validatorInpire.start_test_run (validatorInpire.settings None)
         "Suite A run" ["EID1"] (JObj [("id", JStr "EIDupload")])
         (fresh [answers_with 200 resp]))
  = Raise AttributeError.
Proof. repeat split; vm_compute; reflexivity. Qed.

(** ** The run-creation request *)

(** C9: whatever the label, the suite ids and the test object, and
    whatever the service answers, [start_test_run] sends exactly one
    request: a POST to [{API}/TestRuns] whose body is [json.dumps] of an
    object with exactly the four members [label], [executableTestSuiteIds]
    (the ids given, in order), [arguments] (always
    [{"files_to_test": ".*", "tests_to_execute": ".*"}]) and [testObject]
    (the test object as it was passed in).  This holds for both scripts,
    which differ in the timeout of the call only. *)
Theorem start_test_run_request_body :
  forall (label : string) (ids : list string) (test_object : json) (w : world),
    let body :=
      JsonBody
        (JObj [("label", JStr label);
               ("executableTestSuiteIds", JArr (map JStr ids));
               ("arguments",
                JObj [("files_to_test", JStr ".*"); ("tests_to_execute", JStr ".*")]);
               ("testObject", test_object)]) in
    let headers := [("Content-Type", "application/json"); ("Accept", "application/json")] in
    (forall g,
        sent (snd (New_Validatoe_Inspiah.start_test_run g label ids test_object w))
        = sent w ++ [{| req_method := POST;
                        req_url := New_Validatoe_Inspiah.API g +:+ "/TestRuns";
                        req_headers := headers;
                        req_body := body;
                        req_timeout := Some 60%Z |}]) /\
    (forall g,
        sent (snd (validatorInpire.start_test_run g label ids test_object w))
        = sent w ++ [{| req_method := POST;
                        req_url := validatorInpire.API g +:+ "/TestRuns";
                        req_headers := headers;
                        req_body := body;
                        req_timeout := None |}]).
Proof.
  intros label ids test_object w body headers. split; intros g.
  - unfold New_Validatoe_Inspiah.start_test_run, requests_post, send, bind,
      raise_for_status, json_of, lift, raise, ret.
    repeat case_match; simplify_eq; reflexivity.
  - unfold validatorInpire.start_test_run, requests_post, send, bind,
      raise_for_status, json_of, lift, raise, ret.
    repeat case_match; simplify_eq; reflexivity.
Qed.

(* ================================================================== *)
(** * The poll loop *)
(* ================================================================== *)

(** Both scripts poll in the same way and differ in how a status is read
    off an answer and tested.  [loop] is that common shape: [observe]
    gives what one poll makes of one exchange, [check] is the test for a
    terminal status, [T] and [I] are the timeout and the interval. *)
Section PollLoop.

Variable rq : request.
Variable observe : exchange -> outcome json.
Variable check : json -> outcome bool.
Variables T I : Q.
Variable msg : string.

(** The interval is one that [time.sleep] accepts. *)
Hypothesis interval_accepted : 0 <= I.

Definition poll : M json :=
  fun w =>
    match service w with
    | [] => (Blocked, unanswered w rq)
    | ex :: rest => (observe ex, served w rq ex rest)
    end.

Fixpoint loop (fuel : nat) (start : Q) : M json :=
  match fuel with
  | O => lift Blocked
  | S fuel' =>
      status <- poll ;;
      done <- lift (check status) ;;
      if done : bool then ret status
      else
        t <- time_time ;;
        if negb (Qle_bool (t - start) T)
        then raise (TimeoutError msg)
        else time_sleep I ;; loop fuel' start
  end.

(** What one turn of the loop does with the next exchange. *)
Definition turn (fuel : nat) (start : Q) (w1 : world) (seen : outcome json)
  : outcome json * world :=
  match seen with
  | Return v =>
      match check v with
      | Return true => (Return v, w1)
      | Return false =>
          if negb (Qle_bool (now w1 - start) T)
          then (Raise (TimeoutError msg), w1)
          else loop fuel start (slept w1 I)
      | Raise e => (Raise e, w1)
      | Blocked => (Blocked, w1)
      end
  | Raise e => (Raise e, w1)
  | Blocked => (Blocked, w1)
  end.

Lemma loop_step (fuel : nat) (start : Q) (w : world) (ex : exchange) (rest : list exchange) :
  service w = ex :: rest ->
  loop (S fuel) start w = turn fuel start (served w rq ex rest) (observe ex).
Proof.
  intros Hs. cbn [loop]. unfold bind at 1, poll. rewrite Hs. unfold turn.
  destruct (observe ex) as [v|e|]; [|reflexivity..].
  unfold bind at 1, lift.
  destruct (check v) as [[|]|e|]; try reflexivity.
  unfold bind at 1, time_time.
  destruct (negb (Qle_bool (now (served w rq ex rest) - start) T)); [reflexivity|].
  unfold bind, time_sleep.
  apply Qle_bool_iff in interval_accepted. rewrite interval_accepted. reflexivity.
Qed.

Lemma loop_blocked (fuel : nat) (start : Q) (w : world) :
  service w = [] -> fst (loop fuel start w) = Blocked.
Proof.
  intros Hs. destruct fuel; [reflexivity|].
  cbn [loop]. unfold bind at 1, poll. rewrite Hs. reflexivity.
Qed.

(** More fuel than answers left is as good as any. *)
Lemma loop_fuel (fuel : nat) :
  forall (fuel' : nat) (start : Q) (w : world),
    (length (service w) < fuel)%nat -> (length (service w) < fuel')%nat ->
    fst (loop fuel start w) = fst (loop fuel' start w).
Proof.
  induction fuel as [|fuel IH]; intros fuel' start w Hf Hf'; [lia|].
  destruct fuel' as [|fuel']; [lia|].
  destruct (service w) as [|ex rest] eqn:Hs.
  - rewrite !loop_blocked by exact Hs. reflexivity.
  - rewrite !(loop_step _ _ _ _ _ Hs). unfold turn.
    destruct (observe ex) as [v|e|]; [|reflexivity..].
    destruct (check v) as [[|]|e|]; try reflexivity.
    destruct (negb (Qle_bool _ T)); [reflexivity|].
    apply IH; cbn [slept served service length] in *; lia.
Qed.

(** *** Every outcome of the loop *)

Definition accounted (w : world) (o : outcome json) : Prop :=
  match o with
  | Return v =>
      check v = Return true /\ exists ex, In ex (service w) /\ observe ex = Return v
  | Raise e =>
      e = TimeoutError msg \/
      (exists ex, In ex (service w) /\ observe ex = Raise e) \/
      (exists ex v, In ex (service w) /\ observe ex = Return v /\ check v = Raise e)
  | Blocked => True
  end.

Lemma accounted_later (w w' : world) (ex : exchange) (o : outcome json) :
  service w = ex :: service w' -> accounted w' o -> accounted w o.
Proof.
  intros Hs. unfold accounted. rewrite Hs.
  destruct o as [v|e|]; [| |trivial].
  - intros [Hc (ex' & Hin & Ho)]. split; [exact Hc|]. exists ex'. split; [right|]; assumption.
  - intros [H|[(ex' & Hin & Ho)|(ex' & v & Hin & Ho & Hc)]]; [left; exact H| |].
    + right; left. exists ex'. split; [right|]; assumption.
    + right; right. exists ex', v. split; [right; exact Hin|]. split; assumption.
Qed.

Lemma loop_accounted (fuel : nat) :
  forall (start : Q) (w : world), accounted w (fst (loop fuel start w)).
Proof.
  induction fuel as [|fuel IH]; intros start w; [exact Logic.I|].
  destruct (service w) as [|ex rest] eqn:Hs.
  - rewrite loop_blocked by exact Hs. exact Logic.I.
  - rewrite (loop_step _ _ _ _ _ Hs). unfold turn.
    destruct (observe ex) as [v|e|] eqn:Ho; cbn [fst accounted]; [| |trivial].
    + destruct (check v) as [[|]|e|] eqn:Hc; cbn [fst accounted]; [| | |trivial].
      * split; [exact Hc|]. exists ex. rewrite Hs. split; [left; reflexivity|exact Ho].
      * destruct (negb (Qle_bool _ T)); cbn [fst accounted]; [left; reflexivity|].
        apply (accounted_later w (slept (served w rq ex rest) I) ex); [exact Hs|apply IH].
      * right; right. exists ex, v. rewrite Hs. split; [left; reflexivity|]. split; assumption.
    + right; left. exists ex. rewrite Hs. split; [left; reflexivity|exact Ho].
Qed.

(** *** The polls behind a timeout *)

Fixpoint total_took (polled : list exchange) : Q :=
  match polled with
  | [] => 0
  | ex :: rest => took ex + total_took rest
  end.

Definition laps (n : nat) : Q := inject_Z (Z.of_nat n).

Lemma laps_S (n : nat) : laps (S n) == laps n + 1.
Proof.
  unfold laps. rewrite Nat2Z.inj_succ. unfold Z.succ.
  rewrite inject_Z_plus. reflexivity.
Qed.

(** A poll that saw a status and found it not terminal. *)
Definition unfinished (ex : exchange) : Prop :=
  exists v, observe ex = Return v /\ check v = Return false.

Hypothesis observe_no_timeout : forall ex m, observe ex <> Raise (TimeoutError m).
Hypothesis check_no_timeout : forall v m, check v <> Raise (TimeoutError m).

Lemma over_time (a : Q) : negb (Qle_bool a T) = true -> T < a.
Proof.
  intros H. apply Qnot_le_lt. intros Hle.
  apply Qle_bool_iff in Hle. rewrite Hle in H. discriminate H.
Qed.

Lemma in_time (a : Q) : a <= T -> negb (Qle_bool a T) = false.
Proof. intros H. apply Qle_bool_iff in H. rewrite H. reflexivity. Qed.

Lemma loop_timeout (fuel : nat) :
  forall (start : Q) (w w' : world) (m : string),
    loop fuel start w = (Raise (TimeoutError m), w') ->
    exists polled,
      service w = polled ++ service w' /\
      Forall unfinished polled /\
      sent w' = sent w ++ repeat rq (length polled) /\
      files w' = files w /\
      now w' + I == now w + total_took polled + laps (length polled) * I /\
      T < now w' - start /\ m = msg /\ polled <> [].
Proof.
  induction fuel as [|fuel IH]; intros start w w' m H; [discriminate H|].
  destruct (service w) as [|ex rest] eqn:Hs.
  - apply (f_equal fst) in H. rewrite loop_blocked in H by exact Hs. discriminate H.
  - rewrite (loop_step _ _ _ _ _ Hs) in H. unfold turn in H.
    destruct (observe ex) as [v|e|] eqn:Ho.
    + destruct (check v) as [[|]|e|] eqn:Hc; try discriminate H.
      * destruct (negb (Qle_bool (now (served w rq ex rest) - start) T)) eqn:Hq.
        -- injection H as Hm Hw. subst w' m. exists [ex].
           cbn [served service sent files now app length repeat total_took].
           split_and!.
           ++ reflexivity.
           ++ constructor; [exists v; split; assumption|constructor].
           ++ reflexivity.
           ++ reflexivity.
           ++ change (laps 1) with 1. lra.
           ++ apply over_time in Hq. exact Hq.
           ++ reflexivity.
           ++ discriminate.
        -- apply IH in H.
           destruct H as (polled & Hserv & Hall & Hsent & Hfiles & Hnow & Hover & Hm & _).
           exists (ex :: polled).
           cbn [slept served service sent files now] in *.
           split_and!.
           ++ rewrite Hserv. reflexivity.
           ++ constructor; [exists v; split; assumption|exact Hall].
           ++ rewrite Hsent. cbn [length repeat]. rewrite <- app_assoc. reflexivity.
           ++ exact Hfiles.
           ++ cbn [total_took length]. rewrite laps_S. lra.
           ++ exact Hover.
           ++ exact Hm.
           ++ discriminate.
      * injection H as He _. subst e. exfalso. exact (check_no_timeout _ _ Hc).
    + injection H as He _. subst e. exfalso. exact (observe_no_timeout _ _ Ho).
    + discriminate H.
Qed.

Lemma total_took_bound (d : Q) (polled : list exchange) :
  Forall (fun ex => took ex <= d) polled ->
  total_took polled <= laps (length polled) * d.
Proof.
  induction 1 as [|ex rest Hex _ IH]; cbn [total_took length].
  - change (laps 0) with 0. lra.
  - rewrite laps_S. lra.
Qed.

(** With polls that last at most [d] seconds each, a timeout comes only
    after [ceil (T / (I + d))] polls or more. *)
Lemma polls_before_timeout (d : Q) (polled : list exchange) (elapsed : Q) :
  0 < I -> 0 <= d ->
  Forall (fun ex => took ex <= d) polled ->
  elapsed + I == total_took polled + laps (length polled) * I ->
  T < elapsed ->
  (Qceiling (T / (I + d)) <= Z.of_nat (length polled))%Z.
Proof.
  intros HI Hd Hall Hel Hover.
  pose proof (total_took_bound d polled Hall) as Hb.
  rewrite <- (Qceiling_Z (Z.of_nat (length polled))).
  apply Qceiling_resp_le. fold (laps (length polled)).
  apply Qle_shift_div_r; [lra|].
  set (n := laps (length polled)) in *.
  assert (Hn : n * (I + d) == n * I + n * d) by ring.
  rewrite Hn. lra.
Qed.

(** *** Reaching a terminal status *)

(** The polls of [pre] all come back within the timeout, the first of
    them [elapsed] seconds after the start. *)
Fixpoint patient (elapsed : Q) (pre : list exchange) : Prop :=
  match pre with
  | [] => True
  | ex :: rest => elapsed + took ex <= T /\ patient (elapsed + took ex + I) rest
  end.

Lemma patient_eq (pre : list exchange) :
  forall a b, a == b -> patient a pre -> patient b pre.
Proof.
  induction pre as [|ex rest IH]; intros a b Hab; [trivial|].
  cbn [patient]. intros [H1 H2]. split; [lra|].
  apply (IH (a + took ex + I)); [lra|exact H2].
Qed.

Lemma loop_reaches (pre : list exchange) :
  forall (fuel : nat) (start : Q) (w : world) (ex : exchange)
         (rest : list exchange) (v : json),
    service w = pre ++ ex :: rest ->
    (length pre < fuel)%nat ->
    Forall unfinished pre ->
    patient (now w - start) pre ->
    observe ex = Return v ->
    check v = Return true ->
    exists w',
      loop fuel start w = (Return v, w') /\
      service w' = rest /\
      sent w' = sent w ++ repeat rq (S (length pre)) /\
      files w' = files w.
Proof.
  induction pre as [|p pre IH]; intros fuel start w ex rest v Hs Hf Hall Hp Ho Hc;
    (destruct fuel as [|fuel]; [cbn [length] in Hf; lia|]).
  - rewrite (loop_step _ _ _ _ _ Hs). unfold turn. rewrite Ho, Hc.
    eexists. split; [reflexivity|]. cbn. repeat split.
  - cbn [app] in Hs. rewrite (loop_step _ _ _ _ _ Hs). unfold turn.
    inversion Hall as [|? ? (v0 & Ho0 & Hc0) Hall']; subst.
    rewrite Ho0, Hc0. destruct Hp as [Hp1 Hp2].
    rewrite in_time by (cbn [served now]; lra).
    destruct (IH fuel start (slept (served w rq p (pre ++ ex :: rest)) I) ex rest v)
      as (w' & Hl & Hserv & Hsent & Hfiles); try assumption.
    + reflexivity.
    + cbn [length] in Hf. lia.
    + apply (patient_eq pre (now w - start + took p + I)); [cbn; lra|exact Hp2].
    + exists w'. split; [exact Hl|]. split; [exact Hserv|].
      cbn [slept served sent files] in Hsent, Hfiles. split; [|exact Hfiles].
      rewrite Hsent. cbn [length repeat]. rewrite <- app_assoc. reflexivity.
Qed.

End PollLoop.

(** ** The two scripts as instances of the loop *)

(** A status request, [raise_for_status] and [r.json()], read off one
    exchange. *)
Definition answered_json (ex : exchange) : outcome json :=
  match reply ex with
  | Broken => Raise RequestException
  | Answered r =>
      if is_error_status (status_code r) then Raise (HTTPError (status_code r))
      else match decoded r with
           | Some js => Return js
           | None => Raise JSONDecodeError
           end
  end.

Lemma fetch_json_poll (rq : request) (w : world) :
  (r <- send rq ;; raise_for_status r ;; json_of r) w = poll rq answered_json w.
Proof.
  unfold bind, send, poll, answered_json, raise_for_status, json_of, raise, ret.
  destruct (service w) as [|ex rest]; [reflexivity|].
  destruct (reply ex) as [r|]; [|reflexivity].
  destruct (is_error_status (status_code r)); [reflexivity|].
  destruct (decoded r); reflexivity.
Qed.

Lemma poll_and_then (rq : request) (f : exchange -> outcome json)
    (k : json -> outcome json) (w : world) :
  (j <- poll rq f ;; lift (k j)) w = poll rq (fun ex => let* j := f ex in k j) w.
Proof.
  unfold bind, poll, lift, and_then.
  destruct (service w) as [|ex rest]; [reflexivity|].
  destruct (f ex); reflexivity.
Qed.

Definition New_status_request (g : New_Validatoe_Inspiah.globals) (run_id : json) : request :=
  {| req_method := GET;
     req_url := New_Validatoe_Inspiah.API g +:+ "/TestRuns/" +:+ py_str run_id +:+ ".json";
     req_headers := [("Accept", "application/json")];
     req_body := NoBody;
     req_timeout := Some 60%Z |}.

Definition New_observe (ex : exchange) : outcome json :=
  let* js := answered_json ex in New_Validatoe_Inspiah.status_of js.

Definition New_check (status : json) : outcome bool :=
  let* up := str_upper status in Return (New_Validatoe_Inspiah.is_terminal up).

Definition New_loop (g : New_Validatoe_Inspiah.globals) (run_id : json) :=
  loop (New_status_request g run_id) New_observe New_check
    (New_Validatoe_Inspiah.POLL_TIMEOUT g) (New_Validatoe_Inspiah.POLL_EVERY g)
    "Timeout waiting for the test run to finish.".

Lemma New_get_status_poll (g : New_Validatoe_Inspiah.globals) (run_id : json) (w : world) :
  New_Validatoe_Inspiah.get_test_run_status g run_id w
  = poll (New_status_request g run_id) New_observe w.
Proof.
  unfold New_Validatoe_Inspiah.get_test_run_status, requests_get.
  fold (New_status_request g run_id).
  unfold New_observe. rewrite <- poll_and_then.
  unfold bind at 4. rewrite <- fetch_json_poll.
  unfold bind. destruct (send _ w) as [[r| |] w1]; [|reflexivity..].
  destruct (raise_for_status r w1) as [[[]| |] w2]; [|reflexivity..].
  destruct (json_of r w2) as [[js| |] w3]; reflexivity.
Qed.

Lemma New_wait_loop_loop (g : New_Validatoe_Inspiah.globals) (run_id : json) (fuel : nat) :
  forall (start : Q) (w : world),
    New_Validatoe_Inspiah.wait_loop fuel g run_id start w = New_loop g run_id fuel start w.
Proof.
  unfold New_loop.
  induction fuel as [|fuel IH]; intros start w; [reflexivity|].
  cbn [New_Validatoe_Inspiah.wait_loop loop]. unfold bind.
  rewrite New_get_status_poll.
  destruct (poll _ New_observe w) as [[v| |] w1]; [|reflexivity..].
  unfold lift, New_check, and_then.
  destruct (str_upper v) as [up| |]; [|reflexivity..].
  destruct (New_Validatoe_Inspiah.is_terminal up); [reflexivity|].
  unfold time_time.
  destruct (negb (Qle_bool _ _)); [reflexivity|].
  unfold time_sleep. destruct (Qle_bool 0 _); [apply IH|reflexivity].
Qed.

Definition Inpire_status_request (g : validatorInpire.globals) (test_run_id : json) : request :=
  {| req_method := GET;
     req_url := validatorInpire.API g +:+ "/TestRuns/" +:+ py_str test_run_id +:+ ".json";
     req_headers := [("Accept", "application/json")];
     req_body := NoBody;
     req_timeout := None |}.

Definition Inpire_observe (ex : exchange) : outcome json :=
  let* js := answered_json ex in validatorInpire.status_of js.

Definition Inpire_loop (g : validatorInpire.globals) (test_run_id : json) :=
  loop (Inpire_status_request g test_run_id) Inpire_observe validatorInpire.finished
    (validatorInpire.POLL_TIMEOUT g) (validatorInpire.POLL_EVERY g)
    "Gave up waiting for the test run.".

Lemma Inpire_get_status_poll (g : validatorInpire.globals) (test_run_id : json) (w : world) :
  validatorInpire.get_test_run_status g test_run_id w
  = poll (Inpire_status_request g test_run_id) answered_json w.
Proof.
  unfold validatorInpire.get_test_run_status, requests_get.
  fold (Inpire_status_request g test_run_id). apply fetch_json_poll.
Qed.

Lemma Inpire_wait_loop_loop (g : validatorInpire.globals) (test_run_id : json) (fuel : nat) :
  forall (start : Q) (w : world),
    validatorInpire.wait_loop fuel g test_run_id start w
    = Inpire_loop g test_run_id fuel start w.
Proof.
  unfold Inpire_loop.
  induction fuel as [|fuel IH]; intros start w; [reflexivity|].
  cbn [validatorInpire.wait_loop loop]. unfold bind.
  rewrite Inpire_get_status_poll. unfold poll, Inpire_observe, and_then.
  destruct (service w) as [|ex rest]; [reflexivity|].
  destruct (answered_json ex) as [js| |]; [|reflexivity..].
  unfold lift.
  destruct (validatorInpire.status_of js) as [status| |]; [|reflexivity..].
  destruct (validatorInpire.finished status) as [[|]| |]; try reflexivity.
  unfold time_time.
  destruct (negb (Qle_bool _ _)); [reflexivity|].
  unfold time_sleep. destruct (Qle_bool 0 _); [apply IH|reflexivity].
Qed.

(** ** Status extraction *)

(** With a reply that can be walked along [TestRun.status] and
    [EtfItem.status], the status is the value of the first path that
    resolves, and the string [UNKNOWN] when none does. *)
Lemma New_status_of_spec (js : json) :
  walkable ["TestRun"; "status"] js = true ->
  walkable ["EtfItem"; "status"] js = true ->
  New_Validatoe_Inspiah.status_of js
  = Return (match first_resolved status_paths js with
            | Some s => s
            | None => JStr "UNKNOWN"
            end).
Proof.
  intros H1 H3. destruct (walkable_is_dict _ _ _ H1) as [members ->].
  unfold New_Validatoe_Inspiah.status_of.
  change (let* t := get_or (JObj members) "TestRun" (JObj []) in get t "status")
    with (get_chain ["TestRun"; "status"] (JObj members)).
  change (let* t := get_or (JObj members) "EtfItem" (JObj []) in get t "status")
    with (get_chain ["EtfItem"; "status"] (JObj members)).
  rewrite !get_chain_walkable by (discriminate || assumption).
  rewrite get_at_path. unfold status_paths. cbn [first_resolved].
  rewrite !resolves_truthy. unfold or_.
  repeat match goal with
         | |- context [truthy ?v] => destruct (truthy v) eqn:?
         end; reflexivity.
Qed.

(** The other script has no sentinel: without a resolving path the status
    is an empty value, [None] as a rule. *)
Lemma Inpire_status_of_spec (js : json) :
  walkable ["TestRun"; "status"] js = true ->
  walkable ["EtfItem"; "status"] js = true ->
  exists x, validatorInpire.status_of js = Return x /\
            first_resolved status_paths js = (if truthy x then Some x else None).
Proof.
  intros H1 H3. destruct (walkable_is_dict _ _ _ H1) as [members ->].
  unfold validatorInpire.status_of.
  change (let* t := get_or (JObj members) "TestRun" (JObj []) in get t "status")
    with (get_chain ["TestRun"; "status"] (JObj members)).
  change (let* t := get_or (JObj members) "EtfItem" (JObj []) in get t "status")
    with (get_chain ["EtfItem"; "status"] (JObj members)).
  rewrite !get_chain_walkable by (discriminate || assumption).
  rewrite get_at_path. unfold status_paths. cbn [first_resolved].
  rewrite !resolves_truthy. unfold or_.
  repeat match goal with
         | |- context [truthy ?v] => destruct (truthy v) eqn:?
         end; eexists; split; try reflexivity;
    repeat match goal with H : truthy _ = _ |- _ => rewrite H end; reflexivity.
Qed.

(** A reply of the expected shape: it can be walked along both nested
    paths, and the status it carries, if any, is a string. *)
Definition status_shaped (js : json) : bool :=
  walkable ["TestRun"; "status"] js && walkable ["EtfItem"; "status"] js &&
  match first_resolved status_paths js with
  | Some (JStr _) | None => true
  | Some _ => false
  end.

Lemma or_raises (a b : outcome json) (e : exn) :
  or_ a b = Raise e -> a = Raise e \/ b = Raise e.
Proof. unfold or_. destruct a as [x| |]; [destruct (truthy x)|..]; intros H; (discriminate H || auto). Qed.

Lemma get_chain_raises (p : list string) (v : json) (e : exn) :
  get_chain p v = Raise e -> e = AttributeError /\ walkable p v = false.
Proof.
  intros H. destruct (walkable p v) eqn:Hw.
  - destruct p as [|k rest]; [discriminate H|].
    rewrite get_chain_walkable in H by (discriminate || assumption). discriminate H.
  - rewrite get_chain_not_walkable in H by assumption. split; congruence.
Qed.

Lemma walkable_top (k : string) (rest : list string) (k' : string) (v : json) :
  walkable [k'] v = false -> walkable (k :: rest) v = false.
Proof. destruct v; try reflexivity. cbn. destruct (dict_get k' members); discriminate. Qed.

Lemma New_status_of_raises (js : json) (e : exn) :
  New_Validatoe_Inspiah.status_of js = Raise e ->
  e = AttributeError /\ status_shaped js = false.
Proof.
  unfold New_Validatoe_Inspiah.status_of, status_shaped.
  change (let* t := get_or js "TestRun" (JObj []) in get t "status")
    with (get_chain ["TestRun"; "status"] js).
  change (let* t := get_or js "EtfItem" (JObj []) in get t "status")
    with (get_chain ["EtfItem"; "status"] js).
  change (get js "status") with (get_chain ["status"] js).
  intros H.
  apply or_raises in H as [H|H]; [|apply or_raises in H as [H|H];
                                   [|apply or_raises in H as [H|H]; [|discriminate H]]];
    apply get_chain_raises in H as [-> Hw]; (split; [reflexivity|]).
  - rewrite Hw. reflexivity.
  - rewrite (walkable_top "TestRun" ["status"] "status" js Hw). reflexivity.
  - rewrite Hw, andb_false_r. reflexivity.
Qed.

Lemma Inpire_status_of_raises (js : json) (e : exn) :
  validatorInpire.status_of js = Raise e ->
  e = AttributeError /\ status_shaped js = false.
Proof.
  unfold validatorInpire.status_of, status_shaped.
  change (let* t := get_or js "TestRun" (JObj []) in get t "status")
    with (get_chain ["TestRun"; "status"] js).
  change (let* t := get_or js "EtfItem" (JObj []) in get t "status")
    with (get_chain ["EtfItem"; "status"] js).
  change (get js "status") with (get_chain ["status"] js).
  intros H.
  apply or_raises in H as [H|H]; [|apply or_raises in H as [H|H]];
    apply get_chain_raises in H as [-> Hw]; (split; [reflexivity|]).
  - rewrite Hw. reflexivity.
  - rewrite (walkable_top "TestRun" ["status"] "status" js Hw). reflexivity.
  - rewrite Hw, andb_false_r. reflexivity.
Qed.

(** ** One turn of [wait_until_finished] *)

(** What follows a poll that did not end the loop: the timeout check,
    then the sleep and the next turn. *)
Definition New_next (g : New_Validatoe_Inspiah.globals) (run_id : json)
    (fuel : nat) (start : Q) (w1 : world) : outcome json * world :=
  if negb (Qle_bool (now w1 - start) (New_Validatoe_Inspiah.POLL_TIMEOUT g))
  then (Raise (TimeoutError "Timeout waiting for the test run to finish."), w1)
  else (time_sleep (New_Validatoe_Inspiah.POLL_EVERY g) ;;
        New_Validatoe_Inspiah.wait_loop fuel g run_id start) w1.

Definition Inpire_next (g : validatorInpire.globals) (test_run_id : json)
    (fuel : nat) (start : Q) (w1 : world) : outcome json * world :=
  if negb (Qle_bool (now w1 - start) (validatorInpire.POLL_TIMEOUT g))
  then (Raise (TimeoutError "Gave up waiting for the test run."), w1)
  else (time_sleep (validatorInpire.POLL_EVERY g) ;;
        validatorInpire.wait_loop fuel g test_run_id start) w1.

Lemma answered_json_ok (ex : exchange) (r : response) (js : json) :
  reply ex = Answered r -> is_error_status (status_code r) = false ->
  decoded r = Some js -> answered_json ex = Return js.
Proof. intros Hr Hc Hj. unfold answered_json. rewrite Hr, Hc, Hj. reflexivity. Qed.

Lemma New_turn_string (g : New_Validatoe_Inspiah.globals) (run_id : json)
    (fuel : nat) (start : Q) (w : world) (ex : exchange) (rest : list exchange)
    (s : string) :
  service w = ex :: rest ->
  New_observe ex = Return (JStr s) ->
  New_Validatoe_Inspiah.wait_loop (S fuel) g run_id start w
  = if New_Validatoe_Inspiah.is_terminal (upper s)
    then (Return (JStr s), served w (New_status_request g run_id) ex rest)
    else New_next g run_id fuel start (served w (New_status_request g run_id) ex rest).
Proof.
  intros Hs Ho. cbn [New_Validatoe_Inspiah.wait_loop]. unfold bind at 1.
  rewrite New_get_status_poll. unfold poll. rewrite Hs, Ho.
  unfold bind at 1. unfold lift, str_upper.
  destruct (New_Validatoe_Inspiah.is_terminal (upper s)); [reflexivity|].
  unfold New_next. unfold bind at 1. unfold time_time.
  destruct (negb (Qle_bool _ _)); reflexivity.
Qed.

Lemma Inpire_turn (g : validatorInpire.globals) (test_run_id : json)
    (fuel : nat) (start : Q) (w : world) (ex : exchange) (rest : list exchange)
    (v : json) (done : bool) :
  service w = ex :: rest ->
  Inpire_observe ex = Return v ->
  validatorInpire.finished v = Return done ->
  validatorInpire.wait_loop (S fuel) g test_run_id start w
  = if done
    then (Return v, served w (Inpire_status_request g test_run_id) ex rest)
    else Inpire_next g test_run_id fuel start
           (served w (Inpire_status_request g test_run_id) ex rest).
Proof.
  intros Hs Ho Hd. cbn [validatorInpire.wait_loop]. unfold bind at 1.
  rewrite Inpire_get_status_poll. unfold poll. rewrite Hs.
  unfold Inpire_observe, and_then in Ho.
  destruct (answered_json ex) as [js| |]; try discriminate Ho.
  unfold bind at 1. unfold lift at 1. rewrite Ho.
  unfold bind at 1. unfold lift at 1. rewrite Hd.
  destruct done; [reflexivity|].
  unfold Inpire_next. unfold bind at 1. unfold time_time.
  destruct (negb (Qle_bool _ _)); reflexivity.
Qed.

Lemma Inpire_turn_string (g : validatorInpire.globals) (test_run_id : json)
    (fuel : nat) (start : Q) (w : world) (ex : exchange) (rest : list exchange)
    (s : string) :
  service w = ex :: rest ->
  Inpire_observe ex = Return (JStr s) ->
  validatorInpire.wait_loop (S fuel) g test_run_id start w
  = if validatorInpire.is_terminal (upper s)
    then (Return (JStr s), served w (Inpire_status_request g test_run_id) ex rest)
    else Inpire_next g test_run_id fuel start
           (served w (Inpire_status_request g test_run_id) ex rest).
Proof.
  intros Hs Ho.
  apply (Inpire_turn g test_run_id fuel start w ex rest (JStr s) _ Hs Ho).
  destruct s as [|c s']; reflexivity.
Qed.

Lemma Inpire_turn_empty (g : validatorInpire.globals) (test_run_id : json)
    (fuel : nat) (start : Q) (w : world) (ex : exchange) (rest : list exchange)
    (v : json) :
  service w = ex :: rest ->
  Inpire_observe ex = Return v ->
  truthy v = false ->
  validatorInpire.wait_loop (S fuel) g test_run_id start w
  = Inpire_next g test_run_id fuel start
      (served w (Inpire_status_request g test_run_id) ex rest).
Proof.
  intros Hs Ho Hv.
  apply (Inpire_turn g test_run_id fuel start w ex rest v false Hs Ho).
  unfold validatorInpire.finished. rewrite Hv. reflexivity.
Qed.

Lemma is_terminal_iff (up : string) :
  New_Validatoe_Inspiah.is_terminal up = true <-> up = "COMPLETED" \/ up = "FAILED".
Proof.
  unfold New_Validatoe_Inspiah.is_terminal. rewrite orb_true_iff, !String.eqb_eq. tauto.
Qed.

Lemma is_terminal_same (up : string) :
  validatorInpire.is_terminal up = New_Validatoe_Inspiah.is_terminal up.
Proof. reflexivity. Qed.

(** What [str.upper] does, said without it: the uppercased form of a
    string is a given word of capital letters exactly when the string
    reads as that word, the case of its letters aside. *)
Definition all_ascii : list ascii := map ascii_of_nat (seq 0 256).

Lemma in_all_ascii (c : ascii) : List.In c all_ascii.
Proof.
  rewrite <- (ascii_nat_embedding c). apply List.in_map, List.in_seq.
  split; [apply Nat.le_0_l|apply nat_ascii_bounded].
Qed.

Definition upper_agrees (a b : ascii) : bool :=
  implb (capital (N_of_ascii b)) (Bool.eqb (Ascii.eqb (upper_ascii a) b) (same_letter a b)).

Lemma upper_agrees_everywhere :
  forallb (fun a => forallb (upper_agrees a) all_ascii) all_ascii = true.
Proof. vm_compute. reflexivity. Qed.

Lemma upper_ascii_same_letter (a b : ascii) :
  capital (N_of_ascii b) = true ->
  (upper_ascii a = b <-> same_letter a b = true).
Proof.
  intros Hb.
  pose proof (proj1 (List.forallb_forall _ _) upper_agrees_everywhere a (in_all_ascii a)) as H.
  pose proof (proj1 (List.forallb_forall _ _) H b (in_all_ascii b)) as Hab.
  unfold upper_agrees in Hab. rewrite Hb in Hab. cbn [implb] in Hab.
  apply Bool.eqb_prop in Hab. rewrite <- Hab. apply iff_sym, Ascii.eqb_eq.
Qed.

Fixpoint capitals (t : string) : bool :=
  match t with
  | EmptyString => true
  | String b t' => capital (N_of_ascii b) && capitals t'
  end.

Lemma upper_reads_as (t : string) :
  capitals t = true -> forall s, upper s = t <-> reads_as s t = true.
Proof.
  induction t as [|b t' IH]; intros Ht s.
  - destruct s as [|a s']; cbn; [tauto|]. split; discriminate.
  - cbn [capitals] in Ht. apply andb_true_iff in Ht as [Hb Ht'].
    destruct s as [|a s']; cbn [upper reads_as]; [split; discriminate|].
    rewrite andb_true_iff, <- (IH Ht' s'), <- (upper_ascii_same_letter a b Hb).
    split; [intros H; injection H as H1 H2; auto|intros [-> ->]; reflexivity].
Qed.

Lemma is_terminal_reads_as (s : string) :
  New_Validatoe_Inspiah.is_terminal (upper s)
  = reads_as s "COMPLETED" || reads_as s "FAILED".
Proof.
  apply eq_true_iff_eq. rewrite is_terminal_iff, orb_true_iff.
  rewrite (upper_reads_as "COMPLETED" eq_refl s), (upper_reads_as "FAILED" eq_refl s).
  reflexivity.
Qed.

(** C10: terminal-status detection is case-insensitive and keeps the
    string as it came.  When a poll reads the status string [s] off the
    answer, then in both scripts the turn of the loop returns [s] itself,
    not its uppercased form, if [s] reads as [COMPLETED] or as [FAILED],
    the case of its letters aside ([completed], [Failed], [fAiLeD]); for
    every other string of ASCII text the turn does not return: the loop
    goes on to its timeout check and, within the timeout, sleeps and
    polls again. *)
Theorem terminal_status_case_insensitive :
  forall (s : string) (w : world) (ex : exchange) (rest : list exchange)
         (r : response) (js : json) (fuel : nat) (start : Q),
    service w = ex :: rest ->
    reply ex = Answered r ->
    is_error_status (status_code r) = false ->
    decoded r = Some js ->
    (forall g run_id,
        New_Validatoe_Inspiah.status_of js = Return (JStr s) ->
        let w1 := served w (New_status_request g run_id) ex rest in
        (reads_as s "COMPLETED" = true \/ reads_as s "FAILED" = true ->
         New_Validatoe_Inspiah.wait_loop (S fuel) g run_id start w = (Return (JStr s), w1)) /\
        (ascii_text s = true ->
         reads_as s "COMPLETED" = false -> reads_as s "FAILED" = false ->
         New_Validatoe_Inspiah.wait_loop (S fuel) g run_id start w
         = New_next g run_id fuel start w1)) /\
    (forall g test_run_id,
        validatorInpire.status_of js = Return (JStr s) ->
        let w1 := served w (Inpire_status_request g test_run_id) ex rest in
        (reads_as s "COMPLETED" = true \/ reads_as s "FAILED" = true ->
         validatorInpire.wait_loop (S fuel) g test_run_id start w = (Return (JStr s), w1)) /\
        (ascii_text s = true ->
         reads_as s "COMPLETED" = false -> reads_as s "FAILED" = false ->
         validatorInpire.wait_loop (S fuel) g test_run_id start w
         = Inpire_next g test_run_id fuel start w1)).
Proof.
  intros s w ex rest r js fuel start Hs Hr Hc Hj.
  pose proof (answered_json_ok ex r js Hr Hc Hj) as Ha.
  split.
  - intros g run_id Hst w1.
    assert (Ho : New_observe ex = Return (JStr s))
      by (unfold New_observe; rewrite Ha; exact Hst).
    pose proof (New_turn_string g run_id fuel start w ex rest s Hs Ho) as Hturn.
    fold w1 in Hturn. rewrite is_terminal_reads_as in Hturn. split.
    + intros Hterm. apply orb_true_iff in Hterm. rewrite Hterm in Hturn. exact Hturn.
    + intros _ H1 H2. rewrite H1, H2 in Hturn. exact Hturn.
  - intros g test_run_id Hst w1.
    assert (Ho : Inpire_observe ex = Return (JStr s))
      by (unfold Inpire_observe; rewrite Ha; exact Hst).
    pose proof (Inpire_turn_string g test_run_id fuel start w ex rest s Hs Ho) as Hturn.
    fold w1 in Hturn. rewrite is_terminal_same, is_terminal_reads_as in Hturn. split.
    + intros Hterm. apply orb_true_iff in Hterm. rewrite Hterm in Hturn. exact Hturn.
    + intros _ H1 H2. rewrite H1, H2 in Hturn. exact Hturn.
Qed.

Lemma terminal_status_case_insensitive_witness :
  fst (New_Validatoe_Inspiah.wait_loop 1 New_Validatoe_Inspiah.settings (JStr "RUN1") 0
         (fresh [answers_with 200 (JObj [("status", JStr "completed")])]))
  = Return (JStr "completed") /\
  fst (validatorInpire.wait_loop 1 (validatorInpire.settings None) (JStr "RUN1") 0
         (fresh [answers_with 200 (JObj [("TestRun", JObj [("status", JStr "Failed")])])]))
  = Return (JStr "Failed") /\
  New_Validatoe_Inspiah.wait_loop 1 New_Validatoe_Inspiah.settings (JStr "RUN1") 0
    (fresh [answers_with 200 (JObj [("status", JStr "RUNNING")])])
  = New_next New_Validatoe_Inspiah.settings (JStr "RUN1") 0 0
      (served (fresh [answers_with 200 (JObj [("status", JStr "RUNNING")])])
         (New_status_request New_Validatoe_Inspiah.settings (JStr "RUN1"))
         (answers_with 200 (JObj [("status", JStr "RUNNING")])) []).
Proof.
  split; [|split].
  - rewrite (proj1 (proj1 (terminal_status_case_insensitive "completed"
                             (fresh [answers_with 200 (JObj [("status", JStr "completed")])])
                             (answers_with 200 (JObj [("status", JStr "completed")])) []
                             {| status_code := 200; content := EmptyString;
                                decoded := Some (JObj [("status", JStr "completed")]) |}
                             (JObj [("status", JStr "completed")]) 0%nat 0
                             eq_refl eq_refl eq_refl eq_refl)
                      New_Validatoe_Inspiah.settings (JStr "RUN1") eq_refl)
             (or_introl eq_refl)).
    reflexivity.
  - rewrite (proj1 (proj2 (terminal_status_case_insensitive "Failed"
                             (fresh [answers_with 200
                                       (JObj [("TestRun", JObj [("status", JStr "Failed")])])])
                             (answers_with 200
                                (JObj [("TestRun", JObj [("status", JStr "Failed")])])) []
                             {| status_code := 200; content := EmptyString;
                                decoded := Some (JObj [("TestRun", JObj [("status", JStr "Failed")])]) |}
                             (JObj [("TestRun", JObj [("status", JStr "Failed")])]) 0%nat 0
                             eq_refl eq_refl eq_refl eq_refl)
                      (validatorInpire.settings None) (JStr "RUN1") eq_refl)
             (or_intror eq_refl)).
    reflexivity.
  - exact (proj2 (proj1 (terminal_status_case_insensitive "RUNNING"
                           (fresh [answers_with 200 (JObj [("status", JStr "RUNNING")])])
                           (answers_with 200 (JObj [("status", JStr "RUNNING")])) []
                           {| status_code := 200; content := EmptyString;
                              decoded := Some (JObj [("status", JStr "RUNNING")]) |}
                           (JObj [("status", JStr "RUNNING")]) 0%nat 0
                           eq_refl eq_refl eq_refl eq_refl)
                    New_Validatoe_Inspiah.settings (JStr "RUN1") eq_refl)
             eq_refl eq_refl eq_refl).
Defined.

(** ** A reply without a status *)

(** C5, as amended: when the service answers a status check with a JSON
    object whose [TestRun] and [EtfItem] members, where present, are
    objects, and none of the three status paths resolves to a non-empty
    value, then [get_test_run_status] of New_Validatoe_Inspiah.py returns
    the string [UNKNOWN] and the loop of [wait_until_finished] goes on to
    its timeout check and the next poll; in validatorInpire.py, which has
    no sentinel, the status read off the reply is an empty value and the
    loop goes on in the same way. *)
Theorem absent_status_is_not_fatal :
  forall (js : json) (w : world) (ex : exchange) (rest : list exchange) (r : response),
    service w = ex :: rest ->
    reply ex = Answered r ->
    is_error_status (status_code r) = false ->
    decoded r = Some js ->
    walkable ["TestRun"; "status"] js = true ->
    walkable ["EtfItem"; "status"] js = true ->
    first_resolved status_paths js = None ->
    (forall g run_id,
        let w1 := served w (New_status_request g run_id) ex rest in
        New_Validatoe_Inspiah.get_test_run_status g run_id w = (Return (JStr "UNKNOWN"), w1) /\
        forall fuel start,
          New_Validatoe_Inspiah.wait_loop (S fuel) g run_id start w
          = New_next g run_id fuel start w1) /\
    (forall g test_run_id,
        let w1 := served w (Inpire_status_request g test_run_id) ex rest in
        (exists status,
            validatorInpire.status_of js = Return status /\ truthy status = false) /\
        forall fuel start,
          validatorInpire.wait_loop (S fuel) g test_run_id start w
          = Inpire_next g test_run_id fuel start w1).
Proof.
  intros js w ex rest r Hs Hr Hc Hj H1 H3 Hnone.
  pose proof (answered_json_ok ex r js Hr Hc Hj) as Ha.
  split.
  - intros g run_id w1.
    assert (Ho : New_observe ex = Return (JStr "UNKNOWN")).
    { unfold New_observe. rewrite Ha. cbn [and_then].
      rewrite (New_status_of_spec js H1 H3), Hnone. reflexivity. }
    split.
    + rewrite New_get_status_poll. unfold poll. rewrite Hs, Ho. reflexivity.
    + intros fuel start.
      rewrite (New_turn_string g run_id fuel start w ex rest "UNKNOWN" Hs Ho).
      reflexivity.
  - intros g test_run_id w1.
    destruct (Inpire_status_of_spec js H1 H3) as (x & Hx & Hfirst).
    rewrite Hnone in Hfirst.
    assert (Hfalse : truthy x = false) by (destruct (truthy x); congruence).
    split; [exists x; split; assumption|].
    intros fuel start.
    apply (Inpire_turn_empty g test_run_id fuel start w ex rest x Hs); [|exact Hfalse].
    unfold Inpire_observe. rewrite Ha. exact Hx.
Qed.

Lemma absent_status_is_not_fatal_witness :
  fst (New_Validatoe_Inspiah.get_test_run_status New_Validatoe_Inspiah.settings (JStr "RUN1")
         (fresh [answers_with 200 (JObj [("progress", JNum 40)])]))
  = Return (JStr "UNKNOWN").
Proof.
  rewrite (proj1 (proj1 (absent_status_is_not_fatal
                           (JObj [("progress", JNum 40)])
                           (fresh [answers_with 200 (JObj [("progress", JNum 40)])])
                           (answers_with 200 (JObj [("progress", JNum 40)])) []
                           {| status_code := 200; content := EmptyString;
                              decoded := Some (JObj [("progress", JNum 40)]) |}
                           eq_refl eq_refl eq_refl eq_refl eq_refl eq_refl eq_refl)
                    New_Validatoe_Inspiah.settings (JStr "RUN1"))).
  reflexivity.
Defined.

(** C5, as stated, fails: in the reply [{"TestRun": null}] no status path
    resolves, and the status check raises [AttributeError] in both
    scripts instead of going on. *)
Lemma null_test_run_is_fatal :
  let js := JObj [("TestRun", JNull)] in
  first_resolved status_paths js = None /\
  fst (New_Validatoe_Inspiah.get_test_run_status New_Validatoe_Inspiah.settings (JStr "RUN1")
         (fresh [answers_with 200 js]))
  = Raise AttributeError /\
  fst (New_Validatoe_Inspiah.wait_until_finished New_Validatoe_Inspiah.settings (JStr "RUN1")
         (fresh [answers_with 200 js; answers_with 200 (JObj [("status", JStr "COMPLETED")])]))
  = Raise AttributeError /\
  fst (validatorInpire.wait_until_finished (validatorInpire.settings None) (JStr "RUN1")
         (fresh [answers_with 200 js; answers_with 200 (JObj [("status", JStr "COMPLETED")])]))
  = Raise AttributeError.
Proof. repeat split; vm_compute; reflexivity. Qed.

(** ** What a poll can raise *)

Lemma answered_json_return (ex : exchange) (js : json) :
  answered_json ex = Return js ->
  exists r, reply ex = Answered r /\ is_error_status (status_code r) = false /\
            decoded r = Some js.
Proof.
  unfold answered_json. destruct (reply ex) as [r|]; [|discriminate].
  destruct (is_error_status (status_code r)) eqn:Hc; [discriminate|].
  destruct (decoded r) as [j|] eqn:Hj; [|discriminate].
  intros H. injection H as ->. exists r. auto.
Qed.

(** The failures of the status request itself. *)
Definition status_check_failed (e : exn) : Prop :=
  e = RequestException \/ (exists code, e = HTTPError code) \/ e = JSONDecodeError.

Lemma answered_json_raises (ex : exchange) (e : exn) :
  answered_json ex = Raise e -> status_check_failed e.
Proof.
  unfold answered_json, status_check_failed.
  destruct (reply ex) as [r|]; [|intros H; injection H as <-; auto].
  destruct (is_error_status (status_code r)); [intros H; injection H as <-; eauto|].
  destruct (decoded r); [discriminate|intros H; injection H as <-; auto].
Qed.

(** An answer whose body is not of the expected shape. *)
Definition unshaped (ex : exchange) : Prop :=
  exists r js, reply ex = Answered r /\ decoded r = Some js /\ status_shaped js = false.

Lemma New_observe_raises (ex : exchange) (e : exn) :
  New_observe ex = Raise e ->
  status_check_failed e \/ (e = AttributeError /\ unshaped ex).
Proof.
  unfold New_observe, and_then.
  destruct (answered_json ex) as [js|e'|] eqn:Ha; [| |discriminate].
  - intros H. right. apply New_status_of_raises in H as [-> Hsh].
    split; [reflexivity|].
    apply answered_json_return in Ha as (r & Hr & _ & Hj). exists r, js. auto.
  - intros H. injection H as <-. left. exact (answered_json_raises _ _ Ha).
Qed.

Lemma Inpire_observe_raises (ex : exchange) (e : exn) :
  Inpire_observe ex = Raise e ->
  status_check_failed e \/ (e = AttributeError /\ unshaped ex).
Proof.
  unfold Inpire_observe, and_then.
  destruct (answered_json ex) as [js|e'|] eqn:Ha; [| |discriminate].
  - intros H. right. apply Inpire_status_of_raises in H as [-> Hsh].
    split; [reflexivity|].
    apply answered_json_return in Ha as (r & Hr & _ & Hj). exists r, js. auto.
  - intros H. injection H as <-. left. exact (answered_json_raises _ _ Ha).
Qed.

Lemma New_check_true (v : json) :
  New_check v = Return true ->
  exists s, v = JStr s /\ (upper s = "COMPLETED" \/ upper s = "FAILED").
Proof.
  unfold New_check, str_upper, and_then. destruct v; try discriminate.
  intros H. injection H as H. apply is_terminal_iff in H. eauto.
Qed.

Lemma Inpire_check_true (v : json) :
  validatorInpire.finished v = Return true ->
  exists s, v = JStr s /\ (upper s = "COMPLETED" \/ upper s = "FAILED").
Proof.
  unfold validatorInpire.finished, str_upper, and_then.
  destruct (truthy v); [|discriminate].
  destruct v; try discriminate.
  intros H. injection H as H. rewrite is_terminal_same in H.
  apply is_terminal_iff in H. eauto.
Qed.

Lemma New_check_false (v : json) :
  New_check v = Return false ->
  exists s, v = JStr s /\ upper s <> "COMPLETED" /\ upper s <> "FAILED".
Proof.
  unfold New_check, str_upper, and_then. destruct v; try discriminate.
  intros H. injection H as H. exists s. split; [reflexivity|].
  split; intros Heq;
    (assert (Ht : New_Validatoe_Inspiah.is_terminal (upper s) = true)
       by (apply is_terminal_iff; auto)); congruence.
Qed.

Lemma Inpire_check_false (v : json) :
  validatorInpire.finished v = Return false ->
  truthy v = false \/
  exists s, v = JStr s /\ upper s <> "COMPLETED" /\ upper s <> "FAILED".
Proof.
  unfold validatorInpire.finished, str_upper, and_then.
  destruct (truthy v); [|auto].
  destruct v; try discriminate.
  intros H. injection H as H. right. exists s. split; [reflexivity|].
  rewrite is_terminal_same in H.
  split; intros Heq;
    (assert (Ht : New_Validatoe_Inspiah.is_terminal (upper s) = true)
       by (apply is_terminal_iff; auto)); congruence.
Qed.

Lemma shaped_status_is_string (js v : json) :
  status_shaped js = true -> first_resolved status_paths js = Some v ->
  exists s, v = JStr s.
Proof.
  unfold status_shaped. intros H Hf. rewrite Hf in H.
  destruct v; try (rewrite andb_false_r in H; discriminate H). eauto.
Qed.

Lemma shaped_walkable (js : json) :
  status_shaped js = true ->
  walkable ["TestRun"; "status"] js = true /\ walkable ["EtfItem"; "status"] js = true.
Proof.
  unfold status_shaped. intros H.
  apply andb_true_iff in H as [H _]. apply andb_true_iff in H. exact H.
Qed.

Lemma New_check_raises (ex : exchange) (v : json) (e : exn) :
  New_observe ex = Return v -> New_check v = Raise e ->
  e = AttributeError /\ unshaped ex.
Proof.
  unfold New_observe, and_then.
  destruct (answered_json ex) as [js| |] eqn:Ha; try discriminate.
  intros Hst Hc.
  assert (He : e = AttributeError /\ forall s, v <> JStr s).
  { unfold New_check, str_upper, and_then in Hc.
    destruct v; try discriminate Hc; injection Hc as <-; split; congruence. }
  destruct He as [-> Hns]. split; [reflexivity|].
  apply answered_json_return in Ha as (r & Hr & _ & Hj). exists r, js.
  split; [exact Hr|]. split; [exact Hj|].
  destruct (status_shaped js) eqn:Hsh; [exfalso|reflexivity].
  destruct (shaped_walkable js Hsh) as [H1 H3].
  pose proof (New_status_of_spec js H1 H3) as Hspec. rewrite Hst in Hspec.
  destruct (first_resolved status_paths js) as [x|] eqn:Hf; injection Hspec as Hv.
  - destruct (shaped_status_is_string js x Hsh Hf) as [s ->]. exact (Hns s Hv).
  - exact (Hns "UNKNOWN" Hv).
Qed.

Lemma Inpire_check_raises (ex : exchange) (v : json) (e : exn) :
  Inpire_observe ex = Return v -> validatorInpire.finished v = Raise e ->
  e = AttributeError /\ unshaped ex.
Proof.
  unfold Inpire_observe, and_then.
  destruct (answered_json ex) as [js| |] eqn:Ha; try discriminate.
  intros Hst Hc.
  assert (He : e = AttributeError /\ truthy v = true /\ forall s, v <> JStr s).
  { unfold validatorInpire.finished, str_upper, and_then in Hc.
    destruct (truthy v); [|discriminate Hc].
    destruct v; try discriminate Hc; injection Hc as <-; repeat split; congruence. }
  destruct He as (-> & Htr & Hns). split; [reflexivity|].
  apply answered_json_return in Ha as (r & Hr & _ & Hj). exists r, js.
  split; [exact Hr|]. split; [exact Hj|].
  destruct (status_shaped js) eqn:Hsh; [exfalso|reflexivity].
  destruct (shaped_walkable js Hsh) as [H1 H3].
  destruct (Inpire_status_of_spec js H1 H3) as (x & Hx & Hf).
  rewrite Hx in Hst. injection Hst as ->. rewrite Htr in Hf.
  destruct (shaped_status_is_string js v Hsh Hf) as [s ->]. exact (Hns s eq_refl).
Qed.

Lemma New_observe_no_timeout (ex : exchange) (m : string) :
  New_observe ex <> Raise (TimeoutError m).
Proof.
  intros H. apply New_observe_raises in H as [[H|[[c H]|H]]|[H _]]; discriminate H.
Qed.

Lemma New_check_no_timeout (v : json) (m : string) :
  New_check v <> Raise (TimeoutError m).
Proof. unfold New_check, str_upper, and_then. destruct v; discriminate. Qed.

Lemma Inpire_observe_no_timeout (ex : exchange) (m : string) :
  Inpire_observe ex <> Raise (TimeoutError m).
Proof.
  intros H. apply Inpire_observe_raises in H as [[H|[[c H]|H]]|[H _]]; discriminate H.
Qed.

Lemma Inpire_check_no_timeout (v : json) (m : string) :
  validatorInpire.finished v <> Raise (TimeoutError m).
Proof.
  unfold validatorInpire.finished, str_upper, and_then.
  destruct (truthy v); [|discriminate]. destruct v; discriminate.
Qed.

Lemma New_wait_until_finished_loop (g : New_Validatoe_Inspiah.globals) (run_id : json)
    (w : world) :
  New_Validatoe_Inspiah.wait_until_finished g run_id w
  = New_loop g run_id (S (length (service w))) (now w) w.
Proof.
  unfold New_Validatoe_Inspiah.wait_until_finished, bind, time_time.
  apply New_wait_loop_loop.
Qed.

(** The fuel that [wait_until_finished] gives its loop is enough: more
    fuel changes nothing. *)
Lemma New_fuel_is_enough (g : New_Validatoe_Inspiah.globals) (run_id : json)
    (w : world) (fuel : nat) :
  0 <= New_Validatoe_Inspiah.POLL_EVERY g ->
  (length (service w) < fuel)%nat ->
  fst (New_Validatoe_Inspiah.wait_loop fuel g run_id (now w) w)
  = fst (New_Validatoe_Inspiah.wait_until_finished g run_id w).
Proof.
  intros HI Hf. rewrite New_wait_until_finished_loop, New_wait_loop_loop.
  unfold New_loop. apply loop_fuel; [exact HI|exact Hf|lia].
Qed.

Lemma Inpire_wait_until_finished_loop (g : validatorInpire.globals) (test_run_id : json)
    (w : world) :
  validatorInpire.wait_until_finished g test_run_id w
  = Inpire_loop g test_run_id (S (length (service w))) (now w) w.
Proof.
  unfold validatorInpire.wait_until_finished, bind, time_time.
  apply Inpire_wait_loop_loop.
Qed.

(** ** The outcomes of [wait_until_finished] *)

(** A status string that ends the loop. *)
Definition terminal_string (v : json) : Prop :=
  exists s, v = JStr s /\ (upper s = "COMPLETED" \/ upper s = "FAILED").

Lemma New_outcomes (g : New_Validatoe_Inspiah.globals) (run_id : json) (w : world) :
  0 <= New_Validatoe_Inspiah.POLL_EVERY g ->
  match fst (New_Validatoe_Inspiah.wait_until_finished g run_id w) with
  | Return v => terminal_string v
  | Raise e =>
      e = TimeoutError "Timeout waiting for the test run to finish." \/
      status_check_failed e \/
      (e = AttributeError /\ Exists unshaped (service w))
  | Blocked => True
  end.
Proof.
  intros HI. rewrite New_wait_until_finished_loop. unfold New_loop.
  pose proof (loop_accounted (New_status_request g run_id) New_observe New_check
                (New_Validatoe_Inspiah.POLL_TIMEOUT g) (New_Validatoe_Inspiah.POLL_EVERY g)
                "Timeout waiting for the test run to finish." HI
                (S (length (service w))) (now w) w) as Hacc.
  destruct (fst (loop _ _ _ _ _ _ _ _ w)) as [v|e|]; cbn [accounted] in Hacc; [| |trivial].
  - destruct Hacc as [Hc _]. exact (New_check_true v Hc).
  - destruct Hacc as [H|[(ex & Hin & Ho)|(ex & v & Hin & Ho & Hc)]]; [left; exact H| |].
    + apply New_observe_raises in Ho as [Hf|[-> Hu]]; [right; left; exact Hf|].
      right; right. split; [reflexivity|]. apply Exists_exists.
      exists ex. split; [apply list_elem_of_In; exact Hin|exact Hu].
    + destruct (New_check_raises ex v e Ho Hc) as [-> Hu].
      right; right. split; [reflexivity|]. apply Exists_exists.
      exists ex. split; [apply list_elem_of_In; exact Hin|exact Hu].
Qed.

Lemma Inpire_outcomes (g : validatorInpire.globals) (test_run_id : json) (w : world) :
  0 <= validatorInpire.POLL_EVERY g ->
  match fst (validatorInpire.wait_until_finished g test_run_id w) with
  | Return v => terminal_string v
  | Raise e =>
      e = TimeoutError "Gave up waiting for the test run." \/
      status_check_failed e \/
      (e = AttributeError /\ Exists unshaped (service w))
  | Blocked => True
  end.
Proof.
  intros HI. rewrite Inpire_wait_until_finished_loop. unfold Inpire_loop.
  pose proof (loop_accounted (Inpire_status_request g test_run_id) Inpire_observe
                validatorInpire.finished
                (validatorInpire.POLL_TIMEOUT g) (validatorInpire.POLL_EVERY g)
                "Gave up waiting for the test run." HI
                (S (length (service w))) (now w) w) as Hacc.
  destruct (fst (loop _ _ _ _ _ _ _ _ w)) as [v|e|]; cbn [accounted] in Hacc; [| |trivial].
  - destruct Hacc as [Hc _]. exact (Inpire_check_true v Hc).
  - destruct Hacc as [H|[(ex & Hin & Ho)|(ex & v & Hin & Ho & Hc)]]; [left; exact H| |].
    + apply Inpire_observe_raises in Ho as [Hf|[-> Hu]]; [right; left; exact Hf|].
      right; right. split; [reflexivity|]. apply Exists_exists.
      exists ex. split; [apply list_elem_of_In; exact Hin|exact Hu].
    + destruct (Inpire_check_raises ex v e Ho Hc) as [-> Hu].
      right; right. split; [reflexivity|]. apply Exists_exists.
      exists ex. split; [apply list_elem_of_In; exact Hin|exact Hu].
Qed.

Lemma New_reaches (g : New_Validatoe_Inspiah.globals) (run_id : json) (w : world)
    (pre : list exchange) (ex : exchange) (rest : list exchange) (s : string) :
  0 <= New_Validatoe_Inspiah.POLL_EVERY g ->
  service w = pre ++ ex :: rest ->
  Forall (unfinished New_observe New_check) pre ->
  patient (New_Validatoe_Inspiah.POLL_TIMEOUT g) (New_Validatoe_Inspiah.POLL_EVERY g) 0 pre ->
  New_observe ex = Return (JStr s) ->
  upper s = "COMPLETED" \/ upper s = "FAILED" ->
  exists w',
    New_Validatoe_Inspiah.wait_until_finished g run_id w = (Return (JStr s), w') /\
    service w' = rest /\
    sent w' = sent w ++ repeat (New_status_request g run_id) (S (length pre)) /\
    files w' = files w.
Proof.
  intros HI Hs Hall Hp Ho Hterm.
  rewrite New_wait_until_finished_loop. unfold New_loop.
  apply (loop_reaches _ _ _ _ _ _ HI pre _ _ _ ex rest); try assumption.
  - rewrite Hs, length_app. cbn [length]. lia.
  - apply (patient_eq _ _ pre 0); [lra|exact Hp].
  - unfold New_check, str_upper, and_then.
    apply is_terminal_iff in Hterm. rewrite Hterm. reflexivity.
Qed.

Lemma Inpire_reaches (g : validatorInpire.globals) (test_run_id : json) (w : world)
    (pre : list exchange) (ex : exchange) (rest : list exchange) (s : string) :
  0 <= validatorInpire.POLL_EVERY g ->
  service w = pre ++ ex :: rest ->
  Forall (unfinished Inpire_observe validatorInpire.finished) pre ->
  patient (validatorInpire.POLL_TIMEOUT g) (validatorInpire.POLL_EVERY g) 0 pre ->
  Inpire_observe ex = Return (JStr s) ->
  upper s = "COMPLETED" \/ upper s = "FAILED" ->
  exists w',
    validatorInpire.wait_until_finished g test_run_id w = (Return (JStr s), w') /\
    service w' = rest /\
    sent w' = sent w ++ repeat (Inpire_status_request g test_run_id) (S (length pre)) /\
    files w' = files w.
Proof.
  intros HI Hs Hall Hp Ho Hterm.
  rewrite Inpire_wait_until_finished_loop. unfold Inpire_loop.
  apply (loop_reaches _ _ _ _ _ _ HI pre _ _ _ ex rest); try assumption.
  - rewrite Hs, length_app. cbn [length]. lia.
  - apply (patient_eq _ _ pre 0); [lra|exact Hp].
  - unfold validatorInpire.finished, str_upper, and_then.
    destruct s as [|c s']; [destruct Hterm; discriminate|]. cbn [truthy].
    rewrite is_terminal_same. apply is_terminal_iff in Hterm. rewrite Hterm. reflexivity.
Qed.

(** C4, as amended.  In both scripts:
    - when the polls before it saw statuses that are not terminal and
      came back within the timeout (and the interval is not negative,
      which [time.sleep] would refuse), a poll that reads a status string
      whose uppercased form is [COMPLETED] or [FAILED] makes
      [wait_until_finished] return that string as an ordinary value;
    - whatever the service does, a value that [wait_until_finished]
      returns is such a string, and an exception that it raises is the
      [TimeoutError] of the loop, a failure of a status request (the
      transport, a 4xx or 5xx status, a body that is not JSON), or an
      [AttributeError], the last only when some answer is not of the
      expected shape: not an object, [TestRun] or [EtfItem] not an
      object, or a status that is not a string. *)
Theorem wait_until_finished_outcomes :
  (forall (g : New_Validatoe_Inspiah.globals) (run_id : json) (w : world),
      0 <= New_Validatoe_Inspiah.POLL_EVERY g ->
      (forall pre ex rest s,
          service w = pre ++ ex :: rest ->
          Forall (unfinished New_observe New_check) pre ->
          patient (New_Validatoe_Inspiah.POLL_TIMEOUT g)
            (New_Validatoe_Inspiah.POLL_EVERY g) 0 pre ->
          New_observe ex = Return (JStr s) ->
          upper s = "COMPLETED" \/ upper s = "FAILED" ->
          exists w',
            New_Validatoe_Inspiah.wait_until_finished g run_id w = (Return (JStr s), w') /\
            service w' = rest /\
            sent w' = sent w ++ repeat (New_status_request g run_id) (S (length pre)) /\
            files w' = files w) /\
      match fst (New_Validatoe_Inspiah.wait_until_finished g run_id w) with
      | Return v => terminal_string v
      | Raise e =>
          e = TimeoutError "Timeout waiting for the test run to finish." \/
          status_check_failed e \/
          (e = AttributeError /\ Exists unshaped (service w))
      | Blocked => True
      end) /\
  (forall (g : validatorInpire.globals) (test_run_id : json) (w : world),
      0 <= validatorInpire.POLL_EVERY g ->
      (forall pre ex rest s,
          service w = pre ++ ex :: rest ->
          Forall (unfinished Inpire_observe validatorInpire.finished) pre ->
          patient (validatorInpire.POLL_TIMEOUT g) (validatorInpire.POLL_EVERY g) 0 pre ->
          Inpire_observe ex = Return (JStr s) ->
          upper s = "COMPLETED" \/ upper s = "FAILED" ->
          exists w',
            validatorInpire.wait_until_finished g test_run_id w = (Return (JStr s), w') /\
            service w' = rest /\
            sent w' = sent w ++ repeat (Inpire_status_request g test_run_id) (S (length pre)) /\
            files w' = files w) /\
      match fst (validatorInpire.wait_until_finished g test_run_id w) with
      | Return v => terminal_string v
      | Raise e =>
          e = TimeoutError "Gave up waiting for the test run." \/
          status_check_failed e \/
          (e = AttributeError /\ Exists unshaped (service w))
      | Blocked => True
      end).
Proof.
  split.
  - intros g run_id w HI. split; [|apply New_outcomes; exact HI].
    intros pre ex rest s. apply New_reaches. exact HI.
  - intros g test_run_id w HI. split; [|apply Inpire_outcomes; exact HI].
    intros pre ex rest s. apply Inpire_reaches. exact HI.
Qed.

Definition running_then_completed : list exchange :=
  [answers_with 200 (JObj [("status", JStr "RUNNING")]);
   answers_with 200 (JObj [("TestRun", JObj [("status", JStr "COMPLETED")])])].

Lemma wait_until_finished_outcomes_witness :
  exists w',
    New_Validatoe_Inspiah.wait_until_finished New_Validatoe_Inspiah.settings (JStr "RUN1")
      (fresh running_then_completed)
    = (Return (JStr "COMPLETED"), w') /\
    service w' = [] /\
    sent w' = [] ++ repeat (New_status_request New_Validatoe_Inspiah.settings (JStr "RUN1")) 2 /\
    files w' = ∅.
Proof.
  apply (proj1 (proj1 wait_until_finished_outcomes New_Validatoe_Inspiah.settings
                  (JStr "RUN1") (fresh running_then_completed)
                  ltac:(unfold Qle; cbn; lia))
           [answers_with 200 (JObj [("status", JStr "RUNNING")])]
           (answers_with 200 (JObj [("TestRun", JObj [("status", JStr "COMPLETED")])]))
           [] "COMPLETED").
  - reflexivity.
  - constructor; [|constructor]. exists (JStr "RUNNING"). split; reflexivity.
  - split; [|exact Logic.I]. unfold Qle. cbn. lia.
  - reflexivity.
  - left. reflexivity.
Defined.

(** C4, as stated, fails: on the answer [{"status": 5}] the status
    request succeeds and no timeout has passed, yet
    [wait_until_finished] raises [AttributeError] in both scripts. *)
Lemma non_string_status_raises :
  let w := fresh [answers_with 200 (JObj [("status", JNum 5)])] in
  fst (New_Validatoe_Inspiah.get_test_run_status New_Validatoe_Inspiah.settings (JStr "RUN1") w)
  = Return (JNum 5) /\
  fst (New_Validatoe_Inspiah.wait_until_finished New_Validatoe_Inspiah.settings (JStr "RUN1") w)
  = Raise AttributeError /\
  fst (validatorInpire.get_test_run_status (validatorInpire.settings None) (JStr "RUN1") w)
  = Return (JObj [("status", JNum 5)]) /\
  fst (validatorInpire.wait_until_finished (validatorInpire.settings None) (JStr "RUN1") w)
  = Raise AttributeError.
Proof. repeat split; vm_compute; reflexivity. Qed.

(** ** Timeouts *)

(** A poll that saw a terminal status. *)
Definition saw_terminal (observe : exchange -> outcome json) (ex : exchange) : Prop :=
  exists v, observe ex = Return v /\ terminal_string v.

Lemma New_unfinished_not_terminal (ex : exchange) :
  unfinished New_observe New_check ex -> ~ saw_terminal New_observe ex.
Proof.
  intros (v & Ho & Hc) (v' & Ho' & s & -> & Hterm).
  rewrite Ho in Ho'. injection Ho' as ->.
  apply New_check_false in Hc as (s' & Heq & H1 & H2). injection Heq as <-. tauto.
Qed.

Lemma Inpire_unfinished_not_terminal (ex : exchange) :
  unfinished Inpire_observe validatorInpire.finished ex -> ~ saw_terminal Inpire_observe ex.
Proof.
  intros (v & Ho & Hc) (v' & Ho' & s & -> & Hterm).
  rewrite Ho in Ho'. injection Ho' as ->.
  apply Inpire_check_false in Hc as [Hf|(s' & Heq & H1 & H2)].
  - destruct s; [destruct Hterm; discriminate|discriminate Hf].
  - injection Heq as <-. tauto.
Qed.

Lemma timeout_facts (T I : Q) (start now' : Q) (polled : list exchange) :
  now' + I == start + total_took polled + laps (length polled) * I ->
  T < now' - start ->
  now' - start == total_took polled + (laps (length polled) - 1) * I /\
  (forall d, 0 < I -> 0 <= d -> Forall (fun ex => took ex <= d) polled ->
             (Qceiling (T / (I + d)) <= Z.of_nat (length polled))%Z) /\
  (0 < I -> Forall (fun ex => took ex <= 0) polled ->
   (Qceiling (T / I) <= Z.of_nat (length polled))%Z).
Proof.
  intros Hnow Hover.
  assert (Hel : now' - start + I == total_took polled + laps (length polled) * I) by lra.
  split; [|split].
  - set (n := laps (length polled)) in *.
    assert (Hn : (n - 1) * I == n * I - I) by ring. rewrite Hn. lra.
  - intros d HI Hd Hall.
    exact (polls_before_timeout T I d polled (now' - start) HI Hd Hall Hel Hover).
  - intros HI Hall.
    assert (Hq : T / I == T / (I + 0)).
    { assert (HI0 : I + 0 == I) by ring. rewrite HI0. reflexivity. }
    rewrite Hq.
    exact (polls_before_timeout T I 0 polled (now' - start) HI ltac:(lra) Hall Hel Hover).
Qed.

(** C3, as amended.  In both scripts, for an interval that is not
    negative, when [wait_until_finished] raises its [TimeoutError]:
    - every poll it made saw a status that is not terminal (a terminal
      status ends the loop by returning, before the timeout is looked at);
    - more than [POLL_TIMEOUT] seconds have passed on the clock since the
      loop started: the time the polls took plus one [POLL_EVERY] sleep
      between two polls;
    - the number of polls made is at least
      [ceil (POLL_TIMEOUT / (POLL_EVERY + d))] when each poll took at most
      [d] seconds, hence at least [ceil (POLL_TIMEOUT / POLL_EVERY)] when
      the polls took no time at all. *)
Theorem timeout_only_after_unfinished_polls :
  (forall (g : New_Validatoe_Inspiah.globals) (run_id : json) (w w' : world) (m : string),
      0 <= New_Validatoe_Inspiah.POLL_EVERY g ->
      New_Validatoe_Inspiah.wait_until_finished g run_id w = (Raise (TimeoutError m), w') ->
      exists polled,
        service w = polled ++ service w' /\
        sent w' = sent w ++ repeat (New_status_request g run_id) (length polled) /\
        polled <> [] /\
        Forall (fun ex => ~ saw_terminal New_observe ex) polled /\
        New_Validatoe_Inspiah.POLL_TIMEOUT g < now w' - now w /\
        now w' - now w
        == total_took polled + (laps (length polled) - 1) * New_Validatoe_Inspiah.POLL_EVERY g /\
        (forall d, 0 < New_Validatoe_Inspiah.POLL_EVERY g -> 0 <= d ->
                   Forall (fun ex => took ex <= d) polled ->
                   (Qceiling (New_Validatoe_Inspiah.POLL_TIMEOUT g
                              / (New_Validatoe_Inspiah.POLL_EVERY g + d))
                    <= Z.of_nat (length polled))%Z) /\
        (0 < New_Validatoe_Inspiah.POLL_EVERY g ->
         Forall (fun ex => took ex <= 0) polled ->
         (Qceiling (New_Validatoe_Inspiah.POLL_TIMEOUT g / New_Validatoe_Inspiah.POLL_EVERY g)
          <= Z.of_nat (length polled))%Z)) /\
  (forall (g : validatorInpire.globals) (test_run_id : json) (w w' : world) (m : string),
      0 <= validatorInpire.POLL_EVERY g ->
      validatorInpire.wait_until_finished g test_run_id w = (Raise (TimeoutError m), w') ->
      exists polled,
        service w = polled ++ service w' /\
        sent w' = sent w ++ repeat (Inpire_status_request g test_run_id) (length polled) /\
        polled <> [] /\
        Forall (fun ex => ~ saw_terminal Inpire_observe ex) polled /\
        validatorInpire.POLL_TIMEOUT g < now w' - now w /\
        now w' - now w
        == total_took polled + (laps (length polled) - 1) * validatorInpire.POLL_EVERY g /\
        (forall d, 0 < validatorInpire.POLL_EVERY g -> 0 <= d ->
                   Forall (fun ex => took ex <= d) polled ->
                   (Qceiling (validatorInpire.POLL_TIMEOUT g
                              / (validatorInpire.POLL_EVERY g + d))
                    <= Z.of_nat (length polled))%Z) /\
        (0 < validatorInpire.POLL_EVERY g ->
         Forall (fun ex => took ex <= 0) polled ->
         (Qceiling (validatorInpire.POLL_TIMEOUT g / validatorInpire.POLL_EVERY g)
          <= Z.of_nat (length polled))%Z)).
Proof.
  split.
  - intros g run_id w w' m HI H.
    rewrite New_wait_until_finished_loop in H. unfold New_loop in H.
    apply (loop_timeout _ _ _ _ _ _ HI New_observe_no_timeout New_check_no_timeout) in H.
    destruct H as (polled & Hserv & Hall & Hsent & _ & Hnow & Hover & _ & Hne).
    destruct (timeout_facts _ _ _ _ _ Hnow Hover) as (Hel & Hd & H0).
    exists polled. split_and!; try assumption.
    eapply Forall_impl; [exact Hall|]. intros ex. apply New_unfinished_not_terminal.
  - intros g test_run_id w w' m HI H.
    rewrite Inpire_wait_until_finished_loop in H. unfold Inpire_loop in H.
    apply (loop_timeout _ _ _ _ _ _ HI Inpire_observe_no_timeout Inpire_check_no_timeout) in H.
    destruct H as (polled & Hserv & Hall & Hsent & _ & Hnow & Hover & _ & Hne).
    destruct (timeout_facts _ _ _ _ _ Hnow Hover) as (Hel & Hd & H0).
    exists polled. split_and!; try assumption.
    eapply Forall_impl; [exact Hall|]. intros ex. apply Inpire_unfinished_not_terminal.
Qed.

Definition running : exchange := answers_with 200 (JObj [("status", JStr "RUNNING")]).

Lemma Forall_repeat {A} (P : A -> Prop) (x : A) (n : nat) :
  P x -> Forall P (repeat x n).
Proof. intros Hx. induction n; cbn [repeat]; constructor; assumption. Qed.

(** With the settings of the script and a service that answers RUNNING
    at once every time, the timeout comes at the 302nd poll. *)
Lemma timeout_only_after_unfinished_polls_witness :
  let w := fresh (repeat running 302) in
  let w' := snd (New_Validatoe_Inspiah.wait_until_finished
                   New_Validatoe_Inspiah.settings (JStr "RUN1") w) in
  New_Validatoe_Inspiah.wait_until_finished New_Validatoe_Inspiah.settings (JStr "RUN1") w
  = (Raise (TimeoutError "Timeout waiting for the test run to finish."), w') /\
  (Qceiling (New_Validatoe_Inspiah.POLL_TIMEOUT New_Validatoe_Inspiah.settings
             / New_Validatoe_Inspiah.POLL_EVERY New_Validatoe_Inspiah.settings)
   <= 302)%Z.
Proof.
  intros w w'.
  assert (H : New_Validatoe_Inspiah.wait_until_finished
                New_Validatoe_Inspiah.settings (JStr "RUN1") w
              = (Raise (TimeoutError "Timeout waiting for the test run to finish."), w'))
    by (vm_compute; reflexivity).
  split; [exact H|].
  assert (HI : 0 <= New_Validatoe_Inspiah.POLL_EVERY New_Validatoe_Inspiah.settings)
    by (unfold Qle; cbn; lia).
  destruct (proj1 timeout_only_after_unfinished_polls _ _ _ _ _ HI H)
    as (polled & Hserv & _ & _ & _ & _ & _ & _ & H0).
  assert (Hw' : service w' = []) by (vm_compute; reflexivity).
  rewrite Hw', app_nil_r in Hserv. rewrite <- Hserv in H0.
  change 302%Z with (Z.of_nat (length (service w))).
  apply H0; [reflexivity|].
  apply Forall_repeat. unfold Qle. cbn. lia.
Defined.

(** C3, as stated, fails: one poll that lasts 1501 seconds and sees
    RUNNING is followed by the [TimeoutError], after a single polling
    attempt, where [ceil (POLL_TIMEOUT / POLL_EVERY)] is 300. *)
Lemma one_slow_poll_times_out :
  let slow := {| took := 1501; reply := reply running |} in
  Qceiling (New_Validatoe_Inspiah.POLL_TIMEOUT New_Validatoe_Inspiah.settings
            / New_Validatoe_Inspiah.POLL_EVERY New_Validatoe_Inspiah.settings) = 300%Z /\
  fst (New_Validatoe_Inspiah.wait_until_finished New_Validatoe_Inspiah.settings (JStr "RUN1")
         (fresh [slow; running]))
  = Raise (TimeoutError "Timeout waiting for the test run to finish.") /\
  length (sent (snd (New_Validatoe_Inspiah.wait_until_finished
                       New_Validatoe_Inspiah.settings (JStr "RUN1")
                       (fresh [slow; running])))) = 1%nat /\
  fst (validatorInpire.wait_until_finished (validatorInpire.settings None) (JStr "RUN1")
         (fresh [slow; running]))
  = Raise (TimeoutError "Gave up waiting for the test run.") /\
  length (sent (snd (validatorInpire.wait_until_finished
                       (validatorInpire.settings None) (JStr "RUN1")
                       (fresh [slow; running])))) = 1%nat.
Proof. repeat split; vm_compute; reflexivity. Qed.

(** ** The report *)

(** C7, as amended: when the service answers the report request with a
    4xx or 5xx status (404, say), [download_report_html] raises the
    [HTTPError] of [raise_for_status] (ReportUnavailable) before the
    output file is opened: no file is created or overwritten, the file
    system is as it was.  This holds for both scripts. *)
Theorem download_report_error_leaves_files :
  forall (run_id : json) (out_path : string) (w : world) (ex : exchange)
         (rest : list exchange) (r : response),
    service w = ex :: rest ->
    reply ex = Answered r ->
    (400 <= status_code r < 600)%Z ->
    (forall g,
        fst (New_Validatoe_Inspiah.download_report_html g run_id out_path w)
        = Raise (HTTPError (status_code r)) /\
        files (snd (New_Validatoe_Inspiah.download_report_html g run_id out_path w))
        = files w) /\
    (forall g,
        fst (validatorInpire.download_report_html g run_id out_path w)
        = Raise (HTTPError (status_code r)) /\
        files (snd (validatorInpire.download_report_html g run_id out_path w))
        = files w).
Proof.
  intros run_id out_path w ex rest r Hs Hr Hcode.
  assert (Hc : is_error_status (status_code r) = true).
  { unfold is_error_status. apply andb_true_iff.
    split; [apply Z.leb_le|apply Z.ltb_lt]; lia. }
  split; intros g.
  - unfold New_Validatoe_Inspiah.download_report_html, requests_get, bind.
    rewrite (send_answered _ _ _ _ _ Hs Hr). unfold raise_for_status. rewrite Hc.
    split; reflexivity.
  - unfold validatorInpire.download_report_html, requests_get, bind.
    rewrite (send_answered _ _ _ _ _ Hs Hr). unfold raise_for_status. rewrite Hc.
    split; reflexivity.
Qed.

Definition not_found : exchange :=
  {| took := 0;
     reply := Answered {| status_code := 404; content := "Not Found"; decoded := None |} |}.

Definition old_report : file_entry := RegularFile true true "<html>old</html>".

Lemma download_report_error_leaves_files_witness :
  let w := {| now := 0; service := [not_found]; sent := [];
              files := {[ "report_RUN1.html" := old_report ]} |} in
  fst (New_Validatoe_Inspiah.download_report_html New_Validatoe_Inspiah.settings
         (JStr "RUN1") "report_RUN1.html" w)
  = Raise (HTTPError 404) /\
  files (snd (New_Validatoe_Inspiah.download_report_html New_Validatoe_Inspiah.settings
                (JStr "RUN1") "report_RUN1.html" w))
  = {[ "report_RUN1.html" := old_report ]}.
Proof.
  intros w.
  exact (proj1 (download_report_error_leaves_files (JStr "RUN1") "report_RUN1.html" w
                  not_found []
                  {| status_code := 404; content := "Not Found"; decoded := None |}
                  eq_refl eq_refl ltac:(cbn; lia))
           New_Validatoe_Inspiah.settings).
Defined.

(** C7, as stated, fails: 304 is not a 2xx status, [raise_for_status]
    lets it pass, and the output file is overwritten with the body. *)
Lemma download_report_304_overwrites :
  let not_modified :=
    {| took := 0;
       reply := Answered {| status_code := 304; content := EmptyString; decoded := None |} |} in
  let w := {| now := 0; service := [not_modified]; sent := [];
              files := {[ "report_RUN1.html" := old_report ]} |} in
  fst (New_Validatoe_Inspiah.download_report_html New_Validatoe_Inspiah.settings
         (JStr "RUN1") "report_RUN1.html" w)
  = Return "report_RUN1.html" /\
  files (snd (New_Validatoe_Inspiah.download_report_html New_Validatoe_Inspiah.settings
                (JStr "RUN1") "report_RUN1.html" w)) !! "report_RUN1.html"
  = Some (RegularFile true true EmptyString) /\
  fst (validatorInpire.download_report_html (validatorInpire.settings None)
         (JStr "RUN1") "report_RUN1.html" w)
  = Return "report_RUN1.html" /\
  files (snd (validatorInpire.download_report_html (validatorInpire.settings None)
                (JStr "RUN1") "report_RUN1.html" w)) !! "report_RUN1.html"
  = Some (RegularFile true true EmptyString).
Proof. repeat split; vm_compute; reflexivity. Qed.

(** ** The local file *)

Definition readable_file (w : world) (path : string) : bool :=
  match stat (files w) path with
  | Found (RegularFile true _ _) => true
  | _ => false
  end.

Lemma stat_entry (fs : gmap string file_entry) (path : string) (e : file_entry) :
  fs !! path = Some e -> stat fs path = Found e.
Proof. intros H. unfold stat. rewrite H. reflexivity. Qed.

(** A directory that the process may go through. *)
Definition searchable_directory (w : world) (d : string) : Prop :=
  exists r wr, entry_at (files w) d = Some (Directory r wr true).

(** A name of a file or directory: not [.] or [..], and within the
    limit on the length of a name. *)
Definition proper (c : string) : bool :=
  negb (String.eqb c ".") && negb (String.eqb c "..")
  && (String.length c <=? NAME_MAX)%nat.

(** A path of proper names: not empty, without a NUL character, and
    within the limit on the length of a path. *)
Definition plain (path : string) : Prop :=
  path <> EmptyString /\
  has_char nul path = false /\
  (String.length path < PATH_MAX)%nat /\
  forallb proper (components path) = true.

(** The directories in which the names of a path are looked up, in the
    order of the walk: the working directory or the root first. *)
Fixpoint holders_from (absolute : bool) (stack comps : list string) : list string :=
  match comps with
  | [] => []
  | c :: rest => key absolute stack :: holders_from absolute (c :: stack) rest
  end.

Definition holders (path : string) : list string :=
  holders_from (is_absolute path) [] (components path).

(** The path in normal form. *)
Definition normal_form (path : string) : string :=
  key (is_absolute path) (rev (components path)).

(** The exception with which [open(path, "rb")] refuses a path that is
    not a readable file, case by case. *)
Definition refusal_of_open (w : world) (path : string) (e : exn) : Prop :=
  (forall r wr x, files w !! path = Some (Directory r wr x) ->
     e = if r then IsADirectoryError path else PermissionError path) /\
  (forall wr data, files w !! path = Some (RegularFile false wr data) ->
     e = PermissionError path) /\
  (files w !! path = None -> has_char nul path = true ->
     e = ValueError "embedded null byte") /\
  (files w !! path = None -> plain path ->
     Forall (searchable_directory w) (holders path) ->
     entry_at (files w) (normal_form path) = None ->
     e = FileNotFoundError path) /\
  (files w !! path = None -> plain path ->
     forall before d after rd wr data,
       holders path = before ++ d :: after ->
       Forall (searchable_directory w) before ->
       entry_at (files w) d = Some (RegularFile rd wr data) ->
       e = NotADirectoryError path).

Lemma proper_steps (c : string) :
  proper c = true ->
  String.eqb c "." = false /\ String.eqb c ".." = false /\
  (NAME_MAX <? String.length c)%nat = false.
Proof.
  unfold proper. rewrite !andb_true_iff, !negb_true_iff. intros [[H1 H2] H3].
  split_and!; [exact H1|exact H2|]. apply Nat.leb_le in H3. apply Nat.ltb_ge. exact H3.
Qed.

Lemma walk_plain (fs : gmap string file_entry) (path : string) (absolute : bool)
    (comps : list string) :
  forall stack holder,
    forallb proper comps = true ->
    Forall (fun d => exists r wr, entry_at fs d = Some (Directory r wr true))
      (holders_from absolute stack comps) ->
    walk fs path absolute stack holder comps
    = inr (rev comps ++ stack,
           match comps with
           | [] => holder
           | _ => Some (List.last (holders_from absolute stack comps) ".")
           end,
           false).
Proof.
  induction comps as [|c rest IH]; intros stack holder Hp Hd; [reflexivity|].
  cbn [forallb] in Hp. apply andb_true_iff in Hp as [Hc Hrest].
  cbn [holders_from] in Hd. inversion Hd as [|? ? (r & wr & Hhere) Hd']; subst.
  destruct (proper_steps c Hc) as (H1 & H2 & H3).
  cbn [walk]. rewrite Hhere, H1, H2, H3.
  rewrite (IH (c :: stack) (Some (key absolute stack)) Hrest Hd').
  cbn [rev]. rewrite <- app_assoc. cbn [app holders_from].
  destruct rest as [|c' rest']; reflexivity.
Qed.

Lemma walk_at_file (fs : gmap string file_entry) (path : string) (absolute : bool)
    (comps : list string) :
  forall stack holder before d after rd wr data,
    forallb proper comps = true ->
    holders_from absolute stack comps = before ++ d :: after ->
    Forall (fun d => exists r wr, entry_at fs d = Some (Directory r wr true)) before ->
    entry_at fs d = Some (RegularFile rd wr data) ->
    walk fs path absolute stack holder comps = inl (NotADirectoryError path).
Proof.
  induction comps as [|c rest IH]; intros stack holder before d after rd wr data Hp Hh Hb Hd.
  - destruct before; discriminate Hh.
  - cbn [forallb] in Hp. apply andb_true_iff in Hp as [Hc Hrest].
    cbn [holders_from] in Hh. cbn [walk].
    destruct before as [|b before'].
    + cbn [app] in Hh. injection Hh as Hk _. rewrite Hk, Hd. reflexivity.
    + cbn [app] in Hh. injection Hh as Hk Hh.
      inversion Hb as [|? ? (r0 & wr0 & Hhere) Hb']; subst.
      destruct (proper_steps c Hc) as (H1 & H2 & H3).
      rewrite Hhere, H1, H2, H3.
      exact (IH (c :: stack) _ before' d after rd wr data Hrest Hh Hb' Hd).
Qed.

Lemma stat_plain (fs : gmap string file_entry) (path : string) :
  fs !! path = None -> plain path ->
  stat fs path
  = match walk fs path (is_absolute path) [] None (components path) with
    | inl e => Fails e
    | inr (stack, holder, long) =>
        if long then TooLong (ends_with_slash path)
        else match entry_at fs (key (is_absolute path) stack) with
             | None => Free holder (ends_with_slash path)
             | Some (RegularFile r w data) =>
                 if ends_with_slash path then NotDirectory else Found (RegularFile r w data)
             | Some e => Found e
             end
    end.
Proof.
  intros Hf (Hne & Hnul & Hlen & _). unfold stat. rewrite Hf, Hnul.
  destruct (Nat.leb_spec PATH_MAX (String.length path)); [lia|].
  destruct path; [congruence|reflexivity].
Qed.

Lemma open_rb_refuses (w : world) (path : string) :
  readable_file w path = false ->
  exists e, open_rb path w = (Raise e, w) /\ refusal_of_open w path e.
Proof.
  intros Hnr.
  assert (exists e, open_rb path w = (Raise e, w)) as [e He].
  { unfold readable_file in Hnr. unfold open_rb.
    destruct (stat (files w) path) as [[[|] dw dx|[|] wr data]| |h t|t|e0];
      try discriminate Hnr; eexists; reflexivity. }
  exists e. split; [exact He|]. unfold open_rb in He. unfold refusal_of_open. split_and!.
  - intros r wr x Hf. rewrite (stat_entry _ _ _ Hf) in He. destruct r; congruence.
  - intros wr data Hf. rewrite (stat_entry _ _ _ Hf) in He. congruence.
  - intros Hf Hnul. unfold stat in He. rewrite Hf, Hnul in He. congruence.
  - intros Hf Hplain Hdirs Hnone. rewrite (stat_plain _ _ Hf Hplain) in He.
    destruct Hplain as (_ & _ & _ & Hproper).
    rewrite (walk_plain _ _ _ _ [] None Hproper Hdirs), app_nil_r in He.
    fold (normal_form path) in He. rewrite Hnone in He. congruence.
  - intros Hf Hplain before d after rd wr data Hh Hb Hd.
    rewrite (stat_plain _ _ Hf Hplain) in He.
    destruct Hplain as (_ & _ & _ & Hproper).
    rewrite (walk_at_file _ _ _ _ [] None before d after rd wr data Hproper Hh Hb Hd) in He.
    congruence.
Qed.

(** C6, as amended: for every path that does not lead to a readable
    file, [upload_local_xml] (in both scripts) and the local-mode branch
    of [main] raise before any request is sent: the world they leave is
    the world they found, so zero HTTP calls are made.  In
    [upload_local_xml] the exception is the one of [open]:
    [FileNotFoundError] when nothing exists at a path of proper names
    while every directory on the way does and may be searched;
    [IsADirectoryError] for a directory; [PermissionError] for a file, or
    a directory, that may not be read; [NotADirectoryError] when a
    directory on the way is a regular file; [ValueError] when the path
    holds a NUL character.  [main], which tests [os.path.isfile] first,
    raises its own [FileNotFoundError] whenever [os.stat] finds no
    regular file at the path, and the [PermissionError] of [open] for a
    file that may not be read. *)
Theorem no_request_without_readable_file :
  forall (path : string) (w : world),
    readable_file w path = false ->
    (forall g,
        exists e, New_Validatoe_Inspiah.upload_local_xml g path w = (Raise e, w) /\
                  refusal_of_open w path e) /\
    (forall g,
        exists e, validatorInpire.upload_local_xml g path w = (Raise e, w) /\
                  refusal_of_open w path e) /\
    (forall g typed,
        New_Validatoe_Inspiah.MODE g = "local" ->
        New_Validatoe_Inspiah.LOCAL_XML_PATH g = path ->
        strip typed <> EmptyString ->
        exists e, New_Validatoe_Inspiah.main g typed w = (Raise e, w) /\
                  ((forall rd wr data, stat (files w) path <> Found (RegularFile rd wr data)) ->
                   e = FileNotFoundError ("LOCAL_XML_PATH not found: " +:+ path)) /\
                  (forall wr data, files w !! path = Some (RegularFile false wr data) ->
                   e = PermissionError path)).
Proof.
  intros path w Hnr.
  destruct (open_rb_refuses w path Hnr) as (e & Hopen & Hkind).
  split; [|split].
  - intros g. exists e. split; [|assumption].
    unfold New_Validatoe_Inspiah.upload_local_xml, bind. rewrite Hopen. reflexivity.
  - intros g. exists e. split; [|assumption].
    unfold validatorInpire.upload_local_xml, bind. rewrite Hopen. reflexivity.
  - intros g typed Hmode Hpath Htyped.
    unfold New_Validatoe_Inspiah.main.
    apply String.eqb_neq in Htyped. rewrite Htyped, Hmode, Hpath.
    cbn [String.eqb Ascii.eqb Bool.eqb]. unfold bind at 1. unfold bind at 1.
    unfold os_path_isfile. unfold readable_file in Hnr.
    destruct (stat (files w) path) as [[dr dw dx|[|] wr data]| |h t|t|e0] eqn:Hst;
      try discriminate Hnr;
      try (eexists; split; [reflexivity|]; split; [reflexivity|];
           intros ? ? Hf; rewrite (stat_entry _ _ _ Hf) in Hst; discriminate Hst).
    cbn [negb]. unfold bind at 1.
    unfold New_Validatoe_Inspiah.upload_local_xml, bind, open_rb. rewrite Hst.
    eexists. split; [reflexivity|]. split; [|reflexivity].
    intros H. exfalso. exact (H _ _ _ eq_refl).
Qed.

(** A world with nothing but a working directory, which the process may
    list, write and search. *)
Definition home : gmap string file_entry := {[ "." := Directory true true true ]}.

Definition at_home (answers : list exchange) : world :=
  {| now := 0; service := answers; sent := []; files := home |}.

Lemma no_request_without_readable_file_witness :
  New_Validatoe_Inspiah.upload_local_xml New_Validatoe_Inspiah.settings "missing.xml"
    (at_home [running])
  = (Raise (FileNotFoundError "missing.xml"), at_home [running]).
Proof.
  destruct (proj1 (no_request_without_readable_file "missing.xml" (at_home [running]) eq_refl)
              New_Validatoe_Inspiah.settings) as (e & H & _ & _ & _ & Hnone & _).
  rewrite H, (Hnone eq_refl).
  - reflexivity.
  - split_and!; [discriminate | reflexivity | apply Nat.ltb_lt; reflexivity | reflexivity].
  - repeat constructor. exists true, true. reflexivity.
  - reflexivity.
Defined.

(** C6, as stated, fails on the exception: [upload_local_xml] raises
    [IsADirectoryError] on a directory and [NotADirectoryError] on a
    path below a regular file, and [main] on a file that may not be read
    raises [PermissionError]; none is [FileNotFoundError].  No request
    is sent in any of these cases. *)
Lemma unreadable_is_not_file_not_found :
  let w := {| now := 0; service := [running]; sent := [];
              files := {[ "." := Directory true true true;
                          "data" := Directory true true true;
                          "a.txt" := RegularFile true true "text" ]} |} in
  let locked := {| now := 0; service := [running]; sent := [];
                   files := {[ "." := Directory true true true;
                               New_Validatoe_Inspiah.LOCAL_XML_PATH New_Validatoe_Inspiah.settings
                               := RegularFile false true "<gml/>" ]} |} in
  readable_file w "data" = false /\
  New_Validatoe_Inspiah.upload_local_xml New_Validatoe_Inspiah.settings "data" w
  = (Raise (IsADirectoryError "data"), w) /\
  validatorInpire.upload_local_xml (validatorInpire.settings None) "data" w
  = (Raise (IsADirectoryError "data"), w) /\
  readable_file w "a.txt/b.xml" = false /\
  New_Validatoe_Inspiah.upload_local_xml New_Validatoe_Inspiah.settings "a.txt/b.xml" w
  = (Raise (NotADirectoryError "a.txt/b.xml"), w) /\
  readable_file locked
    (New_Validatoe_Inspiah.LOCAL_XML_PATH New_Validatoe_Inspiah.settings) = false /\
  New_Validatoe_Inspiah.main New_Validatoe_Inspiah.settings "EID1" locked
  = (Raise (PermissionError
              (New_Validatoe_Inspiah.LOCAL_XML_PATH New_Validatoe_Inspiah.settings)), locked).
Proof. repeat split; vm_compute; reflexivity. Qed.

(** ** Lookup by label *)

Import my_validator.

Definition label_is (label : string) (suite : json) : bool :=
  match subscript suite "label" with
  | Return (JStr l) => String.eqb l label
  | _ => false
  end.

Definition id_of (suite : json) : json :=
  match subscript suite "id" with
  | Return i => i
  | _ => JNull
  end.

(** The id of the first suite of the list with exactly this label: the
    policy of the specification. *)
Fixpoint first_match (label : string) (suites : list json) : option json :=
  match suites with
  | [] => None
  | suite :: rest =>
      if label_is label suite then Some (id_of suite) else first_match label rest
  end.

(** The id of the last suite of the list with exactly this label. *)
Fixpoint last_match (label : string) (suites : list json) : option json :=
  match suites with
  | [] => None
  | suite :: rest =>
      match last_match label rest with
      | Some i => Some i
      | None => if label_is label suite then Some (id_of suite) else None
      end
  end.

(** A suite entry with a label that is a string, and an id. *)
Definition labelled (suite : json) : Prop :=
  exists l i, subscript suite "label" = Return (JStr l) /\ subscript suite "id" = Return i.

Lemma hashable_KStr (v : json) (label : string) :
  hashable v = Return (KStr label) -> v = JStr label.
Proof. destruct v as [| [|] | | | |]; cbn; intros H; try discriminate H; congruence. Qed.

Lemma comprehend_lookup (suites : list json) :
  forall (acc lookup : gmap pykey json) (label : string),
    comprehend acc suites = Return lookup ->
    lookup !! KStr label
    = match last_match label suites with
      | Some i => Some i
      | None => acc !! KStr label
      end.
Proof.
  induction suites as [|suite rest IH]; intros acc lookup label H.
  - cbn in H. injection H as <-. reflexivity.
  - cbn [comprehend] in H. unfold and_then in H.
    destruct (add_suite acc suite) as [acc'| |] eqn:Hadd; try discriminate H.
    rewrite (IH acc' lookup label H). cbn [last_match].
    destruct (last_match label rest); [reflexivity|].
    unfold add_suite, and_then in Hadd. unfold label_is, id_of.
    destruct (subscript suite "label") as [lab| |]; try discriminate Hadd.
    destruct (subscript suite "id") as [i| |]; try discriminate Hadd.
    destruct (hashable lab) as [k| |] eqn:Hk; try discriminate Hadd.
    injection Hadd as <-.
    destruct (decide (k = KStr label)) as [->|Hne].
    + rewrite lookup_insert_eq. apply hashable_KStr in Hk as ->.
      rewrite String.eqb_refl. reflexivity.
    + rewrite lookup_insert_ne by exact Hne.
      destruct lab as [| | |l| |]; try reflexivity.
      destruct (String.eqb l label) eqn:Heq; [|reflexivity].
      apply String.eqb_eq in Heq as ->. cbn in Hk. congruence.
Qed.

Lemma comprehend_total (suites : list json) :
  forall acc, Forall labelled suites -> exists lookup, comprehend acc suites = Return lookup.
Proof.
  induction suites as [|suite rest IH]; intros acc Hall; [eexists; reflexivity|].
  inversion Hall as [|? ? (l & i & Hl & Hi) Hrest]; subst.
  cbn [comprehend]. unfold add_suite. rewrite Hl, Hi. cbn [and_then hashable].
  apply IH, Hrest.
Qed.

(** C8, as amended: built from a catalog whose entries have a string
    label and an id, the lookup of [create_test_suite_lookup] matches a
    label by exact string equality; a label that no suite has is absent
    ([.get] gives [None], subscripting raises [KeyError]); and when
    several suites share a label the lookup holds the id of the last of
    them, since a later entry of the comprehension replaces an earlier
    one. *)
Theorem lookup_by_label_last_match :
  forall (results : json) (suites : list json),
    (let* c := subscript results "EtfItemCollection" in
     let* b := subscript c "executableTestSuites" in
     subscript b "ExecutableTestSuite") = Return (JArr suites) ->
    Forall labelled suites ->
    exists lookup,
      create_test_suite_lookup results = Return lookup /\
      forall label,
        lookup_get lookup label = or_none (last_match label suites) /\
        lookup_item lookup label
        = match last_match label suites with
          | Some i => Return i
          | None => Raise (KeyError label)
          end.
Proof.
  intros results suites Hpath Hall.
  destruct (comprehend_total suites ∅ Hall) as [lookup Hc].
  exists lookup. split.
  - unfold create_test_suite_lookup. unfold and_then in *.
    destruct (subscript results "EtfItemCollection") as [c| |]; try discriminate Hpath.
    destruct (subscript c "executableTestSuites") as [b| |]; try discriminate Hpath.
    rewrite Hpath. exact Hc.
  - intros label. unfold lookup_get, lookup_item.
    rewrite (comprehend_lookup suites ∅ lookup label Hc).
    destruct (last_match label suites); [split; reflexivity|].
    rewrite lookup_empty. split; reflexivity.
Qed.

Definition catalog (suites : list json) : json :=
  JObj [("EtfItemCollection",
         JObj [("executableTestSuites", JObj [("ExecutableTestSuite", JArr suites)])])].

Definition suite (label id : string) : json :=
  JObj [("id", JStr id); ("label", JStr label)].

Lemma lookup_by_label_last_match_witness :
  exists lookup,
    create_test_suite_lookup (catalog [suite "Suite A" "EID1"; suite "Suite B" "EID2"])
    = Return lookup /\
    lookup_get lookup "Suite B" = JStr "EID2" /\
    lookup_get lookup "Suite C" = JNull.
Proof.
  destruct (lookup_by_label_last_match
              (catalog [suite "Suite A" "EID1"; suite "Suite B" "EID2"])
              [suite "Suite A" "EID1"; suite "Suite B" "EID2"] eq_refl) as (lookup & Hc & Hl).
  - repeat constructor; eexists; eexists; split; reflexivity.
  - exists lookup. split; [exact Hc|]. split.
    + exact (proj1 (Hl "Suite B")).
    + exact (proj1 (Hl "Suite C")).
Defined.

(** C8, as stated, fails: with two suites under the label [Suite A] the
    lookup gives the id of the second, not of the first. *)
Lemma lookup_by_label_not_first_match :
  let suites := [suite "Suite A" "EID1"; suite "Suite A" "EID2"] in
  first_match "Suite A" suites = Some (JStr "EID1") /\
  (let* lookup := create_test_suite_lookup (catalog suites) in
   Return (lookup_get lookup "Suite A")) = Return (JStr "EID2") /\
  (let* lookup := create_test_suite_lookup (catalog suites) in
   lookup_item lookup "Suite A") = Return (JStr "EID2").
Proof. repeat split; vm_compute; reflexivity. Qed.

(** ** The suite catalog *)

Lemma suite_record_dict (members : list (string * json)) :
  exists record, validatorInpire.suite_record (JObj members) = Return record.
Proof.
  unfold validatorInpire.suite_record, get, get_or, or_, and_then.
  repeat match goal with
         | |- context [truthy ?v] => destruct (truthy v)
         end; eexists; reflexivity.
Qed.

Lemma for_each_records (entries : list json) :
  Forall (fun e => is_dict e = true) entries ->
  exists records,
    for_each validatorInpire.suite_record entries = Return records /\
    Forall2 (fun e record => validatorInpire.suite_record e = Return record) entries records.
Proof.
  induction 1 as [|e rest He _ (records & Hrec & Hall)].
  - exists []. split; [reflexivity|constructor].
  - destruct e as [| | | | |members]; try discriminate He.
    destruct (suite_record_dict members) as [record Hr].
    exists (record :: records). cbn [for_each]. rewrite Hr, Hrec.
    split; [reflexivity|constructor; assumption].
Qed.

Lemma dict_get_nonempty (k : string) (members : list (string * json)) (v : json) :
  dict_get k members = Some v -> truthy (JObj members) = true.
Proof. destruct members; [discriminate|reflexivity]. Qed.

(** The part of C2 that holds.  For a payload whose collection files the
    suites under [executableTestSuites], [normalize_suites], and so
    [get_executable_test_suites], gives
    - for a non-empty array of suite objects, one record per entry, in
      the order of the array;
    - for a single non-empty suite object, a sequence of that one record;
    and for a collection without any of the three names for the suites,
    the empty sequence. *)
Lemma suite_catalog_forms (members collection : list (string * json)) :
  dict_get "EtfItemCollection" members = Some (JObj collection) ->
  (forall block entries,
      dict_get "executableTestSuites" collection = Some (JObj block) ->
      dict_get "ExecutableTestSuite" block = Some (JArr entries) ->
      entries <> [] ->
      Forall (fun e => is_dict e = true) entries ->
      exists records,
        validatorInpire.normalize_suites (JObj members) = Return records /\
        Forall2 (fun e record => validatorInpire.suite_record e = Return record)
          entries records) /\
  (forall block entry,
      dict_get "executableTestSuites" collection = Some (JObj block) ->
      dict_get "ExecutableTestSuite" block = Some (JObj entry) ->
      entry <> [] ->
      exists record,
        validatorInpire.normalize_suites (JObj members) = Return [record] /\
        validatorInpire.suite_record (JObj entry) = Return record) /\
  (dict_get "executableTestSuites" collection = None ->
   dict_get "items" collection = None ->
   dict_get "ExecutableTestSuites" collection = None ->
   validatorInpire.normalize_suites (JObj members) = Return []).
Proof.
  intros Hcol. split; [|split].
  - intros block entries Hb He Hne Hall.
    destruct (for_each_records entries Hall) as (records & Hrec & H2).
    exists records. split; [|exact H2].
    unfold validatorInpire.normalize_suites, get_or, and_then. rewrite Hcol.
    cbn [validatorInpire.find_block contains subscript and_then]. rewrite Hb.
    rewrite (dict_get_nonempty _ _ _ He). cbn [negb].
    unfold get, get_or, or_. rewrite He.
    destruct entries as [|e rest]; [congruence|]. cbn [truthy is_dict iterate].
    exact Hrec.
  - intros block entry Hb He Hne.
    destruct (suite_record_dict entry) as [record Hr].
    exists record. split; [|exact Hr].
    unfold validatorInpire.normalize_suites, get_or, and_then. rewrite Hcol.
    cbn [validatorInpire.find_block contains subscript and_then]. rewrite Hb.
    rewrite (dict_get_nonempty _ _ _ He). cbn [negb].
    unfold get, get_or, or_. rewrite He.
    destruct entry as [|kv rest]; [congruence|]. cbn [truthy is_dict for_each].
    rewrite Hr. reflexivity.
  - intros H1 H2 H3.
    unfold validatorInpire.normalize_suites, get_or, and_then. rewrite Hcol.
    cbn [validatorInpire.find_block contains subscript and_then].
    rewrite H1, H2, H3. reflexivity.
Qed.

(** C2 against the code: for the array form with no entry,
    [{"EtfItemCollection": {"executableTestSuites":
    {"ExecutableTestSuite": []}}}], the payload holds zero suites and
    [get_executable_test_suites] returns one record, made from the
    enclosing block, with [None] for id; the same happens for a
    non-empty block that lacks the [ExecutableTestSuite] name.
    [get_test_suite_ids_safe] of my_validator.py returns the empty list
    on both payloads. *)
Theorem empty_suite_array_yields_a_record :
  let empty_array := catalog [] in
  let no_suite_key :=
    JObj [("EtfItemCollection", JObj [("executableTestSuites", JObj [("count", JNum 0)])])] in
  let stray := JObj [("id", JNull); ("label", JStr EmptyString);
                     ("description", JStr EmptyString)] in
  (forall g,
      fst (validatorInpire.get_executable_test_suites g (fresh [answers_with 200 empty_array]))
      = Return [stray]) /\
  (forall g,
      fst (validatorInpire.get_executable_test_suites g (fresh [answers_with 200 no_suite_key]))
      = Return [stray]) /\
  get_test_suite_ids_safe empty_array = Return [] /\
  get_test_suite_ids_safe no_suite_key = Return [].
Proof. repeat split; intros; vm_compute; reflexivity. Qed.

Lemma suite_catalog_forms_witness :
  exists records,
    validatorInpire.normalize_suites
      (catalog [suite "Suite A" "EID1"; suite "Suite B" "EID2"]) = Return records /\
    Forall2 (fun e record => validatorInpire.suite_record e = Return record)
      [suite "Suite A" "EID1"; suite "Suite B" "EID2"] records.
Proof.
  apply (proj1 (suite_catalog_forms
                  [("EtfItemCollection",
                    JObj [("executableTestSuites",
                           JObj [("ExecutableTestSuite",
                                  JArr [suite "Suite A" "EID1"; suite "Suite B" "EID2"])])])]
                  [("executableTestSuites",
                    JObj [("ExecutableTestSuite",
                           JArr [suite "Suite A" "EID1"; suite "Suite B" "EID2"])])]
                  eq_refl)
           [("ExecutableTestSuite", JArr [suite "Suite A" "EID1"; suite "Suite B" "EID2"])]
           [suite "Suite A" "EID1"; suite "Suite B" "EID2"]).
  - reflexivity.
  - reflexivity.
  - discriminate.
  - repeat constructor.
Defined.

(** ** [get_test_suite_ids_safe] never raises *)

Definition harmless (o : outcome (list json)) : Prop :=
  (exists ids, o = Return ids) \/ o = Raise AttributeError.

Lemma id_if_any_harmless (suite : json) : harmless (id_if_any suite).
Proof.
  unfold harmless, id_if_any, get, get_or, and_then.
  destruct suite as [| | | | |members]; auto.
  destruct (truthy _); eauto.
Qed.

Lemma for_each_id_if_any (items : list json) :
  (exists found, for_each id_if_any items = Return found) \/
  for_each id_if_any items = Raise AttributeError.
Proof.
  induction items as [|item rest IH]; [left; eexists; reflexivity|].
  cbn [for_each].
  destruct (id_if_any_harmless item) as [[ids ->]| ->]; [|auto].
  destruct IH as [[found ->]| ->]; eauto.
Qed.

Lemma safe_extraction_returns (executables_suites_results : json) :
  exists ids, get_test_suite_ids_safe executables_suites_results = Return ids.
Proof.
  unfold get_test_suite_ids_safe, get_or, and_then.
  destruct executables_suites_results as [| | | | |members]; try (eexists; reflexivity).
  destruct (match dict_get "EtfItemCollection" members with Some v => v | None => JObj [] end)
    as [| | | | |collection]; try (eexists; reflexivity).
  destruct (match dict_get "executableTestSuites" collection with
            | Some v => v | None => JObj [] end)
    as [| | | | |block]; try (eexists; reflexivity).
  destruct (match dict_get "ExecutableTestSuite" block with Some v => v | None => JArr [] end)
    as [| | | |items|entry]; try (eexists; reflexivity).
  - destruct (for_each_id_if_any items) as [[found ->]| ->]; eexists; reflexivity.
  - destruct (id_if_any_harmless (JObj entry)) as [[ids ->]| ->]; eexists; reflexivity.
Qed.

(** Whatever the payload, [get_test_suite_ids_safe] returns a list: every
    exception that the extraction can raise is one the [except] clause
    catches. *)
Theorem get_test_suite_ids_safe_returns (executables_suites_results : json) :
  exists ids, get_test_suite_ids_safe executables_suites_results = Return ids.
Proof.
  exact (safe_extraction_returns executables_suites_results).
Qed.

(** ** A report that arrives *)

(** A path at which [open(path, "wb")] creates a file: it is a path of
    proper names that does not end in a slash, nothing is there yet,
    under the spelling given or in normal form, every directory on the
    way exists and may be searched, and the last of them, which is to
    hold the new name, may be written. *)
Definition passable (fs : gmap string file_entry) (d : string) : bool :=
  match entry_at fs d with
  | Some (Directory _ _ true) => true
  | _ => false
  end.

Definition takes_names (fs : gmap string file_entry) (d : string) : bool :=
  match entry_at fs d with
  | Some (Directory _ true _) => true
  | _ => false
  end.

Definition absent (found : option file_entry) : bool :=
  match found with
  | Some _ => false
  | None => true
  end.

Definition creatable (w : world) (path : string) : bool :=
  absent (files w !! path) && absent (entry_at (files w) (normal_form path))
  && negb (String.eqb path EmptyString)
  && negb (has_char nul path)
  && negb (ends_with_slash path)
  && (String.length path <? PATH_MAX)%nat
  && match components path with [] => false | _ => true end
  && forallb proper (components path)
  && forallb (passable (files w)) (holders path)
  && takes_names (files w) (List.last (holders path) ".").

(** Where the report may be stored: at a path that can be created, or
    over a file that the process may write. *)
Definition storable (w : world) (path : string) : Prop :=
  creatable w path = true \/
  exists rd old, files w !! path = Some (RegularFile rd true old).

Lemma passable_searchable (fs : gmap string file_entry) (dirs : list string) :
  forallb (passable fs) dirs = true ->
  Forall (fun d => exists r wr, entry_at fs d = Some (Directory r wr true)) dirs.
Proof.
  induction dirs as [|d rest IH]; [constructor|]. cbn [forallb].
  intros H. apply andb_true_iff in H as [Hd Hrest]. constructor; [|exact (IH Hrest)].
  unfold passable in Hd. destruct (entry_at fs d) as [[r wr [|]|]|]; try discriminate Hd. eauto.
Qed.

Lemma creatable_created (w : world) (path : string) :
  creatable w path = true ->
  stat (files w) path = Free (Some (List.last (holders path) ".")) false /\
  takes_names (files w) (List.last (holders path) ".") = true.
Proof.
  unfold creatable. rewrite !andb_true_iff, !negb_true_iff.
  intros (((((((((Hf & Hn) & Hne) & Hnul) & Hslash) & Hlen) & Hcomps) & Hproper) & Hdirs)
          & Hparent).
  split; [|exact Hparent].
  assert (files w !! path = None) as Hf'
    by (unfold absent in Hf; destruct (files w !! path); [discriminate Hf|reflexivity]).
  assert (entry_at (files w) (normal_form path) = None) as Hn'
    by (unfold absent in Hn; destruct (entry_at (files w) (normal_form path));
        [discriminate Hn|reflexivity]).
  assert (plain path) as Hplain.
  { split_and!; [intros ->; discriminate Hne|exact Hnul|apply Nat.ltb_lt, Hlen|exact Hproper]. }
  rewrite (stat_plain _ _ Hf' Hplain).
  rewrite (walk_plain _ _ _ _ [] None Hproper (passable_searchable _ _ Hdirs)), app_nil_r.
  fold (normal_form path). rewrite Hn', Hslash. fold (holders path).
  destruct (components path); [discriminate Hcomps|reflexivity].
Qed.

Lemma storable_same (w w' : world) (path : string) :
  files w' = files w -> storable w path -> storable w' path.
Proof. unfold storable, creatable. intros ->. exact id. Qed.

Lemma write_wb_stores (w : world) (path data : string) :
  storable w path ->
  exists rd,
    write_wb path data w
    = (Return tt, {| now := now w; service := service w; sent := sent w;
                     files := <[path := RegularFile rd true data]> (files w) |}).
Proof.
  unfold write_wb. intros [Hc|(rd & old & Hf)].
  - destruct (creatable_created w path Hc) as [Hst Hp]. rewrite Hst.
    unfold takes_names in Hp.
    destruct (entry_at (files w) (List.last (holders path) ".")) as [[r [|] x|]|];
      try discriminate Hp. eexists. reflexivity.
  - rewrite (stat_entry _ _ _ Hf). eexists. reflexivity.
Qed.

(** When the service answers the report request without an error status
    and the output path can be created or holds a file that may be
    written, [download_report_html] returns the path, the file at the
    path holds the bytes of the response, and no other file is
    touched. *)
Theorem download_report_writes_content :
  forall (g : New_Validatoe_Inspiah.globals) (run_id : json) (out_path : string)
         (w : world) (ex : exchange) (rest : list exchange) (r : response),
    service w = ex :: rest ->
    reply ex = Answered r ->
    is_error_status (status_code r) = false ->
    storable w out_path ->
    let w' := snd (New_Validatoe_Inspiah.download_report_html g run_id out_path w) in
    fst (New_Validatoe_Inspiah.download_report_html g run_id out_path w) = Return out_path /\
    (exists rd, files w' !! out_path = Some (RegularFile rd true (content r))) /\
    forall other, other <> out_path -> files w' !! other = files w !! other.
Proof.
  intros g run_id out_path w ex rest r Hs Hr Hc Hfree w'. subst w'.
  unfold New_Validatoe_Inspiah.download_report_html, requests_get, bind.
  rewrite (send_answered _ _ _ _ _ Hs Hr). unfold raise_for_status. rewrite Hc.
  unfold ret.
  match goal with
  | |- context [write_wb out_path (content r) ?w1] =>
      destruct (write_wb_stores w1 out_path (content r) Hfree) as [rd ->]
  end.
  cbn [fst snd files served]. split; [reflexivity|]. split.
  - exists rd. apply lookup_insert_eq.
  - intros other Hne. apply lookup_insert_ne. apply not_eq_sym, Hne.
Qed.

Lemma download_report_writes_content_witness :
  let arrives := {| took := 2;
                    reply := Answered {| status_code := 200; content := "<html>new</html>";
                                         decoded := None |} |} in
  let w := {| now := 0; service := [arrives]; sent := []; files := home |} in
  files (snd (New_Validatoe_Inspiah.download_report_html New_Validatoe_Inspiah.settings
                (JStr "RUN1") "report_RUN1.html" w)) !! "report_RUN1.html"
  = Some (RegularFile true true "<html>new</html>").
Proof.
  intros arrives w.
  destruct (download_report_writes_content New_Validatoe_Inspiah.settings (JStr "RUN1")
              "report_RUN1.html" w arrives []
              {| status_code := 200; content := "<html>new</html>"; decoded := None |}
              eq_refl eq_refl eq_refl (or_introl eq_refl))
    as (_ & (rd & Hfile) & _).
  rewrite Hfile. vm_compute in Hfile. injection Hfile as <-. reflexivity.
Defined.

(* ================================================================== *)
(** * Further properties of the scripts *)
(* ================================================================== *)

(** ** The two [start_test_run] end the same way *)

(** The message of the [RuntimeError] aside, what validatorInpire.py
    makes of an outcome of New_Validatoe_Inspiah.py. *)
Definition reworded (o : outcome json) : outcome json :=
  match o with
  | Raise (RuntimeError _ shown) =>
      Raise (RuntimeError "Could not find test run id in response: " shown)
  | other => other
  end.

Lemma find_run_id_same (resp : json) :
  validatorInpire.find_run_id resp = New_Validatoe_Inspiah.find_run_id resp.
Proof.
  unfold validatorInpire.find_run_id, New_Validatoe_Inspiah.find_run_id, or_, and_then.
  change (validatorInpire.nested_run_id resp) with (New_Validatoe_Inspiah.nested_run_id resp).
  destruct (New_Validatoe_Inspiah.nested_run_id resp) as [x| |]; [|reflexivity..].
  destruct (truthy x); reflexivity.
Qed.

Lemma find_run_id_no_runtime_error (resp : json) (m : string) (shown : json) :
  New_Validatoe_Inspiah.find_run_id resp <> Raise (RuntimeError m shown).
Proof.
  unfold New_Validatoe_Inspiah.find_run_id. rewrite New_nested_run_id_chain.
  change (get resp "id") with (get_chain ["id"] resp).
  change (get resp "testRunId") with (get_chain ["testRunId"] resp).
  intros H.
  apply or_raises in H as [H|H]; [|apply or_raises in H as [H|H]];
    apply get_chain_raises in H as [H _]; discriminate H.
Qed.

(** On the same service the two scripts' [start_test_run] end alike:
    the same id is returned or the same exception raised, the wording of
    the missing-id [RuntimeError] being the only difference.  The one
    tries the three paths in a single [or] chain, the other in two
    steps. *)
Theorem start_test_run_scripts_agree :
  forall (g : New_Validatoe_Inspiah.globals) (g' : validatorInpire.globals)
         (label : string) (ids : list string) (test_object : json) (w : world),
    fst (validatorInpire.start_test_run g' label ids test_object w)
    = reworded (fst (New_Validatoe_Inspiah.start_test_run g label ids test_object w)).
Proof.
  intros g g' label ids test_object w.
  unfold validatorInpire.start_test_run, New_Validatoe_Inspiah.start_test_run,
    requests_post, send, bind, raise_for_status, json_of, lift, raise, ret.
  destruct (service w) as [|ex rest]; [reflexivity|].
  destruct (reply ex) as [r|]; [|reflexivity].
  destruct (is_error_status (status_code r)); [reflexivity|].
  destruct (decoded r) as [resp|]; [|reflexivity].
  rewrite find_run_id_same.
  destruct (New_Validatoe_Inspiah.find_run_id resp) as [x|e|] eqn:Hf; [| |reflexivity].
  - destruct (truthy x); reflexivity.
  - destruct e; try reflexivity.
    exfalso. exact (find_run_id_no_runtime_error _ _ _ Hf).
Qed.

(** ** An id that is returned was found *)

Lemma first_resolved_found (paths : list (list string)) (v x : json) :
  first_resolved paths v = Some x ->
  exists p, In p paths /\ at_path p v = Some x /\ truthy x = true.
Proof.
  induction paths as [|p rest IH]; [discriminate|].
  cbn [first_resolved]. unfold resolves at 1.
  destruct (at_path p v) as [y|] eqn:Hp.
  - destruct (truthy y) eqn:Hy.
    + intros H. injection H as <-. exists p. split; [left; reflexivity|]. auto.
    + intros H. destruct (IH H) as (q & Hin & Hq). exists q. split; [right; exact Hin|exact Hq].
  - intros H. destruct (IH H) as (q & Hin & Hq). exists q. split; [right; exact Hin|exact Hq].
Qed.

Lemma find_run_id_found (resp x : json) :
  New_Validatoe_Inspiah.find_run_id resp = Return x -> truthy x = true ->
  exists p, In p run_id_paths /\ at_path p resp = Some x.
Proof.
  intros Hf Hx.
  destruct (walkable ["EtfItemCollection"; "testRuns"; "TestRun"; "id"] resp) eqn:Hw.
  - destruct (New_find_run_id_spec resp Hw) as (y & Hy & Hfirst).
    rewrite Hf in Hy. injection Hy as <-. rewrite Hx in Hfirst.
    destruct (first_resolved_found _ _ _ Hfirst) as (p & Hin & Hp & _). eauto.
  - unfold New_Validatoe_Inspiah.find_run_id in Hf.
    rewrite New_nested_run_id_chain, (get_chain_not_walkable _ _ Hw) in Hf.
    discriminate Hf.
Qed.

(** Whatever the service answers, an id that [start_test_run] returns is
    a non-empty value that stands in the decoded answer at one of the
    three paths, and the answer carried no error status: the function
    never makes an id up and never returns an empty one.  This holds for
    both scripts. *)
Theorem start_test_run_returns_found_id :
  forall (label : string) (ids : list string) (test_object : json) (w : world) (v : json),
    (forall g,
        fst (New_Validatoe_Inspiah.start_test_run g label ids test_object w) = Return v ->
        truthy v = true /\
        exists ex rest r resp p,
          service w = ex :: rest /\ reply ex = Answered r /\
          is_error_status (status_code r) = false /\ decoded r = Some resp /\
          In p run_id_paths /\ at_path p resp = Some v) /\
    (forall g,
        fst (validatorInpire.start_test_run g label ids test_object w) = Return v ->
        truthy v = true /\
        exists ex rest r resp p,
          service w = ex :: rest /\ reply ex = Answered r /\
          is_error_status (status_code r) = false /\ decoded r = Some resp /\
          In p run_id_paths /\ at_path p resp = Some v).
Proof.
  intros label ids test_object w v.
  assert (HNew : forall g,
             fst (New_Validatoe_Inspiah.start_test_run g label ids test_object w) = Return v ->
             truthy v = true /\
             exists ex rest r resp p,
               service w = ex :: rest /\ reply ex = Answered r /\
               is_error_status (status_code r) = false /\ decoded r = Some resp /\
               In p run_id_paths /\ at_path p resp = Some v).
  { intros g.
    unfold New_Validatoe_Inspiah.start_test_run, requests_post, send, bind,
      raise_for_status, json_of, lift, raise, ret.
    destruct (service w) as [|ex rest]; [discriminate|].
    destruct (reply ex) as [r|] eqn:Hr; [|discriminate].
    destruct (is_error_status (status_code r)) eqn:Hc; [discriminate|].
    destruct (decoded r) as [resp|] eqn:Hj; [|discriminate].
    destruct (New_Validatoe_Inspiah.find_run_id resp) as [x| |] eqn:Hf; try discriminate.
    destruct (truthy x) eqn:Hx; cbn [negb fst]; [|discriminate].
    intros H. injection H as <-. split; [exact Hx|].
    destruct (find_run_id_found resp x Hf Hx) as (p & Hin & Hp).
    exists ex, rest, r, resp, p. auto 10. }
  split; [exact HNew|].
  intros g.
  unfold validatorInpire.start_test_run, requests_post, send, bind,
    raise_for_status, json_of, lift, raise, ret.
  destruct (service w) as [|ex rest]; [discriminate|].
  destruct (reply ex) as [r|] eqn:Hr; [|discriminate].
  destruct (is_error_status (status_code r)) eqn:Hc; [discriminate|].
  destruct (decoded r) as [resp|] eqn:Hj; [|discriminate].
  rewrite find_run_id_same.
  destruct (New_Validatoe_Inspiah.find_run_id resp) as [x| |] eqn:Hf; try discriminate.
  destruct (truthy x) eqn:Hx; cbn [negb fst]; [|discriminate].
  intros H. injection H as <-. split; [exact Hx|].
  destruct (find_run_id_found resp x Hf Hx) as (p & Hin & Hp).
  exists ex, rest, r, resp, p. auto 10.
Qed.

Lemma start_test_run_returns_found_id_witness :
  truthy (JStr "RUN1") = true /\
  exists ex rest r resp p,
    service (fresh [answers_with 200 scenario_A_payload]) = ex :: rest /\
    reply ex = Answered r /\
    is_error_status (status_code r) = false /\ decoded r = Some resp /\
    In p run_id_paths /\ at_path p resp = Some (JStr "RUN1").
Proof.
  exact (proj1 (start_test_run_returns_found_id "Suite A run" ["EID1"]
                  (JObj [("id", JStr "EIDupload")])
                  (fresh [answers_with 200 scenario_A_payload]) (JStr "RUN1"))
           New_Validatoe_Inspiah.settings eq_refl).
Defined.

(** ** The sentinel is the only difference between the status readers *)

(** What New_Validatoe_Inspiah.py gives for an outcome of the status
    expression of validatorInpire.py. *)
Definition with_sentinel (o : outcome json) : outcome json :=
  match o with
  | Return v => Return (if truthy v then v else JStr "UNKNOWN")
  | other => other
  end.

Lemma status_of_sentinel (js : json) :
  New_Validatoe_Inspiah.status_of js = with_sentinel (validatorInpire.status_of js).
Proof.
  unfold New_Validatoe_Inspiah.status_of, validatorInpire.status_of, with_sentinel, or_.
  destruct (let* t := get_or js "TestRun" (JObj []) in get t "status") as [a| |];
    [|reflexivity..].
  destruct (truthy a) eqn:Ha; [rewrite Ha; reflexivity|].
  destruct (get js "status") as [b| |]; [|reflexivity..].
  destruct (truthy b) eqn:Hb; [rewrite Hb; reflexivity|].
  destruct (let* t := get_or js "EtfItem" (JObj []) in get t "status") as [c| |];
    [|reflexivity..].
  destruct (truthy c); reflexivity.
Qed.

(** On the same service, [get_test_run_status] of New_Validatoe_Inspiah.py
    ends as the status expression of validatorInpire.py does on the reply
    that its own [get_test_run_status] returns, except that an empty
    status becomes [UNKNOWN]; so the status that New_Validatoe_Inspiah.py
    hands to its loop is never empty. *)
Theorem get_test_run_status_never_empty :
  forall (g : New_Validatoe_Inspiah.globals) (g' : validatorInpire.globals)
         (run_id : json) (w : world),
    (fst (New_Validatoe_Inspiah.get_test_run_status g run_id w)
     = match fst (validatorInpire.get_test_run_status g' run_id w) with
       | Return js => with_sentinel (validatorInpire.status_of js)
       | Raise e => Raise e
       | Blocked => Blocked
       end) /\
    (match fst (New_Validatoe_Inspiah.get_test_run_status g run_id w) with
     | Return status => truthy status = true
     | _ => True
     end).
Proof.
  intros g g' run_id w.
  rewrite New_get_status_poll, Inpire_get_status_poll. unfold poll, New_observe, and_then.
  destruct (service w) as [|ex rest]; [split; [reflexivity|exact Logic.I]|].
  cbn [fst]. destruct (answered_json ex) as [js| |]; [|split; [reflexivity|exact Logic.I]..].
  rewrite status_of_sentinel. split; [reflexivity|].
  unfold with_sentinel.
  destruct (validatorInpire.status_of js) as [v| |]; [|exact Logic.I..].
  destruct (truthy v) eqn:Hv; [exact Hv|reflexivity].
Qed.

(** ** The two poll loops end the same way *)

Section TwoLoops.

Variables rq1 rq2 : request.
Variables observe1 observe2 : exchange -> outcome json.
Variables check1 check2 : json -> outcome bool.
Variables T I : Q.
Variables msg1 msg2 : string.

(** What a poll decides: how the loop ends, or nothing when it goes on. *)
Definition verdict (observe : exchange -> outcome json) (check : json -> outcome bool)
    (ex : exchange) : option (outcome json) :=
  match observe ex with
  | Return v =>
      match check v with
      | Return true => Some (Return v)
      | Return false => None
      | Raise e => Some (Raise e)
      | Blocked => Some Blocked
      end
  | Raise e => Some (Raise e)
  | Blocked => Some Blocked
  end.

Definition retimed (o : outcome json) : outcome json :=
  match o with
  | Raise (TimeoutError _) => Raise (TimeoutError msg2)
  | other => other
  end.

Hypothesis same_verdict :
  forall ex, verdict observe1 check1 ex = verdict observe2 check2 ex.
Hypothesis observe1_no_timeout : forall ex m, observe1 ex <> Raise (TimeoutError m).
Hypothesis check1_no_timeout : forall v m, check1 v <> Raise (TimeoutError m).

Lemma loops_agree (fuel : nat) :
  forall (start : Q) (w1 w2 : world),
    now w1 = now w2 -> service w1 = service w2 ->
    fst (loop rq2 observe2 check2 T I msg2 fuel start w2)
    = retimed (fst (loop rq1 observe1 check1 T I msg1 fuel start w1)).
Proof.
  induction fuel as [|fuel IH]; intros start w1 w2 Hnow Hserv; [reflexivity|].
  cbn [loop]. unfold bind, poll, lift, time_time, time_sleep, raise, ret.
  rewrite Hserv. destruct (service w2) as [|ex rest]; [reflexivity|].
  pose proof (same_verdict ex) as Hv. unfold verdict in Hv.
  destruct (observe1 ex) as [v1|e1|] eqn:Ho1.
  - destruct (check1 v1) as [[|]|e1|] eqn:Hc1;
      (destruct (observe2 ex) as [v2|e2|];
       [destruct (check2 v2) as [[|]|e2|]|..]); try discriminate Hv.
    + injection Hv as ->. reflexivity.
    + cbn [served now]. rewrite Hnow.
      destruct (negb (Qle_bool (now w2 + took ex - start) T)); [reflexivity|].
      destruct (Qle_bool 0 I); [|reflexivity].
      apply IH; cbn [slept served now service]; congruence.
    + injection Hv as <-. cbn [fst retimed].
      destruct e1; try reflexivity. exfalso. exact (check1_no_timeout _ _ Hc1).
    + injection Hv as <-. cbn [fst retimed].
      destruct e1; try reflexivity. exfalso. exact (check1_no_timeout _ _ Hc1).
    + reflexivity.
    + reflexivity.
  - (destruct (observe2 ex) as [v2|e2|];
     [destruct (check2 v2) as [[|]|e2|]|..]); try discriminate Hv;
      injection Hv as <-; cbn [fst retimed];
      (destruct e1; try reflexivity; exfalso; exact (observe1_no_timeout _ _ Ho1)).
  - (destruct (observe2 ex) as [v2|e2|];
     [destruct (check2 v2) as [[|]|e2|]|..]); try discriminate Hv; reflexivity.
Qed.

End TwoLoops.

Lemma scripts_same_verdict (ex : exchange) :
  verdict New_observe New_check ex = verdict Inpire_observe validatorInpire.finished ex.
Proof.
  unfold verdict, New_observe, Inpire_observe, and_then.
  destruct (answered_json ex) as [js| |]; [|reflexivity..].
  rewrite status_of_sentinel. unfold with_sentinel.
  destruct (validatorInpire.status_of js) as [v| |]; [|reflexivity..].
  unfold validatorInpire.finished.
  destruct (truthy v) eqn:Hv; [|reflexivity].
  unfold New_check, and_then. destruct (str_upper v) as [up| |]; reflexivity.
Qed.

(** With the same timeout and interval and on the same service, the two
    scripts' [wait_until_finished] end alike: the same status is
    returned or the same exception raised, the message of the
    [TimeoutError] being the only difference.  The [UNKNOWN] sentinel of
    the one and the empty status of the other both keep the loop going. *)
Theorem wait_until_finished_scripts_agree :
  forall (g : New_Validatoe_Inspiah.globals) (g' : validatorInpire.globals)
         (run_id : json) (w : world),
    validatorInpire.POLL_TIMEOUT g' = New_Validatoe_Inspiah.POLL_TIMEOUT g ->
    validatorInpire.POLL_EVERY g' = New_Validatoe_Inspiah.POLL_EVERY g ->
    fst (validatorInpire.wait_until_finished g' run_id w)
    = retimed "Gave up waiting for the test run."
        (fst (New_Validatoe_Inspiah.wait_until_finished g run_id w)).
Proof.
  intros g g' run_id w HT HI.
  rewrite Inpire_wait_until_finished_loop, New_wait_until_finished_loop.
  unfold Inpire_loop, New_loop. rewrite HT, HI.
  apply loops_agree; try reflexivity.
  - exact scripts_same_verdict.
  - exact New_observe_no_timeout.
  - exact New_check_no_timeout.
Qed.

Lemma wait_until_finished_scripts_agree_witness :
  fst (validatorInpire.wait_until_finished (validatorInpire.settings None) (JStr "RUN1")
         (fresh running_then_completed))
  = retimed "Gave up waiting for the test run."
      (fst (New_Validatoe_Inspiah.wait_until_finished New_Validatoe_Inspiah.settings
              (JStr "RUN1") (fresh running_then_completed))).
Proof.
  exact (wait_until_finished_scripts_agree New_Validatoe_Inspiah.settings
           (validatorInpire.settings None) (JStr "RUN1") (fresh running_then_completed)
           eq_refl eq_refl).
Defined.

(** ** What the loop does to the world *)

Section LoopEffects.

Variable rq : request.
Variable observe : exchange -> outcome json.
Variable check : json -> outcome bool.
Variables T I : Q.
Variable msg : string.

(** The loop writes no file; it sends [rq] and nothing else, once per
    answer it uses up and once more if it is left without an answer. *)
Lemma loop_effects (fuel : nat) :
  forall (start : Q) (w : world),
    let w' := snd (loop rq observe check T I msg fuel start w) in
    files w' = files w /\
    exists consumed n,
      service w = consumed ++ service w' /\
      sent w' = sent w ++ repeat rq n /\
      (length consumed <= n <= S (length consumed))%nat.
Proof.
  induction fuel as [|fuel IH]; intros start w; cbn zeta.
  - split; [reflexivity|]. exists [], 0%nat. cbn. rewrite app_nil_r. auto with arith.
  - cbn [loop]. unfold bind, poll, lift, time_time, time_sleep, raise, ret.
    destruct (service w) as [|ex rest] eqn:Hs.
    + cbn [snd unanswered files sent service]. split; [reflexivity|].
      exists [], 1%nat. cbn. auto with arith.
    + assert (Hone : files (served w rq ex rest) = files w /\
                     exists consumed n,
                       ex :: rest = consumed ++ service (served w rq ex rest) /\
                       sent (served w rq ex rest) = sent w ++ repeat rq n /\
                       (length consumed <= n <= S (length consumed))%nat).
      { split; [reflexivity|]. exists [ex], 1%nat. cbn. auto with arith. }
      destruct (observe ex) as [v| |]; [|exact Hone..].
      destruct (check v) as [[|]| |]; try exact Hone.
      destruct (negb (Qle_bool _ T)); [exact Hone|].
      destruct (Qle_bool 0 I); [|exact Hone].
      specialize (IH start (slept (served w rq ex rest) I)). cbn zeta in IH.
      destruct IH as (Hfiles & consumed & n & Hserv & Hsent & Hn).
      cbn [slept served files sent service] in *.
      split; [exact Hfiles|].
      exists (ex :: consumed), (S n). split; [rewrite Hserv at 1; reflexivity|].
      split; [rewrite Hsent, <- app_assoc; reflexivity|].
      cbn [length]. lia.
Qed.

End LoopEffects.

(** Whatever the service does, [wait_until_finished] writes no file, and
    every request it sends is the GET of the status of its run: one for
    each answer it uses up, and one more if the service leaves it without
    an answer.  This holds for both scripts. *)
Theorem wait_until_finished_only_polls :
  forall (run_id : json) (w : world),
    (forall g,
        let w' := snd (New_Validatoe_Inspiah.wait_until_finished g run_id w) in
        files w' = files w /\
        exists consumed n,
          service w = consumed ++ service w' /\
          sent w' = sent w ++ repeat (New_status_request g run_id) n /\
          (length consumed <= n <= S (length consumed))%nat) /\
    (forall g,
        let w' := snd (validatorInpire.wait_until_finished g run_id w) in
        files w' = files w /\
        exists consumed n,
          service w = consumed ++ service w' /\
          sent w' = sent w ++ repeat (Inpire_status_request g run_id) n /\
          (length consumed <= n <= S (length consumed))%nat).
Proof.
  intros run_id w. split; intros g.
  - rewrite New_wait_until_finished_loop. unfold New_loop. apply loop_effects.
  - rewrite Inpire_wait_until_finished_loop. unfold Inpire_loop. apply loop_effects.
Qed.

(** ** Which calls touch the file system *)

(** A computation that leaves every file as it was, however it ends. *)
Definition frames {A} (m : M A) : Prop :=
  forall w, files (snd (m w)) = files w.

Lemma frames_bind {A B} (m : M A) (k : A -> M B) :
  frames m -> (forall a, frames (k a)) -> frames (bind m k).
Proof.
  intros Hm Hk w. unfold bind. specialize (Hm w).
  destruct (m w) as [[a| |] w1]; cbn [snd] in *; [|exact Hm..].
  rewrite (Hk a w1). exact Hm.
Qed.

Lemma frames_ret {A} (a : A) : frames (ret a).
Proof. intros w. reflexivity. Qed.

Lemma frames_raise {A} (e : exn) : frames (@raise A e).
Proof. intros w. reflexivity. Qed.

Lemma frames_lift {A} (o : outcome A) : frames (lift o).
Proof. intros w. reflexivity. Qed.

Lemma frames_send (rq : request) : frames (send rq).
Proof.
  intros w. unfold send. destruct (service w) as [|ex rest]; [reflexivity|].
  destruct (reply ex); reflexivity.
Qed.

Lemma frames_raise_for_status (r : response) : frames (raise_for_status r).
Proof. intros w. unfold raise_for_status. destruct (is_error_status _); reflexivity. Qed.

Lemma frames_json_of (r : response) : frames (json_of r).
Proof. intros w. unfold json_of. destruct (decoded r); reflexivity. Qed.

Lemma frames_open_rb (path : string) : frames (open_rb path).
Proof.
  intros w. unfold open_rb.
  destruct (stat (files w) path) as [[[|] dw dx|[|] wr data]| |h t|t|e0]; reflexivity.
Qed.

Lemma frames_isfile (path : string) : frames (os_path_isfile path).
Proof. intros w. reflexivity. Qed.

Lemma frames_time_time : frames time_time.
Proof. intros w. reflexivity. Qed.

Lemma frames_time_sleep (d : Q) : frames (time_sleep d).
Proof. intros w. unfold time_sleep. destruct (Qle_bool 0 d); reflexivity. Qed.

Ltac frame :=
  repeat first
    [ apply frames_bind; [|intros ?]
    | apply frames_ret | apply frames_raise | apply frames_lift
    | apply frames_send | apply frames_raise_for_status | apply frames_json_of
    | apply frames_open_rb | apply frames_isfile
    | apply frames_time_time | apply frames_time_sleep ].

Lemma New_upload_frames (g : New_Validatoe_Inspiah.globals) (path : string) :
  frames (New_Validatoe_Inspiah.upload_local_xml g path).
Proof. unfold New_Validatoe_Inspiah.upload_local_xml, requests_post. frame. Qed.

Lemma New_start_frames (g : New_Validatoe_Inspiah.globals) (label : string)
    (ids : list string) (test_object : json) :
  frames (New_Validatoe_Inspiah.start_test_run g label ids test_object).
Proof.
  unfold New_Validatoe_Inspiah.start_test_run, requests_post. frame.
  destruct (negb (truthy _)); frame.
Qed.

Lemma New_status_frames (g : New_Validatoe_Inspiah.globals) (run_id : json) :
  frames (New_Validatoe_Inspiah.get_test_run_status g run_id).
Proof. unfold New_Validatoe_Inspiah.get_test_run_status, requests_get. frame. Qed.

Lemma New_wait_frames (g : New_Validatoe_Inspiah.globals) (run_id : json) :
  frames (New_Validatoe_Inspiah.wait_until_finished g run_id).
Proof.
  intros w. rewrite New_wait_until_finished_loop. unfold New_loop.
  apply (loop_effects _ _ _ _ _ _ _ _ w).
Qed.

Lemma Inpire_suites_frames (g : validatorInpire.globals) :
  frames (validatorInpire.get_executable_test_suites g).
Proof. unfold validatorInpire.get_executable_test_suites, requests_get. frame. Qed.

Lemma Inpire_upload_frames (g : validatorInpire.globals) (path : string) :
  frames (validatorInpire.upload_local_xml g path).
Proof. unfold validatorInpire.upload_local_xml, requests_post. frame. Qed.

Lemma Inpire_start_frames (g : validatorInpire.globals) (label : string)
    (ids : list string) (test_object : json) :
  frames (validatorInpire.start_test_run g label ids test_object).
Proof.
  unfold validatorInpire.start_test_run, requests_post. frame.
  destruct (negb (truthy _)); frame.
Qed.

Lemma Inpire_status_frames (g : validatorInpire.globals) (test_run_id : json) :
  frames (validatorInpire.get_test_run_status g test_run_id).
Proof. unfold validatorInpire.get_test_run_status, requests_get. frame. Qed.

(** A computation that at most stores one regular file, at [path]. *)
Definition stores_at_most {A} (path : string) (m : M A) : Prop :=
  forall w,
    files (snd (m w)) = files w \/
    exists rd data, files (snd (m w)) = <[path := RegularFile rd true data]> (files w).

Lemma New_download_stores (g : New_Validatoe_Inspiah.globals) (run_id : json)
    (out_path : string) :
  stores_at_most out_path (New_Validatoe_Inspiah.download_report_html g run_id out_path).
Proof.
  intros w. unfold New_Validatoe_Inspiah.download_report_html, requests_get, bind.
  destruct (send _ w) as [[r| |] w1] eqn:Hsend;
    pose proof (frames_send
                  {| req_method := GET;
                     req_url := New_Validatoe_Inspiah.API g +:+ "/TestRuns/"
                                +:+ py_str run_id +:+ ".html";
                     req_headers := []; req_body := NoBody;
                     req_timeout := Some 180%Z |} w) as Hf;
    rewrite Hsend in Hf; cbn [snd] in Hf; [|left; exact Hf..].
  unfold raise_for_status.
  destruct (is_error_status (status_code r)); [left; exact Hf|].
  unfold ret, write_wb. rewrite Hf.
  destruct (stat (files w) out_path) as [[dr dw dx|rd [|] data]| |[h|] [|]|[|]|e0];
    try destruct (entry_at (files w) h) as [[r0 [|] x0|]|]; cbn [snd files];
    try (left; exact Hf); right; eauto.
Qed.

(** In New_Validatoe_Inspiah.py only [download_report_html] writes:
    [upload_local_xml], [start_test_run], [get_test_run_status] and
    [wait_until_finished] leave every file as it was, however they end;
    and a whole run of [main] leaves the file system as it was or stores
    exactly one file, named [report_<run id>.html] after a run id. *)
Theorem only_the_report_is_written :
  forall (g : New_Validatoe_Inspiah.globals) (w : world),
    (forall path, files (snd (New_Validatoe_Inspiah.upload_local_xml g path w)) = files w) /\
    (forall label ids test_object,
        files (snd (New_Validatoe_Inspiah.start_test_run g label ids test_object w))
        = files w) /\
    (forall run_id,
        files (snd (New_Validatoe_Inspiah.get_test_run_status g run_id w)) = files w /\
        files (snd (New_Validatoe_Inspiah.wait_until_finished g run_id w)) = files w) /\
    (forall typed,
        files (snd (New_Validatoe_Inspiah.main g typed w)) = files w \/
        exists run_id rd data,
          files (snd (New_Validatoe_Inspiah.main g typed w))
          = <["report_" +:+ py_str run_id +:+ ".html" := RegularFile rd true data]> (files w)).
Proof.
  intros g w. split_and!.
  - intros path. apply New_upload_frames.
  - intros label ids test_object. apply New_start_frames.
  - intros run_id. split; [apply New_status_frames|apply New_wait_frames].
  - intros typed.
    cut (forall w', w' = snd (New_Validatoe_Inspiah.main g typed w) ->
                    files w' = files w \/
                    exists run_id rd data,
                      files w' = <["report_" +:+ py_str run_id +:+ ".html"
                                   := RegularFile rd true data]> (files w));
      [intros H; exact (H _ eq_refl)|].
    intros w' Hw'. unfold New_Validatoe_Inspiah.main in Hw'.
    destruct (String.eqb (strip typed) EmptyString); [left; subst w'; reflexivity|].
    set (prefix := if String.eqb (New_Validatoe_Inspiah.MODE g) "local" then _ else _) in Hw'.
    assert (Hprefix : frames prefix).
    { subst prefix.
      destruct (String.eqb (New_Validatoe_Inspiah.MODE g) "local").
      - frame. destruct (negb _); frame; try apply New_upload_frames.
      - destruct (String.eqb (New_Validatoe_Inspiah.MODE g) "remote"); [frame|].
        destruct (String.eqb (New_Validatoe_Inspiah.MODE g) "service"); frame. }
    unfold bind at 1 in Hw'. specialize (Hprefix w).
    destruct (prefix w) as [[test_object| |] w0]; cbn [snd] in *;
      [|left; congruence..].
    unfold bind at 1 in Hw'.
    pose proof (New_start_frames g (New_Validatoe_Inspiah.RUN_LABEL g) [strip typed]
                  test_object w0) as Hstart.
    destruct (New_Validatoe_Inspiah.start_test_run _ _ _ _ w0) as [[run_id| |] w1];
      cbn [snd] in *; [|left; congruence..].
    unfold bind at 1 in Hw'.
    pose proof (New_wait_frames g run_id w1) as Hwait.
    destruct (New_Validatoe_Inspiah.wait_until_finished g run_id w1) as [[final| |] w2];
      cbn [snd] in *; [|left; congruence..].
    unfold bind at 1 in Hw'.
    pose proof (New_download_stores g run_id ("report_" +:+ py_str run_id +:+ ".html") w2)
      as Hstore.
    assert (Hw2 : files w2 = files w) by congruence.
    destruct (New_Validatoe_Inspiah.download_report_html g run_id _ w2) as [[out| |] w3];
      unfold ret in Hw'; cbn [snd] in *; subst w';
      (destruct Hstore as [Hsame|(rd & data & Hput)];
       [left; congruence|right; exists run_id, rd, data; rewrite Hput, Hw2; reflexivity]).
Qed.

(** ** A whole run of [main] *)

Lemma bind_return {A B} (m : M A) (k : A -> M B) (w w1 : world) (a : A) :
  m w = (Return a, w1) -> bind m k w = k a w1.
Proof. intros H. unfold bind. rewrite H. reflexivity. Qed.

Lemma bind_raise {A B} (m : M A) (k : A -> M B) (w w1 : world) (e : exn) :
  m w = (Raise e, w1) -> bind m k w = (Raise e, w1).
Proof. intros H. unfold bind. rewrite H. reflexivity. Qed.

(** The requests of New_Validatoe_Inspiah.py. *)
Definition New_upload_request (g : New_Validatoe_Inspiah.globals) (data : string) : request :=
  {| req_method := POST;
     req_url := New_Validatoe_Inspiah.API g +:+ "/TestObjects?action=upload";
     req_headers := [];
     req_body := FileBody "fileupload" data;
     req_timeout := Some 1800%Z |}.

Definition New_create_request (g : New_Validatoe_Inspiah.globals) (label : string)
    (ids : list string) (test_object : json) : request :=
  {| req_method := POST;
     req_url := New_Validatoe_Inspiah.API g +:+ "/TestRuns";
     req_headers := New_Validatoe_Inspiah.json_headers;
     req_body := JsonBody (New_Validatoe_Inspiah.run_request label ids test_object);
     req_timeout := Some 60%Z |}.

Definition New_report_request (g : New_Validatoe_Inspiah.globals) (run_id : json) : request :=
  {| req_method := GET;
     req_url := New_Validatoe_Inspiah.API g +:+ "/TestRuns/" +:+ py_str run_id +:+ ".html";
     req_headers := [];
     req_body := NoBody;
     req_timeout := Some 180%Z |}.

Definition report_path (run_id : json) : string :=
  "report_" +:+ py_str run_id +:+ ".html".

(** An answer with a decodable body and no error status. *)
Definition answers_json (ex : exchange) (j : json) : Prop :=
  exists r, reply ex = Answered r /\ is_error_status (status_code r) = false /\
            decoded r = Some j.

(** The statements of [main] after the test object is built. *)
Definition New_rest_of_main (g : New_Validatoe_Inspiah.globals) (suite_id : string)
    (test_object : json) : M unit :=
  run_id <- New_Validatoe_Inspiah.start_test_run g (New_Validatoe_Inspiah.RUN_LABEL g)
              [suite_id] test_object ;;
  final_status <- New_Validatoe_Inspiah.wait_until_finished g run_id ;;
  New_Validatoe_Inspiah.download_report_html g run_id (report_path run_id) ;;
  ret tt.

Lemma New_start_returns (g : New_Validatoe_Inspiah.globals) (label : string)
    (ids : list string) (test_object : json) (w : world) (ex : exchange)
    (rest : list exchange) (resp run_id : json) :
  service w = ex :: rest ->
  answers_json ex resp ->
  walkable ["EtfItemCollection"; "testRuns"; "TestRun"; "id"] resp = true ->
  first_resolved run_id_paths resp = Some run_id ->
  New_Validatoe_Inspiah.start_test_run g label ids test_object w
  = (Return run_id, served w (New_create_request g label ids test_object) ex rest).
Proof.
  intros Hs (r & Hr & Hc & Hj) Hw Hfirst.
  unfold New_Validatoe_Inspiah.start_test_run, requests_post.
  fold (New_create_request g label ids test_object).
  rewrite (fetch_json _ _ _ _ _ _ _ Hs Hr Hc Hj).
  destruct (New_find_run_id_spec resp Hw) as (x & Hx & Hf).
  unfold bind, lift. rewrite Hx. rewrite Hfirst in Hf.
  destruct (truthy x); [|discriminate Hf]. injection Hf as ->. reflexivity.
Qed.

Lemma New_download_returns (g : New_Validatoe_Inspiah.globals) (run_id : json)
    (out_path : string) (w : world) (ex : exchange) (rest : list exchange) (r : response) :
  service w = ex :: rest ->
  reply ex = Answered r ->
  is_error_status (status_code r) = false ->
  storable w out_path ->
  exists w' rd,
    New_Validatoe_Inspiah.download_report_html g run_id out_path w = (Return out_path, w') /\
    service w' = rest /\
    sent w' = sent w ++ [New_report_request g run_id] /\
    files w' = <[out_path := RegularFile rd true (content r)]> (files w).
Proof.
  intros Hs Hr Hc Hfree.
  unfold New_Validatoe_Inspiah.download_report_html, requests_get.
  fold (New_report_request g run_id). unfold bind.
  rewrite (send_answered _ _ _ _ _ Hs Hr). unfold raise_for_status. rewrite Hc.
  unfold ret.
  match goal with
  | |- context [write_wb out_path (content r) ?w1] =>
      destruct (write_wb_stores w1 out_path (content r) Hfree) as [rd ->]
  end.
  eexists; exists rd; split_and!; reflexivity.
Qed.

Lemma New_rest_runs (g : New_Validatoe_Inspiah.globals) (suite_id : string)
    (test_object : json) (w : world) (create : exchange) (pre : list exchange)
    (last report : exchange) (rest : list exchange)
    (resp run_id : json) (s : string) (page : response) :
  0 <= New_Validatoe_Inspiah.POLL_EVERY g ->
  service w = create :: pre ++ last :: report :: rest ->
  answers_json create resp ->
  walkable ["EtfItemCollection"; "testRuns"; "TestRun"; "id"] resp = true ->
  first_resolved run_id_paths resp = Some run_id ->
  Forall (unfinished New_observe New_check) pre ->
  patient (New_Validatoe_Inspiah.POLL_TIMEOUT g) (New_Validatoe_Inspiah.POLL_EVERY g) 0 pre ->
  New_observe last = Return (JStr s) ->
  upper s = "COMPLETED" \/ upper s = "FAILED" ->
  reply report = Answered page ->
  is_error_status (status_code page) = false ->
  storable w (report_path run_id) ->
  exists w' rd,
    New_rest_of_main g suite_id test_object w = (Return tt, w') /\
    service w' = rest /\
    sent w' = sent w
              ++ [New_create_request g (New_Validatoe_Inspiah.RUN_LABEL g) [suite_id] test_object]
              ++ repeat (New_status_request g run_id) (S (length pre))
              ++ [New_report_request g run_id] /\
    files w' = <[report_path run_id := RegularFile rd true (content page)]> (files w).
Proof.
  intros HI Hs Hcreate Hw Hfirst Hall Hp Hlast Hterm Hreport Hc Hfree.
  unfold New_rest_of_main.
  rewrite (bind_return _ _ _ _ _
             (New_start_returns g _ [suite_id] test_object w create _ resp run_id
                Hs Hcreate Hw Hfirst)).
  set (w1 := served w _ create (pre ++ last :: report :: rest)).
  destruct (New_reaches g run_id w1 pre last (report :: rest) s HI eq_refl Hall Hp Hlast Hterm)
    as (w2 & Hwait & Hserv2 & Hsent2 & Hfiles2).
  rewrite (bind_return _ _ _ _ _ Hwait).
  pose proof (storable_same w w2 (report_path run_id) Hfiles2 Hfree) as Hfree2.
  destruct (New_download_returns g run_id (report_path run_id) w2 report rest page
              Hserv2 Hreport Hc Hfree2) as (w3 & rd & Hdown & Hserv3 & Hsent3 & Hfiles3).
  rewrite (bind_return _ _ _ _ _ Hdown). unfold ret.
  exists w3, rd. split_and!; [reflexivity|exact Hserv3| |].
  - rewrite Hsent3, Hsent2. subst w1. cbn [served sent].
    rewrite <- !app_assoc. reflexivity.
  - rewrite Hfiles3, Hfiles2. reflexivity.
Qed.

Lemma New_upload_returns (g : New_Validatoe_Inspiah.globals) (path : string) (w : world)
    (wr : bool) (data : string) (ex : exchange) (rest : list exchange)
    (payload : json) :
  files w !! path = Some (RegularFile true wr data) ->
  service w = ex :: rest ->
  answers_json ex payload ->
  New_Validatoe_Inspiah.upload_local_xml g path w
  = ((let* t := subscript payload "testObject" in subscript t "id"),
     served w (New_upload_request g data) ex rest).
Proof.
  intros Hf Hs (r & Hr & Hc & Hj).
  unfold New_Validatoe_Inspiah.upload_local_xml.
  unfold bind at 1. unfold open_rb. rewrite (stat_entry _ _ _ Hf).
  unfold requests_post. fold (New_upload_request g data).
  rewrite (fetch_json _ _ _ _ _ _ _ Hs Hr Hc Hj).
  unfold bind, lift, ret.
  destruct (let* t := subscript payload "testObject" in subscript t "id"); reflexivity.
Qed.

Lemma New_main_unfold (g : New_Validatoe_Inspiah.globals) (typed : string) (w : world) :
  strip typed <> EmptyString ->
  New_Validatoe_Inspiah.main g typed w
  = (test_object <-
       (if String.eqb (New_Validatoe_Inspiah.MODE g) "local" then
          isfile <- os_path_isfile (New_Validatoe_Inspiah.LOCAL_XML_PATH g) ;;
          if negb isfile
          then raise (FileNotFoundError ("LOCAL_XML_PATH not found: "
                                         +:+ New_Validatoe_Inspiah.LOCAL_XML_PATH g))
          else
            test_object_id <- New_Validatoe_Inspiah.upload_local_xml g
                                (New_Validatoe_Inspiah.LOCAL_XML_PATH g) ;;
            ret (JObj [("id", test_object_id)])
        else if String.eqb (New_Validatoe_Inspiah.MODE g) "remote" then
          ret (JObj [("resources",
                      JObj [("data", JStr (New_Validatoe_Inspiah.REMOTE_XML_URL g))])])
        else if String.eqb (New_Validatoe_Inspiah.MODE g) "service" then
          ret (JObj [("resources",
                      JObj [("serviceEndpoint",
                             JStr (New_Validatoe_Inspiah.SERVICE_ENDPOINT g))])])
        else raise (ValueError "MODE must be 'local', 'remote', or 'service'.")) ;;
     New_rest_of_main g (strip typed) test_object) w.
Proof.
  intros Htyped. unfold New_Validatoe_Inspiah.main.
  apply String.eqb_neq in Htyped. rewrite Htyped. reflexivity.
Qed.

(** In local mode, with a readable file, a service that files the
    upload, creates the run, answers the polls within the timeout until
    a terminal status, and serves the report, [main] returns after
    exactly these requests, in this order: the upload of the file's
    bytes, the run creation for the one suite id that was typed (stripped)
    with the test object [{"id": <uploaded id>}], one status request per
    poll, and the report request; and it stores the report's bytes in
    [report_<run id>.html], named after the id that the run creation
    returned, every other file being left as it was.  The report path is
    taken to be one where the report may be stored: a path that can be
    created, or a file that may be written. *)
Theorem main_local_run :
  forall (g : New_Validatoe_Inspiah.globals) (typed : string) (w : world)
         (wr : bool) (data : string)
         (up create : exchange) (pre : list exchange) (last report : exchange)
         (rest : list exchange) (payload tid resp run_id : json) (s : string)
         (page : response),
    New_Validatoe_Inspiah.MODE g = "local" ->
    strip typed <> EmptyString ->
    0 <= New_Validatoe_Inspiah.POLL_EVERY g ->
    files w !! New_Validatoe_Inspiah.LOCAL_XML_PATH g = Some (RegularFile true wr data) ->
    service w = up :: create :: pre ++ last :: report :: rest ->
    answers_json up payload ->
    (let* t := subscript payload "testObject" in subscript t "id") = Return tid ->
    answers_json create resp ->
    walkable ["EtfItemCollection"; "testRuns"; "TestRun"; "id"] resp = true ->
    first_resolved run_id_paths resp = Some run_id ->
    Forall (unfinished New_observe New_check) pre ->
    patient (New_Validatoe_Inspiah.POLL_TIMEOUT g) (New_Validatoe_Inspiah.POLL_EVERY g) 0 pre ->
    New_observe last = Return (JStr s) ->
    upper s = "COMPLETED" \/ upper s = "FAILED" ->
    reply report = Answered page ->
    is_error_status (status_code page) = false ->
    storable w (report_path run_id) ->
    exists w' rd,
      New_Validatoe_Inspiah.main g typed w = (Return tt, w') /\
      service w' = rest /\
      sent w' = sent w
                ++ [New_upload_request g data;
                    New_create_request g (New_Validatoe_Inspiah.RUN_LABEL g) [strip typed]
                      (JObj [("id", tid)])]
                ++ repeat (New_status_request g run_id) (S (length pre))
                ++ [New_report_request g run_id] /\
      files w' = <[report_path run_id := RegularFile rd true (content page)]> (files w).
Proof.
  intros g typed w wr data up create pre last report rest payload tid resp run_id s page
    Hmode Htyped HI Hfile Hs Hup Htid Hcreate Hw Hfirst Hall Hp Hlast Hterm Hreport Hc Hfree.
  rewrite (New_main_unfold g typed w Htyped), Hmode. cbn [String.eqb Ascii.eqb Bool.eqb].
  assert (Hprefix :
            (isfile <- os_path_isfile (New_Validatoe_Inspiah.LOCAL_XML_PATH g) ;;
             if negb isfile
             then raise (FileNotFoundError ("LOCAL_XML_PATH not found: "
                                            +:+ New_Validatoe_Inspiah.LOCAL_XML_PATH g))
             else
               test_object_id <- New_Validatoe_Inspiah.upload_local_xml g
                                   (New_Validatoe_Inspiah.LOCAL_XML_PATH g) ;;
               ret (JObj [("id", test_object_id)])) w
            = (Return (JObj [("id", tid)]),
               served w (New_upload_request g data) up
                 (create :: pre ++ last :: report :: rest))).
  { unfold bind at 1. unfold os_path_isfile. rewrite (stat_entry _ _ _ Hfile). cbn [negb].
    unfold bind at 1.
    rewrite (New_upload_returns g _ w wr data up _ payload Hfile Hs Hup), Htid.
    reflexivity. }
  rewrite (bind_return _ _ _ _ _ Hprefix).
  set (w0 := served w (New_upload_request g data) up (create :: pre ++ last :: report :: rest)).
  destruct (New_rest_runs g (strip typed) (JObj [("id", tid)]) w0 create pre last report rest
              resp run_id s page HI eq_refl Hcreate Hw Hfirst Hall Hp Hlast Hterm Hreport Hc
              Hfree) as (w' & rd & Hrun & Hserv & Hsent & Hfiles).
  exists w', rd. split_and!; [exact Hrun|exact Hserv| |exact Hfiles].
  rewrite Hsent. subst w0. cbn [served sent]. rewrite <- !app_assoc. reflexivity.
Qed.

(** The test object that [main] builds from a URL. *)
Definition resource_object (g : New_Validatoe_Inspiah.globals) : json :=
  if String.eqb (New_Validatoe_Inspiah.MODE g) "remote"
  then JObj [("resources", JObj [("data", JStr (New_Validatoe_Inspiah.REMOTE_XML_URL g))])]
  else JObj [("resources",
              JObj [("serviceEndpoint", JStr (New_Validatoe_Inspiah.SERVICE_ENDPOINT g))])].

(** In remote and in service mode [main] reads no file and uploads
    nothing: against a service that creates the run, answers the polls
    within the timeout until a terminal status, and serves the report,
    its first request is the run creation, with the test object
    [{"resources": {"data": <url>}}] or
    [{"resources": {"serviceEndpoint": <url>}}]; the polls and the report
    request follow, and the report is stored in [report_<run id>.html],
    taken to be a path that can be created or a file that may be
    written. *)
Theorem main_url_run :
  forall (g : New_Validatoe_Inspiah.globals) (typed : string) (w : world)
         (create : exchange) (pre : list exchange) (last report : exchange)
         (rest : list exchange) (resp run_id : json) (s : string) (page : response),
    New_Validatoe_Inspiah.MODE g = "remote" \/ New_Validatoe_Inspiah.MODE g = "service" ->
    strip typed <> EmptyString ->
    0 <= New_Validatoe_Inspiah.POLL_EVERY g ->
    service w = create :: pre ++ last :: report :: rest ->
    answers_json create resp ->
    walkable ["EtfItemCollection"; "testRuns"; "TestRun"; "id"] resp = true ->
    first_resolved run_id_paths resp = Some run_id ->
    Forall (unfinished New_observe New_check) pre ->
    patient (New_Validatoe_Inspiah.POLL_TIMEOUT g) (New_Validatoe_Inspiah.POLL_EVERY g) 0 pre ->
    New_observe last = Return (JStr s) ->
    upper s = "COMPLETED" \/ upper s = "FAILED" ->
    reply report = Answered page ->
    is_error_status (status_code page) = false ->
    storable w (report_path run_id) ->
    exists w' rd,
      New_Validatoe_Inspiah.main g typed w = (Return tt, w') /\
      service w' = rest /\
      sent w' = sent w
                ++ [New_create_request g (New_Validatoe_Inspiah.RUN_LABEL g) [strip typed]
                      (resource_object g)]
                ++ repeat (New_status_request g run_id) (S (length pre))
                ++ [New_report_request g run_id] /\
      files w' = <[report_path run_id := RegularFile rd true (content page)]> (files w).
Proof.
  intros g typed w create pre last report rest resp run_id s page
    Hmode Htyped HI Hs Hcreate Hw Hfirst Hall Hp Hlast Hterm Hreport Hc Hfree.
  rewrite (New_main_unfold g typed w Htyped). unfold resource_object.
  destruct Hmode as [Hmode|Hmode]; rewrite Hmode; cbn [String.eqb Ascii.eqb Bool.eqb];
    (unfold bind at 1; unfold ret at 1;
     exact (New_rest_runs g (strip typed) _ w create pre last report rest
              resp run_id s page HI Hs Hcreate Hw Hfirst Hall Hp Hlast Hterm Hreport Hc
              Hfree)).
Qed.

Definition filed_upload : exchange :=
  answers_with 200 (JObj [("testObject", JObj [("id", JStr "EIDupload")])]).

Definition report_page : response :=
  {| status_code := 200; content := "<html>report</html>"; decoded := None |}.

Definition whole_run : list exchange :=
  [answers_with 200 scenario_A_payload; running;
   answers_with 200 (JObj [("status", JStr "FAILED")]);
   {| took := 1; reply := Answered report_page |}].

Definition with_local_file : world :=
  {| now := 0; service := filed_upload :: whole_run; sent := [];
     files := {[ "." := Directory true true true;
                 New_Validatoe_Inspiah.LOCAL_XML_PATH New_Validatoe_Inspiah.settings
                 := RegularFile true true "<gml/>" ]} |}.

Lemma main_local_run_witness :
  exists w' rd,
    New_Validatoe_Inspiah.main New_Validatoe_Inspiah.settings " EID1 " with_local_file
    = (Return tt, w') /\
    service w' = [] /\
    sent w' = sent with_local_file
              ++ [New_upload_request New_Validatoe_Inspiah.settings "<gml/>";
                  New_create_request New_Validatoe_Inspiah.settings
                    (New_Validatoe_Inspiah.RUN_LABEL New_Validatoe_Inspiah.settings)
                    [strip " EID1 "] (JObj [("id", JStr "EIDupload")])]
              ++ repeat (New_status_request New_Validatoe_Inspiah.settings (JStr "RUN1"))
                   (S (length [running]))
              ++ [New_report_request New_Validatoe_Inspiah.settings (JStr "RUN1")] /\
    files w' = <[report_path (JStr "RUN1")
                 := RegularFile rd true (content report_page)]> (files with_local_file).
Proof.
  apply (main_local_run New_Validatoe_Inspiah.settings " EID1 " with_local_file
           true "<gml/>" filed_upload (answers_with 200 scenario_A_payload) [running]
           (answers_with 200 (JObj [("status", JStr "FAILED")]))
           {| took := 1; reply := Answered report_page |} []
           (JObj [("testObject", JObj [("id", JStr "EIDupload")])]) (JStr "EIDupload")
           scenario_A_payload (JStr "RUN1") "FAILED" report_page).
  - reflexivity.
  - discriminate.
  - unfold Qle. cbn. lia.
  - reflexivity.
  - reflexivity.
  - eexists. split_and!; reflexivity.
  - reflexivity.
  - eexists. split_and!; reflexivity.
  - reflexivity.
  - reflexivity.
  - constructor; [|constructor]. exists (JStr "RUNNING"). split; reflexivity.
  - split; [|exact Logic.I]. unfold Qle. cbn. lia.
  - reflexivity.
  - right. reflexivity.
  - reflexivity.
  - reflexivity.
  - left. reflexivity.
Defined.

Definition remote_settings : New_Validatoe_Inspiah.globals :=
  {| New_Validatoe_Inspiah.BASE := New_Validatoe_Inspiah.BASE New_Validatoe_Inspiah.settings;
     New_Validatoe_Inspiah.MODE := "remote";
     New_Validatoe_Inspiah.LOCAL_XML_PATH :=
       New_Validatoe_Inspiah.LOCAL_XML_PATH New_Validatoe_Inspiah.settings;
     New_Validatoe_Inspiah.REMOTE_XML_URL :=
       New_Validatoe_Inspiah.REMOTE_XML_URL New_Validatoe_Inspiah.settings;
     New_Validatoe_Inspiah.SERVICE_ENDPOINT :=
       New_Validatoe_Inspiah.SERVICE_ENDPOINT New_Validatoe_Inspiah.settings;
     New_Validatoe_Inspiah.RUN_LABEL :=
       New_Validatoe_Inspiah.RUN_LABEL New_Validatoe_Inspiah.settings;
     New_Validatoe_Inspiah.POLL_EVERY := 5;
     New_Validatoe_Inspiah.POLL_TIMEOUT := 25 * 60 |}.

Lemma main_url_run_witness :
  exists w' rd,
    New_Validatoe_Inspiah.main remote_settings "EID1" (at_home whole_run) = (Return tt, w') /\
    service w' = [] /\
    sent w' = sent (at_home whole_run)
              ++ [New_create_request remote_settings
                    (New_Validatoe_Inspiah.RUN_LABEL remote_settings) [strip "EID1"]
                    (resource_object remote_settings)]
              ++ repeat (New_status_request remote_settings (JStr "RUN1"))
                   (S (length [running]))
              ++ [New_report_request remote_settings (JStr "RUN1")] /\
    files w' = <[report_path (JStr "RUN1")
                 := RegularFile rd true (content report_page)]> (files (at_home whole_run)).
Proof.
  apply (main_url_run remote_settings "EID1" (at_home whole_run)
           (answers_with 200 scenario_A_payload) [running]
           (answers_with 200 (JObj [("status", JStr "FAILED")]))
           {| took := 1; reply := Answered report_page |} []
           scenario_A_payload (JStr "RUN1") "FAILED" report_page).
  - left. reflexivity.
  - discriminate.
  - unfold Qle. cbn. lia.
  - reflexivity.
  - eexists. split_and!; reflexivity.
  - reflexivity.
  - reflexivity.
  - constructor; [|constructor]. exists (JStr "RUNNING"). split; reflexivity.
  - split; [|exact Logic.I]. unfold Qle. cbn. lia.
  - reflexivity.
  - right. reflexivity.
  - reflexivity.
  - reflexivity.
  - left. reflexivity.
Defined.

(** ** Input and mode that [main] refuses *)

(** A line of white space only. *)
Fixpoint blank (s : string) : bool :=
  match s with
  | EmptyString => true
  | String c s' => is_space c && blank s'
  end.

Lemma lstrip_blank (s : string) : blank s = true -> lstrip s = EmptyString.
Proof.
  induction s as [|c s IH]; [reflexivity|]. cbn [blank lstrip].
  destruct (is_space c); [exact IH|discriminate].
Qed.

Lemma lstrip_not_blank (s : string) :
  blank s = false -> exists c t, lstrip s = String c t /\ is_space c = false.
Proof.
  induction s as [|c s IH]; [discriminate|]. cbn [blank lstrip].
  destruct (is_space c) eqn:Hc; [exact IH|]. intros _. eauto.
Qed.

Lemma rstrip_keeps_head (c : ascii) (t : string) :
  is_space c = false -> rstrip (String c t) <> EmptyString.
Proof.
  intros Hc. cbn [rstrip]. destruct (rstrip t); [rewrite Hc|]; discriminate.
Qed.

Lemma strip_empty_iff (s : string) : strip s = EmptyString <-> blank s = true.
Proof.
  unfold strip. split.
  - intros H. destruct (blank s) eqn:Hb; [reflexivity|].
    destruct (lstrip_not_blank s Hb) as (c & t & Hl & Hc).
    rewrite Hl in H. exfalso. exact (rstrip_keeps_head c t Hc H).
  - intros Hb. rewrite (lstrip_blank s Hb). reflexivity.
Qed.

(** ** Which exceptions a call can raise *)

(** Every exception that the computation raises is one of [P]. *)
Definition raises_only {A} (P : exn -> Prop) (m : M A) : Prop :=
  forall w e, fst (m w) = Raise e -> P e.

Lemma raises_only_bind {A B} (P : exn -> Prop) (m : M A) (k : A -> M B) :
  raises_only P m -> (forall a, raises_only P (k a)) -> raises_only P (bind m k).
Proof.
  intros Hm Hk w e. unfold bind. specialize (Hm w).
  destruct (m w) as [[a|e'|] w1]; cbn [fst] in *.
  - apply Hk.
  - intros H. injection H as <-. apply Hm. reflexivity.
  - discriminate.
Qed.

Lemma raises_only_weaken {A} (P Q : exn -> Prop) (m : M A) :
  (forall e, P e -> Q e) -> raises_only P m -> raises_only Q m.
Proof. intros HPQ Hm w e H. apply HPQ, (Hm w e H). Qed.

Lemma raises_only_ret {A} (P : exn -> Prop) (a : A) : raises_only P (ret a).
Proof. intros w e H. discriminate H. Qed.

Lemma raises_only_raise {A} (P : exn -> Prop) (e : exn) :
  P e -> raises_only P (@raise A e).
Proof. intros He w e' H. injection H as <-. exact He. Qed.

Lemma raises_only_lift {A} (P : exn -> Prop) (o : outcome A) :
  (forall e, o = Raise e -> P e) -> raises_only P (lift o).
Proof. intros Ho w e H. apply Ho, H. Qed.

Lemma raises_only_send (P : exn -> Prop) (rq : request) :
  P RequestException -> raises_only P (send rq).
Proof.
  intros HP w e. unfold send. destruct (service w) as [|ex rest]; [discriminate|].
  destruct (reply ex); [discriminate|]. intros H. injection H as <-. exact HP.
Qed.

Lemma raises_only_raise_for_status (P : exn -> Prop) (r : response) :
  (forall code, P (HTTPError code)) -> raises_only P (raise_for_status r).
Proof.
  intros HP w e. unfold raise_for_status.
  destruct (is_error_status _); [|discriminate]. intros H. injection H as <-. apply HP.
Qed.

Lemma raises_only_json_of (P : exn -> Prop) (r : response) :
  P JSONDecodeError -> raises_only P (json_of r).
Proof.
  intros HP w e. unfold json_of. destruct (decoded r); [discriminate|].
  intros H. injection H as <-. exact HP.
Qed.

(** The exceptions of [open] in the model. *)
Definition open_failure (path : string) (e : exn) : Prop :=
  e = FileNotFoundError path \/ e = IsADirectoryError path \/
  e = NotADirectoryError path \/ e = PermissionError path \/
  e = OSError ENAMETOOLONG path \/ e = ValueError "embedded null byte".

Lemma walk_failure (fs : gmap string file_entry) (path : string) (absolute : bool)
    (comps : list string) :
  forall stack holder e,
    walk fs path absolute stack holder comps = inl e -> open_failure path e.
Proof.
  unfold open_failure.
  induction comps as [|c rest IH]; intros stack holder e; cbn [walk]; [discriminate|].
  destruct (entry_at fs (key absolute stack)) as [[r wr [|]|rd wr data]|];
    try (intros H; injection H as <-; auto 10).
  destruct (String.eqb c "."); [apply IH|].
  destruct (String.eqb c ".."); [apply IH|].
  destruct (_ <? _)%nat; [|apply IH].
  destruct rest; [discriminate|]. intros H. injection H as <-. auto 10.
Qed.

Lemma stat_failure (fs : gmap string file_entry) (path : string) (e : exn) :
  stat fs path = Fails e -> open_failure path e.
Proof.
  unfold stat. destruct (fs !! path); [discriminate|].
  destruct (has_char nul path); [intros H; injection H as <-; unfold open_failure; auto 10|].
  destruct (_ <=? _)%nat; [intros H; injection H as <-; unfold open_failure; auto 10|].
  destruct path as [|c rest]; [intros H; injection H as <-; unfold open_failure; auto 10|].
  destruct (walk fs _ _ _ _ _) as [e'|[[stack holder] long]] eqn:Hw.
  - intros H. injection H as <-. exact (walk_failure _ _ _ _ _ _ _ Hw).
  - destruct long; [discriminate|].
    destruct (entry_at fs (key _ stack)) as [[r wr x|rd wr data]|]; try discriminate.
    destruct (ends_with_slash _); discriminate.
Qed.

Lemma open_rb_failure (path : string) (w : world) (e : exn) :
  fst (open_rb path w) = Raise e -> open_failure path e.
Proof.
  unfold open_rb.
  destruct (stat (files w) path) as [[[|] dw dx|[|] wr data]| |h t|t|e0] eqn:Hst;
    try discriminate; intros H; injection H as <-;
    try exact (stat_failure _ _ _ Hst); unfold open_failure; auto 10.
Qed.

Lemma write_wb_failure (path data : string) (w : world) (e : exn) :
  fst (write_wb path data w) = Raise e -> open_failure path e.
Proof.
  unfold write_wb.
  destruct (stat (files w) path) as [[dr dw dx|rd [|] old]| |[h|] [|]|[|]|e0] eqn:Hst;
    try destruct (entry_at (files w) h) as [[r0 [|] x0|]|];
    try discriminate; intros H; injection H as <-;
    try exact (stat_failure _ _ _ Hst); unfold open_failure; auto 10.
Qed.

Lemma raises_only_open_rb (P : exn -> Prop) (path : string) :
  (forall e, open_failure path e -> P e) -> raises_only P (open_rb path).
Proof. intros HP w e H. apply HP, (open_rb_failure path w e H). Qed.

Lemma raises_only_write_wb (P : exn -> Prop) (path data : string) :
  (forall e, open_failure path e -> P e) -> raises_only P (write_wb path data).
Proof. intros HP w e H. apply HP, (write_wb_failure path data w e H). Qed.

Lemma raises_only_time_sleep (P : exn -> Prop) (d : Q) :
  P (ValueError "sleep length must be non-negative") -> raises_only P (time_sleep d).
Proof.
  intros HP w e. unfold time_sleep. destruct (Qle_bool 0 d); [discriminate|].
  intros H. injection H as <-. exact HP.
Qed.

Lemma subscript_raises (x : json) (k : string) (e : exn) :
  subscript x k = Raise e -> e = KeyError k \/ e = TypeError.
Proof.
  unfold subscript. destruct x as [| | | | |members]; try (intros H; injection H as <-; auto).
  destruct (dict_get k members); [discriminate|]. intros H. injection H as <-. auto.
Qed.

Ltac member := intros; cbv beta; unfold status_check_failed in *; solve [eauto 12].

(** The failures of a request that is answered with JSON: the transport,
    an error status, a body that is not JSON. *)
Lemma fetch_raises (P : exn -> Prop) (rq : request) :
  (forall e, status_check_failed e -> P e) ->
  raises_only P (r <- send rq ;; raise_for_status r ;; json_of r).
Proof.
  intros HP. unfold status_check_failed in HP.
  apply raises_only_bind; [apply raises_only_send; member|intros r; cbv beta].
  apply raises_only_bind; [apply raises_only_raise_for_status; member|intros _; cbv beta].
  apply raises_only_json_of; member.
Qed.

(** What [upload_local_xml] can raise once the file is open. *)
Definition after_open_exception (e : exn) : Prop :=
  status_check_failed e \/
  e = KeyError "testObject" \/ e = KeyError "id" \/ e = TypeError.

(** The statements of [upload_local_xml] that follow [open]. *)
Definition New_upload_rest (g : New_Validatoe_Inspiah.globals) (fh : string) : M json :=
  r <- requests_post (New_Validatoe_Inspiah.API g +:+ "/TestObjects?action=upload") []
         (FileBody "fileupload" fh) (Some 1800%Z) ;;
  raise_for_status r ;;
  payload <- json_of r ;;
  test_object_id <- lift (let* t := subscript payload "testObject" in subscript t "id") ;;
  ret test_object_id.

Lemma New_upload_rest_raises (g : New_Validatoe_Inspiah.globals) (fh : string) :
  raises_only after_open_exception (New_upload_rest g fh).
Proof.
  unfold New_upload_rest, requests_post, after_open_exception.
  apply raises_only_bind; [apply raises_only_send; member|intros r; cbv beta].
  apply raises_only_bind;
    [apply raises_only_raise_for_status; member|intros _; cbv beta].
  apply raises_only_bind;
    [apply raises_only_json_of; member|intros payload; cbv beta].
  apply raises_only_bind; [|intros tid; apply raises_only_ret].
  apply raises_only_lift. intros e. unfold and_then.
  destruct (subscript payload "testObject") as [t| |] eqn:Ht.
  - intros H. apply subscript_raises in H as [-> | ->]; auto 10.
  - intros H. injection H as <-. apply subscript_raises in Ht as [-> | ->]; auto 10.
  - discriminate.
Qed.

(** An exception of [upload_local_xml]: the one that [open] raises on
    the path in this world, or one of the later statements. *)
Definition upload_exception (w : world) (path : string) (e : exn) : Prop :=
  fst (open_rb path w) = Raise e \/ after_open_exception e.

Lemma New_upload_raises (g : New_Validatoe_Inspiah.globals) (path : string)
    (w : world) (e : exn) :
  fst (New_Validatoe_Inspiah.upload_local_xml g path w) = Raise e ->
  upload_exception w path e.
Proof.
  unfold upload_exception.
  change (New_Validatoe_Inspiah.upload_local_xml g path)
    with (bind (open_rb path) (New_upload_rest g)).
  unfold bind at 1. destruct (open_rb path w) as [[fh|e0|] w0]; cbn [fst].
  - intros H. right. exact (New_upload_rest_raises g fh w0 e H).
  - intros H. left. injection H as <-. reflexivity.
  - discriminate.
Qed.

Lemma New_upload_listed (P : exn -> Prop) (g : New_Validatoe_Inspiah.globals)
    (path : string) :
  (forall e, open_failure path e -> P e) ->
  (forall e, after_open_exception e -> P e) ->
  raises_only P (New_Validatoe_Inspiah.upload_local_xml g path).
Proof.
  intros Hopen Hrest w e H.
  destruct (New_upload_raises g path w e H) as [Ho|Hr];
    [exact (Hopen e (open_rb_failure path w e Ho))|exact (Hrest e Hr)].
Qed.

Definition start_exception (e : exn) : Prop :=
  status_check_failed e \/ e = AttributeError \/
  exists resp, e = RuntimeError "Could not find TestRun id in response: " resp.

Lemma find_run_id_raises (resp : json) (e : exn) :
  New_Validatoe_Inspiah.find_run_id resp = Raise e -> e = AttributeError.
Proof.
  unfold New_Validatoe_Inspiah.find_run_id. rewrite New_nested_run_id_chain.
  change (get resp "id") with (get_chain ["id"] resp).
  change (get resp "testRunId") with (get_chain ["testRunId"] resp).
  intros H.
  apply or_raises in H as [H|H]; [|apply or_raises in H as [H|H]];
    apply get_chain_raises in H as [H _]; exact H.
Qed.

Lemma New_start_raises (g : New_Validatoe_Inspiah.globals) (label : string)
    (ids : list string) (test_object : json) :
  raises_only start_exception
    (New_Validatoe_Inspiah.start_test_run g label ids test_object).
Proof.
  unfold New_Validatoe_Inspiah.start_test_run, requests_post, start_exception.
  apply raises_only_bind; [apply raises_only_send; member|intros r; cbv beta].
  apply raises_only_bind;
    [apply raises_only_raise_for_status; member|intros _; cbv beta].
  apply raises_only_bind;
    [apply raises_only_json_of; member|intros resp; cbv beta].
  apply raises_only_bind.
  - apply raises_only_lift. intros e H. apply find_run_id_raises in H. auto.
  - intros run_id. destruct (negb (truthy run_id));
      [apply raises_only_raise; eauto|apply raises_only_ret].
Qed.

Definition status_exception (e : exn) : Prop :=
  status_check_failed e \/ e = AttributeError.

Lemma New_status_raises (g : New_Validatoe_Inspiah.globals) (run_id : json) :
  raises_only status_exception (New_Validatoe_Inspiah.get_test_run_status g run_id).
Proof.
  unfold New_Validatoe_Inspiah.get_test_run_status, requests_get, status_exception.
  apply raises_only_bind; [apply raises_only_send; member|intros r; cbv beta].
  apply raises_only_bind;
    [apply raises_only_raise_for_status; member|intros _; cbv beta].
  apply raises_only_bind;
    [apply raises_only_json_of; member|intros js; cbv beta].
  apply raises_only_lift. intros e H. apply New_status_of_raises in H as [-> _]. auto.
Qed.

Definition wait_exception (e : exn) : Prop :=
  status_exception e \/
  e = TimeoutError "Timeout waiting for the test run to finish." \/
  e = ValueError "sleep length must be non-negative".

Lemma New_wait_loop_raises (g : New_Validatoe_Inspiah.globals) (run_id : json)
    (start : Q) (fuel : nat) :
  raises_only wait_exception (New_Validatoe_Inspiah.wait_loop fuel g run_id start).
Proof.
  induction fuel as [|fuel IH]; cbn [New_Validatoe_Inspiah.wait_loop].
  - apply raises_only_lift. discriminate.
  - apply raises_only_bind;
      [apply (raises_only_weaken status_exception); [unfold wait_exception; auto|];
       apply New_status_raises|intros status; cbv beta].
    apply raises_only_bind.
    + apply raises_only_lift. intros e. unfold str_upper.
      destruct status; try discriminate; intros H; injection H as <-;
        unfold wait_exception, status_exception; auto.
    + intros up. destruct (New_Validatoe_Inspiah.is_terminal up); [apply raises_only_ret|].
      apply raises_only_bind; [intros w e H; discriminate H|intros t; cbv beta].
      destruct (negb _); [apply raises_only_raise; unfold wait_exception; auto|].
      apply raises_only_bind; [|intros _; exact IH].
      apply raises_only_time_sleep. unfold wait_exception; auto.
Qed.

Lemma New_wait_raises (g : New_Validatoe_Inspiah.globals) (run_id : json) :
  raises_only wait_exception (New_Validatoe_Inspiah.wait_until_finished g run_id).
Proof.
  intros w e. unfold New_Validatoe_Inspiah.wait_until_finished, bind, time_time.
  apply New_wait_loop_raises.
Qed.

(** An exception of [download_report_html]: the transport, an error
    status, or the one that [open] raises on the output path when the
    file system is as in this world. *)
Definition download_exception (w : world) (out_path : string) (e : exn) : Prop :=
  e = RequestException \/ (exists code, e = HTTPError code) \/
  exists data w1, files w1 = files w /\ fst (write_wb out_path data w1) = Raise e.

Lemma New_download_raises (g : New_Validatoe_Inspiah.globals) (run_id : json)
    (out_path : string) (w : world) (e : exn) :
  fst (New_Validatoe_Inspiah.download_report_html g run_id out_path w) = Raise e ->
  download_exception w out_path e.
Proof.
  unfold New_Validatoe_Inspiah.download_report_html, requests_get, download_exception.
  unfold bind at 1.
  match goal with |- context [send ?rq w] =>
    pose proof (frames_send rq w) as Hfiles; destruct (send rq w) as [[r|e0|] w1] eqn:Hsend
  end; cbn [fst snd] in *.
  - unfold bind at 1, raise_for_status.
    destruct (is_error_status (status_code r)); cbn [fst raise ret].
    + intros H. injection H as <-. eauto.
    + unfold bind, ret. destruct (write_wb out_path (content r) w1) as [[u|e1|] w2] eqn:Hw;
        cbn [fst]; try discriminate.
      intros H. injection H as <-. right. right. exists (content r), w1.
      split; [exact Hfiles|]. rewrite Hw. reflexivity.
  - intros H. injection H as <-. left.
    unfold send in Hsend. destruct (service w) as [|ex rest]; [discriminate Hsend|].
    destruct (reply ex); [discriminate Hsend|]. injection Hsend as <- _. reflexivity.
  - discriminate.
Qed.

Lemma New_download_listed (P : exn -> Prop) (g : New_Validatoe_Inspiah.globals)
    (run_id : json) (out_path : string) :
  P RequestException -> (forall code, P (HTTPError code)) ->
  (forall e, open_failure out_path e -> P e) ->
  raises_only P (New_Validatoe_Inspiah.download_report_html g run_id out_path).
Proof.
  intros Ht Hc Hopen w e H.
  destruct (New_download_raises g run_id out_path w e H)
    as [->|[[code ->]|(data & w1 & _ & Hw)]];
    [exact Ht|apply Hc|exact (Hopen e (write_wb_failure _ _ _ _ Hw))].
Qed.

(** The exceptions that the functions of New_Validatoe_Inspiah.py can
    raise, whatever the service and the file system do.  With "a failed
    request" for a transport failure, a 4xx or 5xx status, or (where the
    body is decoded) a body that is not JSON:
    - [upload_local_xml]: the exception that [open] raises on the path,
      a failed request, [KeyError] for [testObject] or [id],
      [TypeError];
    - [start_test_run]: a failed request, [AttributeError], the
      missing-id [RuntimeError];
    - [get_test_run_status]: a failed request, [AttributeError];
    - [wait_until_finished]: those of [get_test_run_status], its
      [TimeoutError], and the [ValueError] of [time.sleep] for a
      negative interval;
    - [download_report_html]: a transport failure, an error status, the
      exception that [open] raises on the output path. *)
Theorem exceptions_of_the_run_functions :
  forall (g : New_Validatoe_Inspiah.globals) (w : world) (e : exn),
    (forall path,
        fst (New_Validatoe_Inspiah.upload_local_xml g path w) = Raise e ->
        upload_exception w path e) /\
    (forall label ids test_object,
        fst (New_Validatoe_Inspiah.start_test_run g label ids test_object w) = Raise e ->
        start_exception e) /\
    (forall run_id,
        (fst (New_Validatoe_Inspiah.get_test_run_status g run_id w) = Raise e ->
         status_exception e) /\
        (fst (New_Validatoe_Inspiah.wait_until_finished g run_id w) = Raise e ->
         wait_exception e)) /\
    (forall run_id out_path,
        fst (New_Validatoe_Inspiah.download_report_html g run_id out_path w) = Raise e ->
        download_exception w out_path e).
Proof.
  intros g w e. split_and!.
  - intros path. apply New_upload_raises.
  - intros label ids test_object. apply New_start_raises.
  - intros run_id. split; [apply New_status_raises|apply New_wait_raises].
  - intros run_id out_path. apply New_download_raises.
Qed.

Lemma exceptions_of_the_run_functions_witness :
  download_exception (fresh [not_found]) "report_RUN1.html" (HTTPError 404).
Proof.
  exact (proj2 (proj2 (proj2 (exceptions_of_the_run_functions New_Validatoe_Inspiah.settings
                                (fresh [not_found]) (HTTPError 404))))
           (JStr "RUN1") "report_RUN1.html" eq_refl).
Defined.

(** ** Input and mode that [main] refuses *)

Definition not_exit (e : exn) : Prop := forall m, e <> SystemExit m.

Lemma New_rest_never_exits (g : New_Validatoe_Inspiah.globals) (suite_id : string)
    (test_object : json) :
  raises_only not_exit (New_rest_of_main g suite_id test_object).
Proof.
  unfold New_rest_of_main.
  apply raises_only_bind;
    [apply (raises_only_weaken start_exception); [|apply New_start_raises]|intros run_id; cbv beta].
  { unfold start_exception, status_check_failed, not_exit.
    intros e [[->|[[c ->]| ->]]|[->|[resp ->]]] m; discriminate. }
  apply raises_only_bind;
    [apply (raises_only_weaken wait_exception); [|apply New_wait_raises]|intros final; cbv beta].
  { unfold wait_exception, status_exception, status_check_failed, not_exit.
    intros e [[[->|[[c ->]| ->]]| ->]|[->| ->]] m; discriminate. }
  apply raises_only_bind; [|intros out; apply raises_only_ret].
  apply New_download_listed; unfold not_exit, open_failure.
  - intros m; discriminate.
  - intros code m; discriminate.
  - intros e [->|[->|[->|[->|[->| ->]]]]] m; discriminate.
Qed.

(** [main] stops before anything is sent or read, the world being left
    as it was, in two cases: with [SystemExit] when the line typed for
    the suite id is empty or white space only, and with [ValueError] when
    an id was typed and [MODE] is none of [local], [remote] and
    [service].  When an id was typed, [main] never ends in
    [SystemExit]. *)
Theorem main_refuses_before_any_request :
  forall (g : New_Validatoe_Inspiah.globals) (typed : string) (w : world),
    (blank typed = true ->
     New_Validatoe_Inspiah.main g typed w
     = (Raise (SystemExit "No Executable Test Suite ID provided."), w)) /\
    (blank typed = false ->
     forall m, fst (New_Validatoe_Inspiah.main g typed w) <> Raise (SystemExit m)) /\
    (blank typed = false ->
     New_Validatoe_Inspiah.MODE g <> "local" ->
     New_Validatoe_Inspiah.MODE g <> "remote" ->
     New_Validatoe_Inspiah.MODE g <> "service" ->
     New_Validatoe_Inspiah.main g typed w
     = (Raise (ValueError "MODE must be 'local', 'remote', or 'service'."), w)).
Proof.
  intros g typed w.
  assert (Htyped : blank typed = false -> strip typed <> EmptyString).
  { intros Hb H. apply strip_empty_iff in H. congruence. }
  split_and!.
  - intros Hb. apply strip_empty_iff in Hb.
    unfold New_Validatoe_Inspiah.main. rewrite Hb. reflexivity.
  - intros Hb m H. rewrite (New_main_unfold g typed w (Htyped Hb)) in H.
    revert H. generalize m. change (not_exit (SystemExit m)) with (not_exit (SystemExit m)).
    intros m' H.
    refine (raises_only_bind not_exit _ _ _ _ w (SystemExit m') H m' eq_refl);
      [|intros test_object; apply New_rest_never_exits].
    destruct (String.eqb (New_Validatoe_Inspiah.MODE g) "local").
    + apply raises_only_bind; [intros w0 e He; discriminate He|intros isfile; cbv beta].
      destruct (negb isfile); [apply raises_only_raise; intros m0; discriminate|].
      apply raises_only_bind; [|intros tid; apply raises_only_ret].
      apply New_upload_listed;
        unfold open_failure, after_open_exception, status_check_failed, not_exit.
      * intros e [->|[->|[->|[->|[->| ->]]]]] m0; discriminate.
      * intros e [[->|[[c ->]| ->]]|[->|[->| ->]]] m0; discriminate.
    + destruct (String.eqb (New_Validatoe_Inspiah.MODE g) "remote");
        [apply raises_only_ret|].
      destruct (String.eqb (New_Validatoe_Inspiah.MODE g) "service");
        [apply raises_only_ret|apply raises_only_raise; intros m0; discriminate].
  - intros Hb Hl Hr Hsv. rewrite (New_main_unfold g typed w (Htyped Hb)).
    apply String.eqb_neq in Hl, Hr, Hsv. rewrite Hl, Hr, Hsv. reflexivity.
Qed.

Lemma main_refuses_before_any_request_witness :
  New_Validatoe_Inspiah.main New_Validatoe_Inspiah.settings "   " with_local_file
  = (Raise (SystemExit "No Executable Test Suite ID provided."), with_local_file).
Proof.
  exact (proj1 (main_refuses_before_any_request New_Validatoe_Inspiah.settings "   "
                  with_local_file) eq_refl).
Defined.

(** ** The shape of the catalog records *)

(** A record as [get_executable_test_suites] builds them: the three
    members [id], [label] and [description] in this order, with a label
    that is the empty string or a non-empty value, never [None]. *)
Definition suite_shaped (record : json) : Prop :=
  exists i l d,
    record = JObj [("id", i); ("label", l); ("description", d)] /\
    (l = JStr EmptyString \/ truthy l = true).

Lemma or_returns (a b : outcome json) (v : json) :
  or_ a b = Return v -> (a = Return v /\ truthy v = true) \/ b = Return v.
Proof.
  unfold or_. destruct a as [x| |]; try discriminate.
  destruct (truthy x) eqn:Hx; [|auto]. intros H. injection H as <-. auto.
Qed.

Lemma suite_record_shape (e record : json) :
  validatorInpire.suite_record e = Return record -> suite_shaped record.
Proof.
  unfold validatorInpire.suite_record, and_then.
  destruct (or_ (get e "id") _) as [i| |]; try discriminate.
  destruct (or_ (get e "label") _) as [l| |] eqn:Hl; try discriminate.
  destruct (get_or e "description" _) as [d| |]; try discriminate.
  intros H. injection H as <-. exists i, l, d. split; [reflexivity|].
  apply or_returns in Hl as [[_ Ht]|Hl]; [auto|].
  apply or_returns in Hl as [[_ Ht]|Hl]; [auto|].
  injection Hl as <-. auto.
Qed.

Lemma for_each_each {A B} (f : A -> outcome B) (l : list A) (rs : list B) :
  for_each f l = Return rs -> Forall2 (fun x r => f x = Return r) l rs.
Proof.
  revert rs. induction l as [|x rest IH]; intros rs; cbn [for_each].
  - intros H. injection H as <-. constructor.
  - destruct (f x) as [y| |] eqn:Hy; try discriminate.
    destruct (for_each f rest) as [ys| |]; try discriminate.
    intros H. injection H as <-. constructor; [exact Hy|apply IH; reflexivity].
Qed.

Lemma normalize_suites_shape (data : json) (records : list json) :
  validatorInpire.normalize_suites data = Return records ->
  is_dict data = true /\ Forall suite_shaped records.
Proof.
  unfold validatorInpire.normalize_suites, and_then.
  destruct data as [| | | | |members]; try discriminate. cbn [get_or].
  destruct (validatorInpire.find_block _ _) as [block| |]; try discriminate.
  destruct (negb (truthy block)).
  - intros H. injection H as <-. split; [reflexivity|constructor].
  - destruct (or_ (get block "ExecutableTestSuite") (Return block)) as [entries| |];
      try discriminate.
    destruct (if is_dict entries then _ else _) as [each| |]; try discriminate.
    intros H. split; [reflexivity|].
    apply for_each_each in H.
    induction H as [|e record es rs He _ IH]; constructor; [|exact IH].
    exact (suite_record_shape e record He).
Qed.

Lemma catalog_records_shape (g : validatorInpire.globals) (w : world)
    (records : list json) :
  fst (validatorInpire.get_executable_test_suites g w) = Return records ->
  Forall suite_shaped records.
Proof.
  unfold validatorInpire.get_executable_test_suites, requests_get, send, bind,
    raise_for_status, json_of, lift, raise, ret.
  destruct (service w) as [|ex rest]; [discriminate|].
  destruct (reply ex) as [r|]; [|discriminate].
  destruct (is_error_status (status_code r)); [discriminate|].
  destruct (decoded r) as [data|]; [|discriminate].
  cbn [fst]. intros H. exact (proj2 (normalize_suites_shape data records H)).
Qed.

(** Whatever the service answers, every record that
    [get_executable_test_suites] returns is an object with exactly the
    members [id], [label] and [description], its label being the empty
    string or a non-empty value; and a payload that is a JSON array is
    never returned as it is, in spite of the [isinstance(data, list)]
    fallback: the call raises [AttributeError] on it. *)
Theorem suite_records_are_shaped :
  forall (g : validatorInpire.globals) (w : world),
    (forall records,
        fst (validatorInpire.get_executable_test_suites g w) = Return records ->
        Forall suite_shaped records) /\
    (forall ex rest items,
        service w = ex :: rest -> answers_json ex (JArr items) ->
        fst (validatorInpire.get_executable_test_suites g w) = Raise AttributeError).
Proof.
  intros g w. split.
  - exact (catalog_records_shape g w).
  - intros ex rest items Hs (r & Hr & Hc & Hj).
    unfold validatorInpire.get_executable_test_suites, requests_get.
    rewrite (fetch_json _ _ _ _ _ _ _ Hs Hr Hc Hj). reflexivity.
Qed.

Lemma suite_records_are_shaped_witness :
  Forall suite_shaped
    [JObj [("id", JNull); ("label", JStr EmptyString); ("description", JStr EmptyString)]].
Proof.
  exact (proj1 (suite_records_are_shaped (validatorInpire.settings None)
                  (fresh [answers_with 200 (catalog [])])) _ eq_refl).
Defined.

(** ** The ids that [get_test_suite_ids_safe] keeps *)

(** The value under [id], [None] without one. *)
Definition id_or_none (entry : json) : json :=
  match entry with
  | JObj members => or_none (dict_get "id" members)
  | _ => JNull
  end.

Lemma at_path_get_or (k : string) (rest : list string) (v x default : json) :
  at_path (k :: rest) v = Some x ->
  exists y, get_or v k default = Return y /\ subscript v k = Return y /\
            at_path rest y = Some x.
Proof.
  cbn [at_path]. destruct v as [| | | | |members]; try discriminate.
  unfold get_or, subscript. destruct (dict_get k members) as [y|]; [|discriminate].
  intros H. eauto.
Qed.

Lemma for_each_ids (items : list json) :
  Forall (fun e => is_dict e = true) items ->
  for_each id_if_any items
  = Return (map (fun e => if truthy (id_or_none e) then [id_or_none e] else []) items).
Proof.
  induction 1 as [|e rest He _ IH]; [reflexivity|].
  cbn [for_each map]. rewrite IH.
  destruct e as [| | | | |members]; try discriminate He.
  unfold id_if_any, get, get_or, and_then, id_or_none, or_none.
  destruct (dict_get "id" members) as [i|]; [|reflexivity].
  destruct (truthy i); reflexivity.
Qed.

Lemma concat_filter (items : list json) :
  concat (map (fun e => if truthy (id_or_none e) then [id_or_none e] else []) items)
  = List.filter truthy (map id_or_none items).
Proof.
  induction items as [|e rest IH]; [reflexivity|].
  cbn [map concat List.filter]. rewrite IH.
  destruct (truthy (id_or_none e)); reflexivity.
Qed.

Lemma for_each_ids_broken (items : list json) :
  Exists (fun e => is_dict e = false) items ->
  for_each id_if_any items = Raise AttributeError.
Proof.
  induction 1 as [e rest He|e rest _ IH]; cbn [for_each].
  - destruct e; try discriminate He; reflexivity.
  - rewrite IH. destruct (id_if_any_harmless e) as [[ids ->]| ->]; reflexivity.
Qed.

(** For a catalog in array form, [get_test_suite_ids_safe] returns the
    non-empty ids of the entries, in the order of the array, entries
    without an id being skipped, when every entry is an object; and it
    returns the empty list, dropping the ids of all entries, as soon as
    one entry is not an object. *)
Theorem safe_ids_in_order :
  forall (results : json) (items : list json),
    at_path ["EtfItemCollection"; "executableTestSuites"; "ExecutableTestSuite"] results
    = Some (JArr items) ->
    (Forall (fun e => is_dict e = true) items ->
     get_test_suite_ids_safe results = Return (List.filter truthy (map id_or_none items))) /\
    (Exists (fun e => is_dict e = false) items ->
     get_test_suite_ids_safe results = Return []).
Proof.
  intros results items Hpath.
  destruct (at_path_get_or _ _ _ _ (JObj []) Hpath) as (c & Hc & _ & Hpath1).
  destruct (at_path_get_or _ _ _ _ (JObj []) Hpath1) as (b & Hb & _ & Hpath2).
  destruct (at_path_get_or _ _ _ _ (JArr []) Hpath2) as (s & Hsu & _ & Hpath3).
  cbn [at_path] in Hpath3. injection Hpath3 as ->.
  unfold get_test_suite_ids_safe. rewrite Hc. cbn [and_then]. rewrite Hb. cbn [and_then].
  rewrite Hsu. cbn [and_then]. split.
  - intros Hall. rewrite (for_each_ids items Hall). cbn [and_then].
    rewrite concat_filter. reflexivity.
  - intros Hex. rewrite (for_each_ids_broken items Hex). reflexivity.
Qed.

Lemma safe_ids_in_order_witness :
  get_test_suite_ids_safe
    (catalog [suite "Suite A" "EID1"; JObj [("label", JStr "no id")]; suite "Suite B" "EID2"])
  = Return [JStr "EID1"; JStr "EID2"].
Proof.
  exact (proj1 (safe_ids_in_order
                  (catalog [suite "Suite A" "EID1"; JObj [("label", JStr "no id")];
                            suite "Suite B" "EID2"])
                  [suite "Suite A" "EID1"; JObj [("label", JStr "no id")];
                   suite "Suite B" "EID2"] eq_refl)
           ltac:(repeat constructor)).
Defined.

(** ** Catalogs that [create_test_suite_lookup] refuses *)

Lemma dict_set_nonempty {A} (k : string) (v : A) (items : list (string * A)) :
  dict_set k v items <> [].
Proof. destruct items as [|[k' v'] rest]; cbn; [|destruct (String.eqb k k')]; discriminate. Qed.

Lemma fold_dict_set_nonempty {A} (members acc : list (string * A)) :
  acc <> [] ->
  fold_left (fun acc kv => dict_set (fst kv) (snd kv) acc) members acc <> [].
Proof.
  revert acc. induction members as [|kv rest IH]; intros acc Hacc; [exact Hacc|].
  cbn [fold_left]. apply IH, dict_set_nonempty.
Qed.

Lemma dict_items_nonempty {A} (members : list (string * A)) :
  members <> [] -> dict_items members <> [].
Proof.
  destruct members as [|kv rest]; [congruence|]. intros _.
  unfold dict_items. cbn [fold_left]. apply fold_dict_set_nonempty, dict_set_nonempty.
Qed.

(** [create_test_suite_lookup] has none of the tolerance of
    [get_test_suite_ids_safe]: on a catalog whose suite block is a single
    non-empty object rather than an array it raises [TypeError] (the
    comprehension runs over the names of that object), and on a payload
    that lacks [EtfItemCollection] it raises [KeyError]; the safe
    extraction returns a list on both. *)
Theorem lookup_refuses_single_object :
  forall (results : json),
    (forall entry,
        at_path ["EtfItemCollection"; "executableTestSuites"; "ExecutableTestSuite"] results
        = Some (JObj entry) ->
        entry <> [] ->
        create_test_suite_lookup results = Raise TypeError /\
        get_test_suite_ids_safe results
        = Return (List.filter truthy [id_or_none (JObj entry)])) /\
    (forall members,
        results = JObj members ->
        dict_get "EtfItemCollection" members = None ->
        create_test_suite_lookup results = Raise (KeyError "EtfItemCollection") /\
        get_test_suite_ids_safe results = Return []).
Proof.
  intros results. split.
  - intros entry Hpath Hne.
    destruct (at_path_get_or _ _ _ _ (JObj []) Hpath) as (c & Hc & Hc' & Hpath1).
    destruct (at_path_get_or _ _ _ _ (JObj []) Hpath1) as (b & Hb & Hb' & Hpath2).
    destruct (at_path_get_or _ _ _ _ (JArr []) Hpath2) as (s & Hsu & Hsu' & Hpath3).
    cbn [at_path] in Hpath3. injection Hpath3 as ->. split.
    + unfold create_test_suite_lookup. rewrite Hc'. cbn [and_then]. rewrite Hb'.
      cbn [and_then]. rewrite Hsu'. cbn [and_then iterate].
      pose proof (dict_items_nonempty entry Hne) as Hitems.
      destruct (dict_items entry) as [|[k v] rest]; [congruence|]. reflexivity.
    + unfold get_test_suite_ids_safe. rewrite Hc. cbn [and_then]. rewrite Hb.
      cbn [and_then]. rewrite Hsu. cbn [and_then].
      unfold id_if_any, get, get_or, and_then, id_or_none, or_none. cbn [List.filter].
      destruct (dict_get "id" entry) as [i|]; [|reflexivity].
      destruct (truthy i); reflexivity.
  - intros members -> Hnone. split.
    + unfold create_test_suite_lookup, subscript. rewrite Hnone. reflexivity.
    + unfold get_test_suite_ids_safe, get_or. rewrite Hnone. reflexivity.
Qed.

Lemma lookup_refuses_single_object_witness :
  create_test_suite_lookup
    (JObj [("EtfItemCollection",
            JObj [("executableTestSuites",
                   JObj [("ExecutableTestSuite", suite "Suite A" "EID1")])])])
  = Raise TypeError.
Proof.
  exact (proj1 (proj1 (lookup_refuses_single_object
                         (JObj [("EtfItemCollection",
                                 JObj [("executableTestSuites",
                                        JObj [("ExecutableTestSuite",
                                               suite "Suite A" "EID1")])])]))
                  [("id", JStr "EID1"); ("label", JStr "Suite A")] eq_refl
                  ltac:(discriminate))).
Defined.

(** ** What [print_suites] prints of the catalog *)

Lemma print_lines_shaped (shown : list json) :
  forall i, Forall suite_shaped shown ->
    snd (validatorInpire.print_lines i shown) = Return tt /\
    length (fst (validatorInpire.print_lines i shown)) = length shown.
Proof.
  induction shown as [|s rest IH]; intros i Hall; [split; reflexivity|].
  inversion Hall as [|? ? (id & l & d & -> & _) Hrest]; subst.
  cbn [validatorInpire.print_lines]. unfold validatorInpire.suite_line.
  cbn [subscript dict_get String.eqb Ascii.eqb Bool.eqb and_then].
  destruct (IH (i + 1)%Z Hrest) as [Ho Hn].
  destruct (validatorInpire.print_lines (i + 1) rest) as [lines o].
  cbn [fst snd length] in *. split; [exact Ho|]. rewrite Hn. reflexivity.
Qed.

Lemma slice_to_shaped (records : list json) (n : Z) :
  Forall suite_shaped records -> Forall suite_shaped (validatorInpire.slice_to records n).
Proof.
  intros Hall. unfold validatorInpire.slice_to.
  destruct (0 <=? n)%Z; apply Forall_take, Hall.
Qed.

(** [print_suites] never fails on the records that
    [get_executable_test_suites] returns.  It prints the heading and one
    line for each record shown: all of them when the limit is [None] or
    [0], the first [limit] of them for a positive limit, followed in that
    case by one line more that counts the rest when there is a rest. *)
Theorem print_suites_lists_the_catalog :
  forall (g : validatorInpire.globals) (w : world) (records : list json)
         (limit : option Z),
    fst (validatorInpire.get_executable_test_suites g w) = Return records ->
    snd (validatorInpire.print_suites records limit) = Return tt /\
    (limit = None \/ limit = Some 0%Z ->
     length (fst (validatorInpire.print_suites records limit)) = S (length records)) /\
    (forall n, limit = Some n -> (0 < n)%Z ->
       length (fst (validatorInpire.print_suites records limit))
       = (1 + Nat.min (Z.to_nat n) (length records)
          + (if (n <? Z.of_nat (length records))%Z then 1 else 0))%nat).
Proof.
  intros g w records limit Hget.
  pose proof (catalog_records_shape g w records Hget) as Hall.
  unfold validatorInpire.print_suites.
  set (len := Z.of_nat (length records)).
  set (given := match limit with Some n => negb (n =? 0)%Z | None => false end).
  set (n := match limit with Some n => if given then n else len | None => len end).
  destruct (print_lines_shaped (validatorInpire.slice_to records n) 1%Z
              (slice_to_shaped records n Hall)) as [Ho Hn].
  destruct (validatorInpire.print_lines 1 (validatorInpire.slice_to records n))
    as [lines o]. cbn [fst snd] in Ho, Hn. subst o. split_and!.
  - destruct (given && (n <? len)%Z); reflexivity.
  - intros Hlimit.
    assert (given = false) as Hg by (destruct Hlimit as [-> | ->]; reflexivity).
    assert (n = len) as Hlen
      by (subst n; rewrite Hg; destruct limit; reflexivity).
    rewrite Hg. cbn [andb fst length]. rewrite Hn, Hlen.
    unfold validatorInpire.slice_to, len.
    replace (0 <=? Z.of_nat (length records))%Z with true by lia.
    rewrite Nat2Z.id, firstn_all. reflexivity.
  - intros m -> Hm.
    assert (given = true) as Hg
      by (subst given; destruct (Z.eqb_spec m 0); [lia|reflexivity]).
    assert (n = m) as -> by (subst n; rewrite Hg; reflexivity).
    rewrite Hg. cbn [andb].
    assert (length lines = Nat.min (Z.to_nat m) (length records)) as Hlines.
    { rewrite Hn. unfold validatorInpire.slice_to.
      replace (0 <=? m)%Z with true by lia. apply length_firstn. }
    fold len. destruct (m <? len)%Z; cbn [fst length].
    + rewrite length_app, Hlines. cbn [length]. lia.
    + rewrite Hlines. lia.
Qed.

Lemma print_suites_lists_the_catalog_witness :
  snd (validatorInpire.print_suites
         [JObj [("id", JStr "EID1"); ("label", JStr "Suite A");
                ("description", JStr EmptyString)];
          JObj [("id", JStr "EID2"); ("label", JStr "Suite B");
                ("description", JStr EmptyString)]] (Some 1%Z)) = Return tt.
Proof.
  exact (proj1 (print_suites_lists_the_catalog (validatorInpire.settings None)
                  (fresh [answers_with 200
                            (catalog [suite "Suite A" "EID1"; suite "Suite B" "EID2"])])
                  _ (Some 1%Z) eq_refl)).
Defined.

(** ** The script of [my_validator] *)

Definition catalog_request (g : my_validator.globals) : request :=
  {| req_method := GET;
     req_url := my_validator.API g +:+ "/ExecutableTestSuites";
     req_headers := [("Accept", "application/json")];
     req_body := NoBody;
     req_timeout := None |}.

Definition script_upload_request (g : my_validator.globals) (data : string) : request :=
  {| req_method := POST;
     req_url := my_validator.API g +:+ "/TestObjects?action=upload";
     req_headers := [];
     req_body := FileBody "fileupload" data;
     req_timeout := None |}.

(** The script checks no status.  Whatever the status code of the
    catalog response, once its body decodes the suite is looked up in it:
    when the lookup fails the script ends with the exception of the
    lookup, with the catalog request as the only request made; when it
    gives an id and the file to upload can be read, the file is posted
    and, whatever the status code of that response, the id of the test
    object is read off its decoded body. *)
Theorem script_checks_no_status :
  forall (g : my_validator.globals) (w : world) (ex : exchange) (rest : list exchange)
         (r : response) (results : json),
    service w = ex :: rest ->
    reply ex = Answered r ->
    decoded r = Some results ->
    (forall e,
        my_validator.suite_id results = Raise e ->
        my_validator.script g w = (Raise e, served w (catalog_request g) ex rest)) /\
    (forall i wr data ex' rest' r' payload,
        my_validator.suite_id results = Return i ->
        files w !! my_validator.LOCAL_XML_PATH g = Some (RegularFile true wr data) ->
        rest = ex' :: rest' ->
        reply ex' = Answered r' ->
        decoded r' = Some payload ->
        my_validator.script g w
        = ((let* t := subscript payload "testObject" in
            let* tid := subscript t "id" in Return (i, tid)),
           served (served w (catalog_request g) ex rest)
             (script_upload_request g data) ex' rest')).
Proof.
  intros g w ex rest r results Hs Hr Hj.
  assert (forall k : json -> M (json * json),
             (response <- requests_get (my_validator.API g +:+ "/ExecutableTestSuites")
                            [("Accept", "application/json")] None ;;
              executables_suites_results <- json_of response ;;
              k executables_suites_results) w
             = k results (served w (catalog_request g) ex rest)) as Hfetch.
  { intros k. unfold requests_get, bind at 1.
    rewrite (send_answered _ _ _ _ _ Hs Hr).
    unfold bind at 1, json_of. rewrite Hj. reflexivity. }
  unfold my_validator.script. rewrite Hfetch.
  destruct (safe_extraction_returns results) as [ids Hids].
  unfold my_validator.suite_id, bind, lift, ret, open_rb, requests_post, send, json_of.
  rewrite Hids. cbv beta iota.
  destruct (create_test_suite_lookup results) as [lookup|e0|]; cbn [and_then];
    [|split; intros; simplify_eq; reflexivity..].
  destruct (lookup_item lookup wanted_label) as [i0|e0|];
    [|split; intros; simplify_eq; reflexivity..].
  split; [intros e He; discriminate He|].
  intros i wr data ex' rest' r' payload Hi Hf -> Hr' Hj'. injection Hi as ->.
  cbn [files served service]. rewrite (stat_entry _ _ _ Hf).
  cbn [files served service]. rewrite Hr', Hj'.
  unfold ret. cbv beta iota.
  destruct (subscript payload "testObject") as [t| |]; cbn [and_then]; try reflexivity.
  destruct (subscript t "id") as [tid| |]; reflexivity.
Qed.

Definition failing_catalog : exchange :=
  answers_with 500 (catalog [suite "Suite A" "EID1"]).

Lemma script_checks_no_status_witness :
  my_validator.script (my_validator.settings None) (fresh [failing_catalog])
  = (Raise (KeyError wanted_label),
     served (fresh [failing_catalog]) (catalog_request (my_validator.settings None))
       failing_catalog []).
Proof.
  exact (proj1 (script_checks_no_status (my_validator.settings None)
                  (fresh [failing_catalog]) failing_catalog [] _ _ eq_refl eq_refl eq_refl)
           (KeyError wanted_label) eq_refl).
Defined.
